(** * mqb: building mgo queries from HTTP request parameters

    A shallow embedding of the Go package [mqb] (the query builder with its
    helpers in utils.go) and the proofs of its specified properties.

    Conventions of the embedding:
    - Go's [uint] and [int] are the 64-bit types of a 64-bit platform; they
      are carried by [Z] and every wrap-around is written out.
    - [req.URL.Query()] is a Go map from names to slices of raw values.  A
      [range] over a Go map visits the entries in an unspecified order, so the
      request is given as the list of its entries in the order in which the
      loop visits them; statements quantify over every such list.
    - The maps the package builds are finite maps ([gmap]).
    - A function that returns [(value, error)] returns a [result]; a run-time
      panic is an outcome of its own.
    - [float64] is the IEEE 754 binary64 format of [SpecFloat]. *)

From Stdlib Require Import ZArith Ascii String List Lia SpecFloat.
From stdpp Require Import base option list strings gmap fin_maps.

Local Open Scope string_scope.
Local Open Scope Z_scope.

(** ** Results of fallible calls *)

(** The spec's error taxonomy (section 7). *)
Inductive ErrorClass :=
| UnsupportedParameter | UnsupportedField | InvalidValue
| InvalidPage | UnsupportedKind.

(** [reflect.Kind], in the order of its declaration. *)
Module reflect.
Inductive Kind :=
| Invalid | Bool
| Int | Int8 | Int16 | Int32 | Int64
| Uint | Uint8 | Uint16 | Uint32 | Uint64 | Uintptr
| Float32 | Float64 | Complex64 | Complex128
| Array | Chan | Func | Interface | Map | Ptr | Slice
| String | Struct | UnsafePointer.

#[global] Instance Kind_eq_dec : EqDecision Kind.
Proof. solve_decision. Defined.
End reflect.

(** The error values the package creates, one constructor per message. *)
Inductive cause :=
| NumError (func : string) (input : string)
    (* the error of a failed strconv parse: func names the parser *)
| KindNotSupported (kind : reflect.Kind)
    (* "reflection kind '%s' is not supported" *)
| ParameterNotSupported (parameterName : string)
    (* "parameter '%s' is not supported" *)
| UnsupportedFieldValue (v : string)
    (* "unsupported field value: %s" *)
| InvalidValueFor (v : string)
    (* "invalid value for %s" *)
| PageCannotBeZero.
    (* "page cannot be 0" *)

(** An error with the HTTP status attached by [merry.Wrap(err).WithHTTPCode],
    when there is one. *)
Record error := mkError { err_cause : cause; err_http : option Z }.

Definition errors_New (c : cause) : error := mkError c None.
Definition WithHTTPCode (code : Z) (e : error) : error :=
  mkError (err_cause e) (Some code).
Definition StatusBadRequest : Z := 400.
Definition StatusInternalServerError : Z := 500.

Definition classify (e : error) : ErrorClass :=
  match err_cause e with
  | NumError _ _ | InvalidValueFor _ => InvalidValue
  | KindNotSupported _ => UnsupportedKind
  | ParameterNotSupported _ => UnsupportedParameter
  | UnsupportedFieldValue _ => UnsupportedField
  | PageCannotBeZero => InvalidPage
  end.

Inductive result (A : Type) :=
| Ok (a : A)
| Err (e : error)
| Panic (msg : string).
Arguments Ok {A} a.
Arguments Err {A} e.
Arguments Panic {A} msg.

Definition bind {A B} (r : result A) (k : A -> result B) : result B :=
  match r with
  | Ok a => k a
  | Err e => Err e
  | Panic m => Panic m
  end.

Notation "'do' x <- r ; k" := (bind r (fun x => k))
  (at level 10, x name, r at level 100, k at level 200).

(** [if err != nil { return nil, wrap(err) }] *)
Definition wrapErr {A} (f : error -> error) (r : result A) : result A :=
  match r with
  | Err e => Err (f e)
  | _ => r
  end.

(** A loop that converts the values one after the other and returns at the
    first failure. *)
Fixpoint forEach {A B} (f : A -> result B) (l : list A) : result (list B) :=
  match l with
  | [] => Ok []
  | v :: rest =>
      do b <- f v;
      do bs <- forEach f rest;
      Ok (b :: bs)
  end.

Definition failed {A} (r : result A) : Prop :=
  match r with Ok _ => False | _ => True end.

(** ** The parts of Go's library the package calls *)

Definition uintSize : Z := 64.
Definition maxUint : Z := 2 ^ uintSize - 1.
Definition minInt : Z := - 2 ^ (uintSize - 1).
Definition maxInt : Z := 2 ^ (uintSize - 1) - 1.

(** Arithmetic of [uint]: results are reduced modulo [2^64]. *)
Definition wrapUint (z : Z) : Z := z mod 2 ^ uintSize.
(** The conversion [int(u)] of a [uint]: the same 64 bits read as signed. *)
Definition intOfUint (u : Z) : Z :=
  if u <? 2 ^ (uintSize - 1) then u else u - 2 ^ uintSize.
(** The conversion [uint(i)] of an [int]. *)
Definition uintOfInt (i : Z) : Z := wrapUint i.

Definition bytes (s : string) : list ascii := list_ascii_of_string s.
Definition len (s : string) : Z := Z.of_nat (String.length s).

Module strings.

(** [strings.ToLower] on ASCII text (Go identifiers of the schemas at hand);
    bytes outside A-Z are kept. *)
Definition lowerByte (c : ascii) : ascii :=
  let n := N_of_ascii c in
  if ((65 <=? n) && (n <=? 90))%N then ascii_of_N (n + 32) else c.

Fixpoint ToLower (s : string) : string :=
  match s with
  | EmptyString => EmptyString
  | String c r => String (lowerByte c) (ToLower r)
  end.

Fixpoint hasByte (c : ascii) (s : string) : bool :=
  match s with
  | EmptyString => false
  | String d r => if Ascii.eqb c d then true else hasByte c r
  end.

(** [strings.TrimLeft(s, cutset)] *)
Fixpoint TrimLeft (s cutset : string) : string :=
  match s with
  | EmptyString => EmptyString
  | String c r => if hasByte c cutset then TrimLeft r cutset else s
  end.

Definition rev (s : string) : string :=
  string_of_list_ascii (List.rev (list_ascii_of_string s)).

(** [strings.TrimRight(s, cutset)] *)
Definition TrimRight (s cutset : string) : string :=
  rev (TrimLeft (rev s) cutset).

(** [strings.Trim(s, cutset)]: every leading and every trailing byte that
    occurs in [cutset] is removed. *)
Definition Trim (s cutset : string) : string :=
  TrimRight (TrimLeft s cutset) cutset.

(** [strings.Contains(s, ":")], for a separator of one byte. *)
Definition ContainsByte (s : string) (c : ascii) : bool := hasByte c s.

(** [strings.Split(s, ",")], for a separator of one byte: the pieces
    between the separators, one empty piece for the empty string. *)
Fixpoint SplitByte (s : string) (sep : ascii) : list string :=
  match s with
  | EmptyString => [EmptyString]
  | String c r =>
      if Ascii.eqb c sep then EmptyString :: SplitByte r sep
      else match SplitByte r sep with
           | piece :: more => String c piece :: more
           | [] => [String c EmptyString]
           end
  end.

End strings.

Module strconv.

Definition digit (c : ascii) : option Z :=
  let n := N_of_ascii c in
  if ((48 <=? n) && (n <=? 57))%N then Some (Z.of_N n - 48) else None.

(** The value of a run of decimal digits, most significant first. *)
Fixpoint digits (acc : Z) (s : string) : option Z :=
  match s with
  | EmptyString => Some acc
  | String c r =>
      match digit c with
      | Some d => digits (10 * acc + d) r
      | None => None
      end
  end.

(** [strconv.ParseUint(s, 10, 0)]: a non-empty run of decimal digits, no
    sign, no underscore, of value at most [2^64 - 1]. *)
Definition ParseUint (s : string) : result Z :=
  match s with
  | EmptyString => Err (errors_New (NumError "ParseUint" s))
  | _ =>
      match digits 0 s with
      | Some n =>
          if n <=? maxUint then Ok n
          else Err (errors_New (NumError "ParseUint" s))
      | None => Err (errors_New (NumError "ParseUint" s))
      end
  end.

(** [strconv.Atoi(s)]: an optional sign, then a non-empty run of decimal
    digits, of value within [int]. *)
Definition Atoi (s : string) : result Z :=
  let bad := Err (errors_New (NumError "Atoi" s)) in
  let '(neg, body) :=
    match s with
    | String "-" r => (true, r)
    | String "+" r => (false, r)
    | _ => (false, s)
    end in
  match body with
  | EmptyString => bad
  | _ =>
      match digits 0 body with
      | Some n =>
          let i := if neg : bool then - n else n in
          if (minInt <=? i) && (i <=? maxInt) then Ok i else bad
      | None => bad
      end
  end.

(** [strconv.ParseBool(s)] *)
Definition ParseBool (s : string) : result bool :=
  if bool_decide (s ∈ ["1"; "t"; "T"; "TRUE"; "true"; "True"]) then Ok true
  else if bool_decide (s ∈ ["0"; "f"; "F"; "FALSE"; "false"; "False"])
  then Ok false
  else Err (errors_New (NumError "ParseBool" s)).

End strconv.

(** [float64]: IEEE 754 binary64. *)
Definition float64 : Type := spec_float.
Definition prec64 : Z := 53.
Definition emax64 : Z := 1024.

Module hex.

(** [fromHexChar] of encoding/hex *)
Definition fromHexChar (c : ascii) : option N :=
  let n := N_of_ascii c in
  if ((48 <=? n) && (n <=? 57))%N then Some (n - 48)%N
  else if ((97 <=? n) && (n <=? 102))%N then Some (n - 97 + 10)%N
  else if ((65 <=? n) && (n <=? 70))%N then Some (n - 65 + 10)%N
  else None.

(** [hex.DecodeString]: two hexadecimal digits per byte; [None] is an
    error (a byte that is no digit, or an odd length). *)
Fixpoint DecodeString (s : string) : option string :=
  match s with
  | EmptyString => Some EmptyString
  | String _ EmptyString => None
  | String a (String b r) =>
      match fromHexChar a, fromHexChar b, DecodeString r with
      | Some hi, Some lo, Some d => Some (String (ascii_of_N (16 * hi + lo)) d)
      | _, _, _ => None
      end
  end.

End hex.

Module bson.

(** [type ObjectId string]: the twelve raw bytes. *)
Definition ObjectId : Type := string.

(** [bson.IsObjectIdHex] *)
Definition IsObjectIdHex (s : string) : bool :=
  if len s =? 24 then
    match hex.DecodeString s with Some _ => true | None => false end
  else false.

(** [bson.ObjectIdHex]: panics on text that is no identifier. *)
Definition ObjectIdHex (s : string) : result ObjectId :=
  match hex.DecodeString s with
  | Some d => if len d =? 12 then Ok d else Panic "invalid input to ObjectIdHex"
  | None => Panic "invalid input to ObjectIdHex"
  end.

End bson.

(** The values a filter holds ([interface{}] in the source). *)
Inductive value :=
| VBool (b : bool)
| VInt (i : Z)
| VUint (u : Z)
| VFloat (f : float64)
| VString (s : string)
| VObjectId (id : bson.ObjectId)
| VRegEx (Pattern Options : string).   (* bson.RegEx *)

(** What [createQueryFilter] stores under a parameter name: the value itself
    or the document [{"$in": s}]. *)
Inductive term :=
| Single (v : value)
| In_ (s : list value).

(** What is taken from Go as it is, as parameters: the library functions
    [strconv.ParseFloat(v, 64)] ([None] is its error) and [strconv.Unquote],
    and the result of the conversion [uint(f)] of a [float64] whose integer
    part is no [uint], which the language leaves to the implementation. *)
Class GoLib := {
  ParseFloat : string -> option float64;
  Unquote : string -> option string;
  uintOfUnrepresentable : float64 -> Z
}.

Definition quoteByte : ascii := ascii_of_N 34.
Definition backslashByte : ascii := ascii_of_N 92.
Definition quoted (s : string) : string :=
  String quoteByte (s ++ String quoteByte EmptyString).

Module StructTag.
Section Lookup.
Context `{GoLib}.

(** Skip leading space. *)
Fixpoint skipSpace (tag : string) : string :=
  match tag with
  | String " " r => skipSpace r
  | _ => tag
  end.

Definition nameByte (c : ascii) : bool :=
  let n := N_of_ascii c in
  (32 <? n)%N && negb (Ascii.eqb c ":") && negb (Ascii.eqb c quoteByte)
  && negb (n =? 127)%N.

(** Scan to colon: the name and what follows it. *)
Fixpoint scanName (tag : string) : string * string :=
  match tag with
  | EmptyString => (EmptyString, EmptyString)
  | String c r =>
      if nameByte c then
        let '(name, rest) := scanName r in (String c name, rest)
      else (EmptyString, tag)
  end.

(** Scan the quoted string whose opening quote was read: its text up to
    the closing quote, and what follows; [None] when it is not closed. *)
Fixpoint scanQuoted (s : string) : option (string * string) :=
  match s with
  | EmptyString => None
  | String c r =>
      if Ascii.eqb c quoteByte then Some (EmptyString, r)
      else if Ascii.eqb c backslashByte then
        match r with
        | EmptyString => None
        | String d r' =>
            match scanQuoted r' with
            | Some (text, rest) => Some (String c (String d text), rest)
            | None => None
            end
        end
      else
        match scanQuoted r with
        | Some (text, rest) => Some (String c text, rest)
        | None => None
        end
  end.

(** The loop of [StructTag.Lookup]; every round consumes a part of the
    tag, so the length of the tag bounds the number of rounds. *)
Fixpoint lookupLoop (rounds : nat) (tag key : string) : option string :=
  match rounds with
  | O => None
  | S rounds =>
      let tag := skipSpace tag in
      match tag with
      | EmptyString => None
      | _ =>
          let '(name, rest) := scanName tag in
          match name, rest with
          | String _ _, String ":" (String c after) =>
              if Ascii.eqb c quoteByte then
                match scanQuoted after with
                | Some (text, tag') =>
                    if String.eqb key name then Unquote (quoted text)
                    else lookupLoop rounds tag' key
                | None => None
                end
              else None
          | _, _ => None
          end
      end
  end.

(** [tag.Get(key)]: the value of the key, the empty string without one. *)
Definition Get (tag key : string) : string :=
  match lookupLoop (S (String.length tag)) tag key with
  | Some v => v
  | None => EmptyString
  end.

End Lookup.
End StructTag.

(** github.com/deckarep/golang-set, as far as utils.go uses it.  A set is
    backed by a Go map, and [ToSlice] ranges over that map: every order of
    the elements is a possible result. *)
Module mapset.

Definition Difference (s other : gset string) : gset string := s ∖ other.

(** All the slices one call of [ToSlice] can return. *)
Definition ToSlice (s : gset string) : list (list string) :=
  permutations (elements s).

End mapset.

(** ** The schema an endpoint struct describes

    What reflection reads of a Go type: its kind, the element type of a
    pointer or slice, the name and the fields of a struct.  A type that is
    neither is [Basic] with its kind. *)
Record StructField (T : Type) := mkField {
  Name : string;
  Tag : string;      (* reflect.StructTag *)
  Type_ : T
}.
Arguments mkField {T} Name Tag Type_.
Arguments Name {T} _.
Arguments Tag {T} _.
Arguments Type_ {T} _.

#[warnings="-register-all"]
Inductive GoType :=
| Basic (k : reflect.Kind)
| PtrTo (elem : GoType)
| SliceOf (elem : GoType)
| StructOf (name : string) (fields : list (StructField GoType)).

(** [typ.Kind()] *)
Definition KindOf (t : GoType) : reflect.Kind :=
  match t with
  | Basic k => k
  | PtrTo _ => reflect.Ptr
  | SliceOf _ => reflect.Slice
  | StructOf _ _ => reflect.Struct
  end.

(** [typ.Name()] of a struct type. *)
Definition TypeName (t : GoType) : string :=
  match t with
  | StructOf name _ => name
  | _ => EmptyString
  end.

(** [if typ.Kind() == reflect.Ptr { typ = typ.Elem() }] *)
Definition derefType (t : GoType) : GoType :=
  match t with
  | PtrTo elem => elem
  | _ => t
  end.

(** ** utils.go *)

Import reflect.

Fixpoint contains (list : list string) (value : string) : bool :=
  match list with
  | [] => false
  | v :: rest => if String.eqb v value then true else contains rest value
  end.

Definition newSetFromSlice (slice : list string) : gset string :=
  foldl (fun s e => {[ e ]} ∪ s) ∅ slice.

Definition structName (structObj : GoType) : string :=
  strings.ToLower (TypeName (derefType structObj)).

Definition validMetaParameters : gmap string Kind :=
  <["page" := Uint]> (<["limit" := Uint]> (<["field" := String]>
    (<["sort" := String]> ∅))).

Definition mongoTags : list string := ["omitempty"; "minsize"; "inline"].

(** [for k, v := range src { dst[k] = v }] *)
Definition copyInto (src dst : gmap string Kind) : gmap string Kind :=
  map_fold (fun k v m => <[k := v]> m) dst src.

Section utils.
Context `{GoLib}.

(** The name [getFieldNameFromTag] takes out of a token list:
    [diff.ToSlice()[0]] when [len(diff.ToSlice()) > 0], and what the
    function goes on to otherwise.  The two calls of [ToSlice] each range
    over the set on their own. *)
Definition firstOfDiff (text : string) (otherwise : list string)
  : list string :=
  let diff := mapset.Difference (newSetFromSlice (strings.SplitByte text ","))
                                (newSetFromSlice mongoTags) in
  counted ← mapset.ToSlice diff;
  if (0 <? Z.of_nat (length counted)) then
    slice ← mapset.ToSlice diff;
    match slice with
    | first :: _ => [first]
    | [] => []
    end
  else otherwise.

(** [getFieldNameFromTag]: the names the call can return. *)
Definition getFieldNameFromTag (tag : string) : list string :=
  let fieldName := StructTag.Get tag "bson" in
  let plain :=
    if strings.ContainsByte tag ":" then [EmptyString]
    else firstOfDiff tag [EmptyString] in
  if 1 <? len fieldName then firstOfDiff fieldName plain else plain.

(** The loop over [validMetaParameters] that ends
    [createValidParametersMap]. *)
Definition addMetaParameters (disabledParameters : list string)
    (validParametersMap : gmap string Kind) : gmap string Kind :=
  map_fold (fun k v m =>
              if negb (contains disabledParameters k) then <[k := v]> m
              else m)
           validParametersMap validMetaParameters.

(** The loop of [createValidParametersMap] over the fields of the struct;
    [nested] is the call of the function on the value of a field that is
    a struct. *)
Fixpoint structFieldsLoop (disabledParameters : list string)
    (nested : GoType -> list (gmap string Kind))
    (fields : list (StructField GoType))
    (validParametersMap : gmap string Kind) {struct fields}
  : list (gmap string Kind) :=
  match fields with
  | [] => [validParametersMap]
  | field :: rest =>
      tagName ← getFieldNameFromTag (Tag field);
      let fieldName :=
        if len tagName =? 0 then strings.ToLower (Name field)
        else tagName in
      match Type_ field with
      | StructOf _ _ =>
          nestedMap ← nested (Type_ field);
          structFieldsLoop disabledParameters nested rest
                           (copyInto nestedMap validParametersMap)
      | SliceOf elem =>
          if negb (contains disabledParameters fieldName)
          then structFieldsLoop disabledParameters nested rest
                 (<[fieldName := KindOf elem]> validParametersMap)
          else structFieldsLoop disabledParameters nested rest
                 validParametersMap
      | t =>
          if negb (contains disabledParameters fieldName)
          then structFieldsLoop disabledParameters nested rest
                 (<[fieldName := KindOf t]> validParametersMap)
          else structFieldsLoop disabledParameters nested rest
                 validParametersMap
      end
  end.

(** [createValidParametersMap]: the maps the call can return.  There is
    none when reflection panics, which it does for an [endPointStruct] that
    is neither a struct nor a pointer to one. *)
Fixpoint createValidParametersMap (endPointStruct : GoType)
    (disabledParameters : list string) {struct endPointStruct}
  : list (gmap string Kind) :=
  match derefType endPointStruct with
  | StructOf _ fields =>
      validParametersMap ←
        structFieldsLoop disabledParameters
          (fun value => createValidParametersMap value disabledParameters)
          fields ∅;
      [addMetaParameters disabledParameters validParametersMap]
  | _ => []
  end.

End utils.

(** ** The query builder *)

(** [Page], the paging information. *)
Record Page := mkPage {
  Size : Z;      (* how many elements a page contains *)
  Items : Z;     (* total number of items the query returns *)
  Last : Z;      (* total number of pages *)
  Current : Z    (* the current page number *)
}.

Definition setSize (p : Page) (v : Z) : Page :=
  mkPage v (Items p) (Last p) (Current p).
Definition setItems (p : Page) (v : Z) : Page :=
  mkPage (Size p) v (Last p) (Current p).
Definition setLast (p : Page) (v : Z) : Page :=
  mkPage (Size p) (Items p) v (Current p).
Definition setCurrent (p : Page) (v : Z) : Page :=
  mkPage (Size p) (Items p) (Last p) v.

(** [MongoQuery]; the database handle is the store a query is run against
    and is passed to [Run]. *)
Record MongoQuery := mkMongoQuery {
  endPointStruct : GoType;
  supportedParameters : gmap string Kind;
  additionalSupportedParamters : gmap string Kind;
  disabledParameters : list string;
  page : Page
}.

Definition setPage (mq : MongoQuery) (p : Page) : MongoQuery :=
  mkMongoQuery (endPointStruct mq) (supportedParameters mq)
               (additionalSupportedParamters mq) (disabledParameters mq) p.

(** [req.URL.Query()]: the entries of the map, in the order a [range] over
    it visits them. *)
Definition Values : Type := list (string * list string).

(** [query[key]], with the [ok] of the two-valued form. *)
Fixpoint lookupValues (query : Values) (key : string) : option (list string) :=
  match query with
  | [] => None
  | (k, vs) :: rest => if String.eqb k key then Some vs else lookupValues rest key
  end.

(** What a [*mgo.Query] was built from. *)
Record Query := mkQuery {
  collection : string;
  filter : gmap string term;               (* Find(filterMap) *)
  selector : option (gmap string Z);       (* Select(selectFields); None is nil *)
  sortFields : list string;                (* Sort(sortFields...) *)
  limit : Z;                               (* Limit(n) *)
  skip : Z                                 (* Skip(n) *)
}.

Definition badRequest {A} (r : result A) : result A :=
  wrapErr (WithHTTPCode StatusBadRequest) r.

Definition isMetaParameter (parameterName : string) : bool :=
  match validMetaParameters !! parameterName with
  | Some _ => true
  | None => false
  end.

Section builder.
Context `{GoLib}.

(** [NewMongoQuery]: one builder per map the introspection can return. *)
Definition NewMongoQuery (endPointStruct : GoType) : list MongoQuery :=
  supported ← createValidParametersMap endPointStruct [];
  [mkMongoQuery endPointStruct supported ∅ [] (mkPage 0 0 0 0)].

(** The first loop of [DisableParameters]. *)
Fixpoint appendNew (disabled paramters : list string) : list string :=
  match paramters with
  | [] => disabled
  | p :: rest =>
      if negb (contains disabled p) then appendNew (disabled ++ [p]) rest
      else appendNew disabled rest
  end.

(** [DisableParameters]: the builders the call can leave. *)
Definition DisableParameters (paramters : list string) (mq : MongoQuery)
  : list MongoQuery :=
  let disabled := appendNew (disabledParameters mq) paramters in
  supported ← createValidParametersMap (endPointStruct mq) disabled;
  [mkMongoQuery (endPointStruct mq)
                (copyInto (additionalSupportedParamters mq) supported)
                (additionalSupportedParamters mq) disabled (page mq)].

(** [AddOrOverwriteValidParameter] *)
Definition AddOrOverwriteValidParameter (name : string) (value : Kind)
    (mq : MongoQuery) : MongoQuery :=
  let additional := <[name := value]> (additionalSupportedParamters mq) in
  mkMongoQuery (endPointStruct mq)
               (copyInto additional (supportedParameters mq))
               additional (disabledParameters mq) (page mq).

(** The body of the loops of [createQueryFilter] over the raw values of a
    parameter of boolean, integer or float kind: one value converted. *)
Definition convertValue (kind : Kind) (v : string) : result value :=
  match kind with
  | Bool => do b <- badRequest (strconv.ParseBool v); Ok (VBool b)
  | Int | Int8 | Int16 | Int32 | Int64 =>
      do i <- badRequest (strconv.Atoi v); Ok (VInt i)
  | Uint | Uint8 | Uint16 | Uint32 | Uint64 =>
      do i <- badRequest (strconv.ParseUint v); Ok (VUint i)
  | Float32 | Float64 =>
      match ParseFloat v with
      | Some f => Ok (VFloat f)
      | None => badRequest (Err (errors_New (NumError "ParseFloat" v)))
      end
  | _ => badRequest (Err (errors_New (KindNotSupported kind)))
  end.

(** One value of a parameter of string kind: an identifier or, when it is
    none, what [plain] makes of the text. *)
Definition convertString (plain : string -> value) (v : string)
  : result value :=
  if bson.IsObjectIdHex v
  then do id <- bson.ObjectIdHex v; Ok (VObjectId id)
  else Ok (plain v).

(** The [switch kind] of [createQueryFilter]: the slice [s] it fills from
    the raw values of one parameter. *)
Definition convertValues (kind : Kind) (parameterValues : list string)
  : result (list value) :=
  match kind with
  | Bool
  | Int | Int8 | Int16 | Int32 | Int64
  | Uint | Uint8 | Uint16 | Uint32 | Uint64
  | Float32 | Float64 => forEach (convertValue kind) parameterValues
  | String =>
      match parameterValues with
      | [v] =>
          do x <- convertString (fun v => VRegEx v EmptyString) v; Ok [x]
      | _ => forEach (convertString VString) parameterValues
      end
  | _ => badRequest (Err (errors_New (KindNotSupported kind)))
  end.

(** [if len(s) == 1 { s[0] } else { {"$in": s} }] *)
Definition termOf (s : list value) : term :=
  match s with
  | [v] => Single v
  | _ => In_ s
  end.

(** The loop of [createQueryFilter] over the entries of the request. *)
Fixpoint filterLoop (supported : gmap string Kind) (entries : Values)
    (filter : gmap string term) : result (gmap string term) :=
  match entries with
  | [] => Ok filter
  | (parameterName, parameterValues) :: rest =>
      match supported !! parameterName with
      | Some kind =>
          if isMetaParameter parameterName
          then filterLoop supported rest filter
          else
            do s <- convertValues kind parameterValues;
            filterLoop supported rest (<[parameterName := termOf s]> filter)
      | None =>
          badRequest (Err (errors_New (ParameterNotSupported parameterName)))
      end
  end.

Definition createQueryFilter (mq : MongoQuery) (query : Values)
  : result (gmap string term) :=
  filterLoop (supportedParameters mq) query ∅.

Fixpoint fieldsLoop (supported : gmap string Kind) (values : list string)
    (fields : gmap string Z) : result (gmap string Z) :=
  match values with
  | [] => Ok fields
  | v :: rest =>
      match supported !! v with
      | None => Err (errors_New (UnsupportedFieldValue v))
      | Some _ => fieldsLoop supported rest (<[v := 1]> fields)
      end
  end.

Definition createFieldsMap (mq : MongoQuery) (query : Values)
  : result (gmap string Z) :=
  match lookupValues query "field" with
  | Some _field => fieldsLoop (supportedParameters mq) _field ∅
  | None => Ok ∅
  end.

Fixpoint sortLoop (supported : gmap string Kind) (values : list string)
    (sortFields : list string) : result (list string) :=
  match values with
  | [] => Ok sortFields
  | v :: rest =>
      match supported !! strings.Trim v "-" with
      | None => badRequest (Err (errors_New (UnsupportedFieldValue v)))
      | Some _ => sortLoop supported rest (sortFields ++ [v])
      end
  end.

Definition createSortFields (mq : MongoQuery) (query : Values)
  : result (list string) :=
  match lookupValues query "sort" with
  | Some _sortField => sortLoop (supportedParameters mq) _sortField []
  | None => Ok []
  end.

End builder.

(** ** Paging *)

(** The conversion [float64(u)] of a [uint]: the nearest binary64 number,
    ties to even. *)
Definition float64OfUint (u : Z) : float64 :=
  binary_normalize prec64 emax64 u 0 false.

Module math.

(** [math.Ceil]: the least integer value greater than or equal to [x];
    zeros, infinities and NaN are returned as they are. *)
Definition Ceil (x : float64) : float64 :=
  match x with
  | S754_finite s m e =>
      if 0 <=? e then x
      else
        let v := cond_Zopp s (Zpos m) in
        binary_normalize prec64 emax64 (- ((- v) / 2 ^ (- e))) 0 s
  | _ => x
  end.

End math.

(** The integer part of a finite [float64]. *)
Definition truncate (x : float64) : option Z :=
  match x with
  | S754_zero _ => Some 0
  | S754_finite s m e => Some (cond_Zopp s (Z.shiftl (Zpos m) e))
  | _ => None
  end.

(** What [Run] asks of the database: the number of documents a query
    matches and the documents it returns. *)
Record Store (Content : Type) := mkStore {
  Count : Query -> result Z;
  All : Query -> result Content
}.
Arguments Count {Content} _ _.
Arguments All {Content} _ _.

(** [Response] *)
Record Response (Content : Type) := mkResponse {
  Content_ : Content;
  Page_ : Page
}.
Arguments mkResponse {Content} _ _.

Section paging.
Context `{GoLib}.

(** [DefaultPageSize], a variable of the package (20 unless it is set). *)
Variable DefaultPageSize : Z.

(** The conversion [uint(f)] of a [float64]. *)
Definition uintOfFloat64 (f : float64) : Z :=
  match truncate f with
  | Some z =>
      if (0 <=? z) && (z <=? maxUint) then z else uintOfUnrepresentable f
  | None => uintOfUnrepresentable f
  end.

(** [calculateLastPage] *)
Definition calculateLastPage (p : Page) : Page :=
  setLast p (uintOfFloat64
               (math.Ceil (SFdiv prec64 emax64 (float64OfUint (Items p))
                                               (float64OfUint (Size p))))).

(** [getUint] of utils.go: the value of [param] as a [uint] and whether
    [param] is present; the error stands for [(0, true, err)]. *)
Definition getUint (query : Values) (param : string) : result (Z * bool) :=
  match lookupValues query param with
  | Some _uintVal =>
      match _uintVal with
      | first :: _ =>
          match strconv.ParseUint first with
          | Ok uintVal => Ok (uintVal, true)
          | _ => Err (errors_New (InvalidValueFor first))
          end
      | [] => Panic "index out of range"
      end
  | None => Ok (0, false)
  end.

(** Modelled from the spec: the three-argument [getUint(req, param,
    default)] that [CreateQuery] calls and that is not among the sources
    (utils.go has the two-argument one above).  The spec: "limit defaults
    to defaultSize when absent, page defaults to 1 when absent; both parsed
    as unsigned integers, fails with InvalidValue on parse failure".  The
    value returned along with an error is taken to be 0, as in the
    two-argument function. *)
Definition getUintDefault (query : Values) (param : string) (default : Z)
  : result Z :=
  do r <- getUint query param;
  Ok (if snd r then fst r else default).

(** [CreateQuery]: the builder with its page updated, and the query or
    the error. *)
Definition CreateQuery (mq : MongoQuery) (query : Values)
  : MongoQuery * result Query :=
  match createQueryFilter mq query with
  | Ok filterMap =>
      (* the error of createFieldsMap is overwritten by the next call *)
      let selectFields :=
        match createFieldsMap mq query with
        | Ok fields => Some fields
        | _ => None
        end in
      match createSortFields mq query with
      | Ok sortFields =>
          match getUintDefault query "limit" DefaultPageSize with
          | Ok size =>
              let mq := setPage mq (setSize (page mq) size) in
              match getUintDefault query "page" 1 with
              | Ok current =>
                  let mq := setPage mq (setCurrent (page mq) current) in
                  if current =? 0 then
                    (mq, badRequest (Err (errors_New PageCannotBeZero)))
                  else
                    (mq, Ok (mkQuery (structName (endPointStruct mq))
                               filterMap selectFields sortFields
                               (intOfUint size)
                               (intOfUint (wrapUint ((current - 1) * size)))))
              | Err e =>
                  (setPage mq (setCurrent (page mq) 0), badRequest (Err e))
              | Panic msg => (mq, Panic msg)
              end
          | Err e => (setPage mq (setSize (page mq) 0), badRequest (Err e))
          | Panic msg => (mq, Panic msg)
          end
      | Err e => (mq, Err e)
      | Panic msg => (mq, Panic msg)
      end
  | Err e => (mq, Err e)
  | Panic msg => (mq, Panic msg)
  end.

(** [Run] *)
Definition Run {Content} (dataBase : Store Content) (mq : MongoQuery)
    (query : Values) : MongoQuery * result (Response Content) :=
  match CreateQuery mq query with
  | (mq, Ok q) =>
      let countQuery :=
        mkQuery (collection q) (filter q) (selector q) (sortFields q) 0 0 in
      match badRequest (Count dataBase countQuery) with
      | Ok items =>
          let responsePage :=
            calculateLastPage (setItems (page mq) (uintOfInt items)) in
          match wrapErr (WithHTTPCode StatusInternalServerError)
                        (All dataBase q) with
          | Ok content => (mq, Ok (mkResponse content responsePage))
          | Err e => (mq, Err e)
          | Panic msg => (mq, Panic msg)
          end
      | Err e => (mq, Err e)
      | Panic msg => (mq, Panic msg)
      end
  | (mq, Err e) => (mq, Err e)
  | (mq, Panic msg) => (mq, Panic msg)
  end.

End paging.

(** ** An instance of the library, for running the model

    [strconv.ParseFloat] on the unsigned decimal integers (which binary64
    rounds to nearest, ties to even), [strconv.Unquote] on the quoted strings
    that hold no backslash, and for [uint(f)] out of range the bits amd64
    gives. *)
Definition plainText (s : string) : bool :=
  negb (strings.hasByte backslashByte s) && negb (strings.hasByte quoteByte s)
  && negb (strings.hasByte (ascii_of_N 10) s).

Definition unquotePlain (s : string) : option string :=
  match s with
  | String.String c r =>
      match strings.rev r with
      | String.String d inner =>
          if Ascii.eqb c quoteByte && Ascii.eqb d quoteByte
             && plainText inner
          then Some (strings.rev inner) else None
      | EmptyString => None
      end
  | EmptyString => None
  end.

Definition parseFloatInteger (s : string) : option float64 :=
  match s with
  | EmptyString => None
  | _ => match strconv.digits 0 s with
         | Some n => Some (float64OfUint n)
         | None => None
         end
  end.

#[local] Instance sampleLib : GoLib := {|
  ParseFloat := parseFloatInteger;
  Unquote := unquotePlain;
  uintOfUnrepresentable := fun _ => 2 ^ 63
|}.

(** The struct of the package's tests. *)
Definition bsonTag (value : string) : string := "bson:" ++ quoted value.

Definition Embedded : GoType :=
  StructOf "Embedded"
    [ mkField "EmbeddedBool" EmptyString (Basic Bool);
      mkField "EmbeddedInt" EmptyString (Basic Int64) ].

Definition TestStruct : GoType :=
  StructOf "TestStruct"
    [ mkField "FloatMember" EmptyString (Basic Float64);
      mkField "UintMember" EmptyString (Basic Uint);
      mkField "IntMember" (bsonTag "intMember") (Basic Int64);
      mkField "BoolMember" "mybool" (Basic Bool);
      mkField "StringMember"
        ("json:" ++ quoted "name" ++ " binding:" ++ quoted "required"
         ++ " validate:" ++ quoted "nonzero") (Basic String);
      mkField "EmbeddedMember" EmptyString Embedded;
      mkField "StringSliceMember" (bsonTag "strSliceMember")
        (SliceOf (Basic String));
      mkField "IntSliceMember" EmptyString (SliceOf (Basic Int)) ].

(** ** Vocabulary of the statements *)

(** The kinds of the boolean, integer and float cases of the switch. *)
Definition scalarKind (kind : Kind) : bool :=
  match kind with
  | Bool
  | Int | Int8 | Int16 | Int32 | Int64
  | Uint | Uint8 | Uint16 | Uint32 | Uint64
  | Float32 | Float64 => true
  | _ => false
  end.

(** The twelve bytes of an identifier written in hexadecimal. *)
Definition objectIdBytes (v : string) : bson.ObjectId :=
  match hex.DecodeString v with
  | Some d => d
  | None => EmptyString
  end.

(** The outcome of a call that returns, with or without an error. *)
Definition returns {A} (r : result A) : Prop :=
  match r with Panic _ => False | _ => True end.

(** The errors the conversion of a value can give, and those of the loop of
    [createQueryFilter]. *)
Definition conversionError (e : error) : Prop :=
  classify e = InvalidValue \/ classify e = UnsupportedKind.

Definition filterError (e : error) : Prop :=
  classify e = UnsupportedParameter \/ conversionError e.

(** The error [createQueryFilter] returns for a name that is not
    registered. *)
Definition notSupported (parameterName : string) : error :=
  WithHTTPCode StatusBadRequest
               (errors_New (ParameterNotSupported parameterName)).

(** A name is registered when the registry has a kind for it. *)
Definition registered (supported : gmap string Kind) (v : string) : Prop :=
  is_Some (supported !! v).

(** The reading of the sort marker in the spec: "strip a single optional
    leading descending-direction marker". *)
Definition stripMarker (v : string) : string :=
  match v with
  | String.String "-" name => name
  | _ => v
  end.

(** The least integer that is not below M * 2^E. *)
Definition ceilValue (M E : Z) : Z :=
  if 0 <=? E then M * 2 ^ E else - ((- M) / 2 ^ (- E)).

(** The second half of [binary_round_aux]: the rounded mantissa is brought
    back to 53 digits and packed. *)
Definition finishing (M1 E1 : Z) : spec_float :=
  let '(mrs, e) := shr_fexp prec64 emax64 M1 E1 loc_Exact in
  match shr_m mrs with
  | Z0 => S754_zero false
  | Zpos m => if e <=? emax64 - prec64 then S754_finite false m e
              else S754_infinity false
  | Zneg _ => S754_nan
  end.

(** The calls that change the registry of a builder, and the builders a
    sequence of them can leave. *)
Inductive registryCall :=
| Disable (paramters : list string)
| AddOrOverwrite (name : string) (value : Kind).

Definition callOn `{GoLib} (call : registryCall) (mq : MongoQuery)
  : list MongoQuery :=
  match call with
  | Disable paramters => DisableParameters paramters mq
  | AddOrOverwrite name value => [AddOrOverwriteValidParameter name value mq]
  end.

Fixpoint callsOn `{GoLib} (calls : list registryCall) (mq : MongoQuery)
  : list MongoQuery :=
  match calls with
  | [] => [mq]
  | call :: rest => mq' ← callOn call mq; callsOn rest mq'
  end.

(** The override table the calls record on top of [table]: for each name
    the kind of its last [AddOrOverwrite]. *)
Fixpoint recorded (calls : list registryCall) (table : gmap string Kind)
  : gmap string Kind :=
  match calls with
  | [] => table
  | Disable _ :: rest => recorded rest table
  | AddOrOverwrite name value :: rest => recorded rest (<[name := value]> table)
  end.

(** The registry of a builder is its override table laid over a map the
    introspection gives for its disabled names. *)
Definition registryInv `{GoLib} (mq : MongoQuery) : Prop :=
  exists introspected,
    introspected ∈ createValidParametersMap (endPointStruct mq)
                                            (disabledParameters mq)
    /\ supportedParameters mq
       = additionalSupportedParamters mq ∪ introspected.

(** A store that counts five documents. *)
Definition fiveDocuments : Store unit :=
  mkStore unit (fun _ => Ok 5) (fun _ => Ok tt).

(** The struct of the package documentation, and its builder. *)
Definition Person : GoType :=
  StructOf "Person"
    [ mkField "Name" EmptyString (Basic String);
      mkField "Age" EmptyString (Basic Int) ].

Definition personParameters : gmap string Kind :=
  <["name" := String]> (<["age" := Int]> validMetaParameters).

Definition personBuilder : MongoQuery :=
  mkMongoQuery Person personParameters ∅ [] (mkPage 0 0 0 0).

(** A sequence of calls on the builder of [Person], and the builder it
    leaves. *)
Definition personCalls : list registryCall :=
  [ Disable ["name"; "sort"];
    AddOrOverwrite "limit" Bool;
    AddOrOverwrite "name" Uint;
    Disable ["name"] ].

Definition personAfterCalls : MongoQuery :=
  hd personBuilder (callsOn personCalls personBuilder).

(** The kind of [limit] recorded twice, and the builder that leaves. *)
Definition limitCalls : list registryCall :=
  [ AddOrOverwrite "limit" Bool; AddOrOverwrite "limit" Float64 ].

Definition personAfterLimitCalls : MongoQuery :=
  hd personBuilder (callsOn limitCalls personBuilder).

(** Two structs with a bson tag: a name of one byte, and two tokens that
    are no directive of mgo. *)
Definition Point : GoType :=
  StructOf "Point" [ mkField "Xcoord" (bsonTag "x") (Basic Int) ].

Definition Tagged : GoType :=
  StructOf "Tagged" [ mkField "Name" (bsonTag "first,second") (Basic String) ].

(** An entry of the request the loop of [createQueryFilter] gets past: its
    name is registered and, unless it is a meta-parameter, its values
    convert. *)
Definition convertible `{GoLib} (supported : gmap string Kind)
    (entry : string * list string) : Prop :=
  match supported !! entry.1 with
  | Some kind =>
      isMetaParameter entry.1 = true
      \/ exists s, convertValues kind entry.2 = Ok s
  | None => False
  end.

(** The builder of [Person] once [name] and [sort] are disabled. *)
Definition personWithoutName : MongoQuery :=
  hd personBuilder (DisableParameters ["name"; "sort"] personBuilder).

(** The tokens [getFieldNameFromTag] takes a name from: those of [text],
    split at the commas, that are no directive of mgo. *)
Definition nameTokens (text : string) : gset string :=
  mapset.Difference (newSetFromSlice (strings.SplitByte text ","))
                    (newSetFromSlice mongoTags).

(** What [getFieldNameFromTag] can return for a tag with no usable bson
    value: nothing when the tag has a colon, else a token of the tag. *)
Definition plainName (tag name : string) : Prop :=
  if strings.ContainsByte tag ":" then name = EmptyString
  else name ∈ nameTokens tag \/ (nameTokens tag = ∅ /\ name = EmptyString).

(** The fields of a struct that are no struct themselves, those of its
    struct fields included, in the order of the declarations. *)
Fixpoint leafFieldsLoop (nested : GoType -> list (StructField GoType))
    (fields : list (StructField GoType)) : list (StructField GoType) :=
  match fields with
  | [] => []
  | field :: rest =>
      (match Type_ field with
       | StructOf _ _ => nested (Type_ field)
       | _ => [field]
       end ++ leafFieldsLoop nested rest)%list
  end.

Fixpoint leafFields (t : GoType) : list (StructField GoType) :=
  match t with
  | StructOf _ fields => leafFieldsLoop leafFields fields
  | _ => []
  end.

(** Every field of a struct, those of its struct fields included. *)
Fixpoint allFieldsLoop (nested : GoType -> list (StructField GoType))
    (fields : list (StructField GoType)) : list (StructField GoType) :=
  match fields with
  | [] => []
  | field :: rest =>
      field :: (match Type_ field with
                | StructOf _ _ => nested (Type_ field)
                | _ => []
                end ++ allFieldsLoop nested rest)%list
  end.

Fixpoint allFields (t : GoType) : list (StructField GoType) :=
  match t with
  | StructOf _ fields => allFieldsLoop allFields fields
  | _ => []
  end.

(** The kind a field that is no struct is registered with. *)
Definition fieldKind (field : StructField GoType) : Kind :=
  match Type_ field with
  | SliceOf elem => KindOf elem
  | t => KindOf t
  end.

(** The names a field can be registered under: what its tag gives or,
    when that is empty, its lower-cased name. *)
Definition fieldNames `{GoLib} (field : StructField GoType) : list string :=
  tagName ← getFieldNameFromTag (Tag field);
  [if len tagName =? 0 then strings.ToLower (Name field) else tagName].

(** A struct whose tags each leave one name to choose. *)
Definition unambiguous `{GoLib} (t : GoType) : Prop :=
  Forall (fun field => exists name, getFieldNameFromTag (Tag field) = [name])
         (allFields (derefType t)).

(** An entry of the registry that comes from the meta-parameters or from
    one of [fields]. *)
Definition introspectedEntry `{GoLib} (disabled : list string)
    (fields : list (StructField GoType)) (key : string) (kind : Kind)
  : Prop :=
  (key ∉ disabled)
  /\ (validMetaParameters !! key = Some kind
      \/ exists field, field ∈ fields /\ key ∈ fieldNames field
                       /\ kind = fieldKind field).

(** The registry of [TestStruct] with [intMember] disabled. *)
Definition testStructParameters : gmap string Kind :=
  hd ∅ (createValidParametersMap TestStruct ["intMember"]).

(** * Properties *)

(** The structural induction that follows the fields of a struct. *)
Lemma GoType_fields_ind (P : GoType -> Prop) :
  (forall k, P (Basic k)) ->
  (forall elem, P elem -> P (PtrTo elem)) ->
  (forall elem, P elem -> P (SliceOf elem)) ->
  (forall name fields,
      Forall (fun field => P (Type_ field)) fields ->
      P (StructOf name fields)) ->
  forall t, P t.
Proof.
  intros HB HP HS HF.
  fix IH 1. intros [k | elem | elem | name fields].
  - apply HB.
  - apply HP, IH.
  - apply HS, IH.
  - apply HF. induction fields as [| [n tg ty] rest IHrest].
    + constructor.
    + constructor; [apply IH | exact IHrest].
Qed.


Section properties.
Context `{GoLib}.

(** [DefaultPageSize], the variable of the package. *)
Variable DefaultPageSize : Z.

(** *** Loops in the result monad *)

Lemma forEach_Forall2 {A B} (f : A -> result B) l bs :
  forEach f l = Ok bs -> Forall2 (fun v b => f v = Ok b) l bs.
Proof.
  revert bs. induction l as [| v rest IH]; intros bs; simpl.
  - intros [= <-]. constructor.
  - destruct (f v) as [b | e | m] eqn:Hv; simpl; try discriminate.
    destruct (forEach f rest) as [bs' | e | m]; simpl; try discriminate.
    intros [= <-]. constructor; auto.
Qed.

Lemma Forall2_forEach {A B} (f : A -> result B) l bs :
  Forall2 (fun v b => f v = Ok b) l bs -> forEach f l = Ok bs.
Proof.
  induction 1 as [| v b l bs Hv _ IH]; simpl; [reflexivity |].
  rewrite Hv, IH. reflexivity.
Qed.

(** *** Identifiers *)

Lemma DecodeString_length :
  forall s d, hex.DecodeString s = Some d ->
              String.length s = (2 * String.length d)%nat.
Proof.
  fix IH 1. intros [| a [| b r]] d; simpl.
  - intros [= <-]. reflexivity.
  - discriminate.
  - destruct (hex.fromHexChar a); [| discriminate].
    destruct (hex.fromHexChar b); [| discriminate].
    destruct (hex.DecodeString r) as [d' |] eqn:Hr; [| discriminate].
    intros [= <-]. simpl. rewrite (IH r d' Hr). lia.
Qed.

Lemma ObjectIdHex_of_IsObjectIdHex v :
  bson.IsObjectIdHex v = true -> bson.ObjectIdHex v = Ok (objectIdBytes v).
Proof.
  unfold bson.IsObjectIdHex, bson.ObjectIdHex, objectIdBytes, len.
  destruct (Z.eqb_spec (Z.of_nat (String.length v)) 24) as [Hl |]; [| discriminate].
  destruct (hex.DecodeString v) as [d |] eqn:Hd; [| discriminate].
  intros _. apply DecodeString_length in Hd.
  replace (Z.of_nat (String.length d) =? 12) with true; [reflexivity |].
  symmetry. apply Z.eqb_eq. lia.
Qed.

Lemma convertString_total plain v :
  convertString plain v =
  Ok (if bson.IsObjectIdHex v then VObjectId (objectIdBytes v) else plain v).
Proof.
  unfold convertString.
  destruct (bson.IsObjectIdHex v) eqn:Hid; [| reflexivity].
  rewrite (ObjectIdHex_of_IsObjectIdHex v Hid). reflexivity.
Qed.

Lemma forEach_total {A B} (f : A -> result B) (g : A -> B) l :
  (forall v, f v = Ok (g v)) -> forEach f l = Ok (map g l).
Proof.
  intros Hf. induction l as [| v rest IH]; simpl; [reflexivity |].
  rewrite Hf, IH. reflexivity.
Qed.

(** *** The filter loop *)

Lemma filterLoop_app supported (l1 l2 : Values) f0 :
  filterLoop supported (l1 ++ l2)%list f0 =
  bind (filterLoop supported l1 f0) (filterLoop supported l2).
Proof.
  revert f0. induction l1 as [| [name values] rest IH]; intros f0; simpl.
  - reflexivity.
  - destruct (supported !! name) as [kind |]; [| reflexivity].
    destruct (isMetaParameter name); [apply IH |].
    destruct (convertValues kind values) as [s | e | m]; simpl; auto.
Qed.

(** A name the loop does not visit keeps what the filter held for it. *)
Lemma filterLoop_untouched supported entries f0 f name :
  filterLoop supported entries f0 = Ok f ->
  name ∉ entries.*1 ->
  f !! name = f0 !! name.
Proof.
  revert f0. induction entries as [| [n values] rest IH]; intros f0; simpl.
  - intros [= <-] _. reflexivity.
  - intros Hloop Hnotin. apply not_elem_of_cons in Hnotin as [Hne Hrest].
    destruct (supported !! n) as [kind |]; [| discriminate].
    destruct (isMetaParameter n); [eauto |].
    destruct (convertValues kind values) as [s | e | m]; simpl in Hloop;
      try discriminate.
    rewrite (IH _ Hloop Hrest). apply lookup_insert_ne. congruence.
Qed.

(** What a successful run of the loop stores for an entry it visits. *)
Lemma filterLoop_entry supported entries f0 f name values kind :
  NoDup entries.*1 ->
  filterLoop supported entries f0 = Ok f ->
  (name, values) ∈ entries ->
  supported !! name = Some kind ->
  isMetaParameter name = false ->
  exists s, convertValues kind values = Ok s /\ f !! name = Some (termOf s).
Proof.
  revert f0. induction entries as [| [n vs] rest IH]; intros f0; simpl.
  - intros _ _ Hin. inversion Hin.
  - intros Hnodup Hloop Hin Hkind Hmeta.
    apply NoDup_cons in Hnodup as [Hfresh Hnodup].
    apply elem_of_cons in Hin as [Heq | Hin].
    + injection Heq as <- <-.
      rewrite Hkind, Hmeta in Hloop.
      destruct (convertValues kind values) as [s | e | m]; simpl in Hloop;
        try discriminate.
      exists s. split; [reflexivity |].
      rewrite (filterLoop_untouched _ _ _ _ _ Hloop Hfresh).
      apply lookup_insert_eq.
    + destruct (supported !! n) as [k |]; [| discriminate].
      destruct (isMetaParameter n); [eauto |].
      destruct (convertValues k vs) as [s | e | m]; simpl in Hloop;
        try discriminate.
      eauto.
Qed.

Lemma termOf_many s : (1 < length s)%nat -> termOf s = In_ s.
Proof. destruct s as [| a [| b r]]; simpl; intros; try lia; reflexivity. Qed.

Lemma convertValues_scalar kind values :
  scalarKind kind = true ->
  convertValues kind values = forEach (convertValue kind) values.
Proof. destruct kind; simpl; intros; try discriminate; reflexivity. Qed.

(** C1. For a request parameter registered with a boolean, integer or float
    kind that is not a meta-parameter, the filter [createQueryFilter]
    returns maps the name to the single converted value when the parameter
    carries one raw value, and to the [$in] term over the converted values,
    in the order of the request and with duplicates kept, when it carries
    more than one. *)
Theorem createQueryFilter_scalar_terms mq query filter name values kind :
  NoDup query.*1 ->
  createQueryFilter mq query = Ok filter ->
  (name, values) ∈ query ->
  supportedParameters mq !! name = Some kind ->
  scalarKind kind = true ->
  isMetaParameter name = false ->
  exists parsed,
    Forall2 (fun v p => convertValue kind v = Ok p) values parsed
    /\ (forall v, values = [v] ->
          exists p, parsed = [p] /\ filter !! name = Some (Single p))
    /\ ((1 < length values)%nat -> filter !! name = Some (In_ parsed)).
Proof.
  intros Hnodup Hfilter Hin Hkind Hscalar Hmeta.
  destruct (filterLoop_entry _ _ _ _ _ _ _ Hnodup Hfilter Hin Hkind Hmeta)
    as (s & Hs & Hlookup).
  rewrite (convertValues_scalar _ _ Hscalar) in Hs.
  apply forEach_Forall2 in Hs.
  exists s. split; [exact Hs |]. split.
  - intros v ->. inversion Hs as [| ? p ? ? _ Hrest]; subst.
    inversion Hrest; subst. exists p. split; [reflexivity | exact Hlookup].
  - intros Hlen. rewrite Hlookup. f_equal. apply termOf_many.
    rewrite <- (Forall2_length _ _ _ Hs). exact Hlen.
Qed.

(** C2. For a registered parameter of string kind that is not a
    meta-parameter: a raw value that is a 24-digit hexadecimal identifier
    becomes an ObjectId; a single value that is none becomes a regular
    expression term of that pattern with no options, not the string itself;
    among several values those that are no identifier enter the [$in] term
    as plain strings. *)
Theorem createQueryFilter_string_terms mq query filter name values :
  NoDup query.*1 ->
  createQueryFilter mq query = Ok filter ->
  (name, values) ∈ query ->
  supportedParameters mq !! name = Some String ->
  isMetaParameter name = false ->
  (forall v, values = [v] ->
     filter !! name =
     Some (Single (if bson.IsObjectIdHex v then VObjectId (objectIdBytes v)
                   else VRegEx v EmptyString)))
  /\ ((1 < length values)%nat ->
      filter !! name =
      Some (In_ (map (fun v => if bson.IsObjectIdHex v
                               then VObjectId (objectIdBytes v)
                               else VString v) values))).
Proof.
  intros Hnodup Hfilter Hin Hkind Hmeta.
  destruct (filterLoop_entry _ _ _ _ _ _ _ Hnodup Hfilter Hin Hkind Hmeta)
    as (s & Hs & Hlookup).
  split.
  - intros v ->. simpl in Hs. rewrite convertString_total in Hs.
    simpl in Hs. injection Hs as <-. exact Hlookup.
  - intros Hlen.
    assert (Hs' : forEach (convertString VString) values = Ok s).
    { destruct values as [| a [| b r]]; simpl in Hlen; try lia. exact Hs. }
    rewrite (forEach_total _ _ _ (convertString_total VString)) in Hs'.
    injection Hs' as <-. rewrite Hlookup. f_equal. apply termOf_many.
    rewrite length_map. exact Hlen.
Qed.

(** *** Failures of the filter loop *)

Lemma ParseBool_returns v : returns (strconv.ParseBool v).
Proof. unfold strconv.ParseBool. repeat case_bool_decide; exact I. Qed.

Lemma ParseUint_returns v : returns (strconv.ParseUint v).
Proof.
  unfold strconv.ParseUint. destruct v; [exact I |].
  destruct (strconv.digits 0 _); [| exact I].
  destruct (_ <=? _); exact I.
Qed.

Lemma Atoi_returns v : returns (strconv.Atoi v).
Proof.
  unfold strconv.Atoi.
  destruct (match v with
            | String.String "-" r => (true, r)
            | String.String "+" r => (false, r)
            | _ => (false, v)
            end) as [neg body].
  destruct body; [exact I |].
  destruct (strconv.digits 0 _); [| exact I].
  destruct (_ && _); exact I.
Qed.

Lemma bind_returns {A B} (r : result A) (k : A -> result B) :
  returns r -> (forall a, returns (k a)) -> returns (bind r k).
Proof. destruct r; simpl; auto. Qed.

Lemma badRequest_returns {A} (r : result A) :
  returns r -> returns (badRequest r).
Proof. destruct r; simpl; auto. Qed.

Lemma forEach_returns {A B} (f : A -> result B) l :
  (forall v, returns (f v)) -> returns (forEach f l).
Proof.
  intros Hf. induction l as [| v rest IH]; simpl; [exact I |].
  apply bind_returns; [apply Hf |]. intros b.
  apply bind_returns; [exact IH |]. intros bs. exact I.
Qed.

Lemma convertValue_returns kind v : returns (convertValue kind v).
Proof.
  destruct kind; simpl; try exact I;
    try (apply bind_returns; [apply badRequest_returns | intros; exact I]);
    auto using ParseBool_returns, Atoi_returns, ParseUint_returns;
    destruct (ParseFloat v); exact I.
Qed.

Lemma convertValues_returns kind values :
  returns (convertValues kind values).
Proof.
  destruct kind; simpl; try exact I;
    try (apply forEach_returns; intros; apply (convertValue_returns _)).
  destruct values as [| v [| w r]].
  - exact I.
  - rewrite convertString_total. exact I.
  - rewrite (forEach_total _ _ _ (convertString_total VString)). exact I.
Qed.

(** An error of the conversion of a value is a client-input error of the
    class InvalidValue, or UnsupportedKind for a kind outside the switch. *)
Lemma wrapErr_Err {A} g (r : result A) e :
  wrapErr g r = Err e -> exists e0, r = Err e0 /\ e = g e0.
Proof. destruct r; simpl; intros [=]; eauto. Qed.

Lemma bind_Err {A B} (r : result A) (k : A -> result B) e :
  bind r k = Err e -> r = Err e \/ exists a, r = Ok a /\ k a = Err e.
Proof.
  destruct r as [a | e0 | m]; simpl; intros He.
  - right. exists a. split; [reflexivity | exact He].
  - left. injection He as <-. reflexivity.
  - discriminate.
Qed.

Lemma ParseBool_Err v e :
  strconv.ParseBool v = Err e -> err_cause e = NumError "ParseBool" v.
Proof.
  unfold strconv.ParseBool. repeat case_bool_decide; intros [=]; subst.
  reflexivity.
Qed.

Lemma ParseUint_Err v e :
  strconv.ParseUint v = Err e -> err_cause e = NumError "ParseUint" v.
Proof.
  unfold strconv.ParseUint. destruct v; [intros [= <-]; reflexivity |].
  destruct (strconv.digits 0 _); [| intros [= <-]; reflexivity].
  destruct (_ <=? _); intros [=]; subst; reflexivity.
Qed.

Lemma Atoi_Err v e :
  strconv.Atoi v = Err e -> err_cause e = NumError "Atoi" v.
Proof.
  unfold strconv.Atoi.
  destruct (match v with
            | String.String "-" r => (true, r)
            | String.String "+" r => (false, r)
            | _ => (false, v)
            end) as [neg body].
  destruct body; [intros [= <-]; reflexivity |].
  destruct (strconv.digits 0 _); [| intros [= <-]; reflexivity].
  destruct (_ && _); intros [=]; subst; reflexivity.
Qed.

Lemma convertValue_Err kind v e :
  convertValue kind v = Err e -> conversionError e.
Proof.
  unfold conversionError, classify.
  destruct kind; simpl;
    try (intros [= <-]; simpl; auto; fail);
    try (intros He; apply bind_Err in He as [He | (a & _ & [=])];
         apply wrapErr_Err in He as (e0 & He & ->); simpl;
         first [ rewrite (ParseBool_Err _ _ He)
               | rewrite (Atoi_Err _ _ He)
               | rewrite (ParseUint_Err _ _ He) ]; auto; fail);
    destruct (ParseFloat v); intros [= <-]; simpl; auto.
Qed.

Lemma forEach_Err {A B} (f : A -> result B) l e :
  forEach f l = Err e -> exists v, v ∈ l /\ f v = Err e.
Proof.
  induction l as [| v rest IH]; simpl; [discriminate |].
  intros He. apply bind_Err in He as [He | (b & _ & He)].
  - exists v. split; [left | exact He].
  - apply bind_Err in He as [He | (bs & _ & [=])].
    destruct (IH He) as (w & Hw & Hf). exists w. split; [by right | exact Hf].
Qed.

Lemma convertValues_Err kind values e :
  convertValues kind values = Err e -> conversionError e.
Proof.
  destruct kind; simpl;
    try (intros [= <-]; right; reflexivity);
    try (intros He; apply forEach_Err in He as (v & _ & He);
         exact (convertValue_Err _ _ _ He)).
  destruct values as [| v [| w r]].
  - discriminate.
  - rewrite convertString_total. discriminate.
  - rewrite (forEach_total _ _ _ (convertString_total VString)).
    discriminate.
Qed.

Lemma filterLoop_returns supported entries f0 :
  returns (filterLoop supported entries f0).
Proof.
  revert f0. induction entries as [| [name values] rest IH]; intros f0; simpl.
  - exact I.
  - destruct (supported !! name) as [kind |]; [| exact I].
    destruct (isMetaParameter name); [apply IH |].
    apply bind_returns; [apply convertValues_returns | intros; apply IH].
Qed.

Lemma filterLoop_Err supported entries f0 e :
  filterLoop supported entries f0 = Err e -> filterError e.
Proof.
  revert f0. induction entries as [| [name values] rest IH]; intros f0; simpl.
  - discriminate.
  - destruct (supported !! name) as [kind |].
    + destruct (isMetaParameter name); [apply IH |].
      intros He. apply bind_Err in He as [He | (s & _ & He)].
      * right. exact (convertValues_Err _ _ _ He).
      * exact (IH _ He).
    + intros [= <-]. left. reflexivity.
Qed.

(** C3, as the code has it. A request with a parameter name that the
    registry does not hold makes [createQueryFilter] fail, and a failure
    carries no filter. The values of that name are never converted: the
    outcome is the same whatever they are. The error is the
    UnsupportedParameter error of that name when the loop reaches it, that
    is when the entries it visits before are all converted; when one of
    those fails, the loop ends there with the error of that entry
    (UnsupportedParameter, InvalidValue or UnsupportedKind). *)
Theorem createQueryFilter_unsupported mq (before after : Values) name values :
  supportedParameters mq !! name = None ->
  let query := (before ++ (name, values) :: after)%list in
  (exists e, createQueryFilter mq query = Err e /\ filterError e)
  /\ (forall f, filterLoop (supportedParameters mq) before ∅ = Ok f ->
        createQueryFilter mq query = Err (notSupported name))
  /\ (forall e, filterLoop (supportedParameters mq) before ∅ = Err e ->
        createQueryFilter mq query = Err e)
  /\ (forall values',
        createQueryFilter mq (before ++ (name, values') :: after)%list =
        createQueryFilter mq query).
Proof.
  intros Hnone query.
  assert (Hhere : forall vs f,
             filterLoop (supportedParameters mq) ((name, vs) :: after) f =
             Err (notSupported name)).
  { intros vs f. simpl. rewrite Hnone. reflexivity. }
  assert (Hsplit : forall vs,
             createQueryFilter mq (before ++ (name, vs) :: after)%list =
             bind (filterLoop (supportedParameters mq) before ∅)
                  (fun _ => Err (notSupported name))).
  { intros vs. unfold createQueryFilter. rewrite filterLoop_app.
    destruct (filterLoop _ before ∅); simpl; [apply Hhere | auto | auto]. }
  repeat split.
  - unfold query. rewrite Hsplit.
    pose proof (filterLoop_returns (supportedParameters mq) before ∅) as Hret.
    destruct (filterLoop _ before ∅) as [f | e | m] eqn:Hbefore; simpl.
    + eexists. split; [reflexivity | left; reflexivity].
    + exists e. split; [reflexivity | exact (filterLoop_Err _ _ _ _ Hbefore)].
    + destruct Hret.
  - intros f Hf. unfold query. rewrite Hsplit, Hf. reflexivity.
  - intros e He. unfold query. rewrite Hsplit, He. reflexivity.
  - intros values'. unfold query. rewrite !Hsplit. reflexivity.
Qed.

(** *** Projection and sort lists *)

Lemma fieldsLoop_registered supported values fields :
  Forall (registered supported) values ->
  fieldsLoop supported values fields
  = Ok (foldl (fun m v => <[v := 1]> m) fields values).
Proof.
  revert fields. induction values as [| v rest IH]; intros fields Hall; simpl.
  - reflexivity.
  - inversion Hall as [| ? ? [k Hk] Hrest]; subst.
    rewrite Hk. apply IH, Hrest.
Qed.

Lemma fieldsLoop_unregistered supported (before after : list string) v fields :
  Forall (registered supported) before ->
  supported !! v = None ->
  fieldsLoop supported (before ++ v :: after)%list fields
  = Err (errors_New (UnsupportedFieldValue v)).
Proof.
  revert fields. induction before as [| w rest IH]; intros fields Hall Hv; simpl.
  - rewrite Hv. reflexivity.
  - inversion Hall as [| ? ? [k Hk] Hrest]; subst.
    rewrite Hk. apply IH; assumption.
Qed.

(** Each field named is a key with the value 1, however often it is
    named. *)
Lemma projection_lookup (values : list string) (fields : gmap string Z) v :
  foldl (fun m v => <[v := 1]> m) fields values !! v
  = if bool_decide (v ∈ values) then Some 1 else fields !! v.
Proof.
  revert fields. induction values as [| w rest IH]; intros fields; simpl.
  - reflexivity.
  - rewrite IH. destruct (decide (v = w)) as [-> | Hne].
    + rewrite lookup_insert_eq.
      rewrite (bool_decide_eq_true_2 (w ∈ w :: rest)) by left.
      destruct (bool_decide (w ∈ rest)); reflexivity.
    + rewrite lookup_insert_ne by congruence.
      destruct (decide (v ∈ rest)) as [Hin | Hnin].
      * rewrite !bool_decide_eq_true_2; [reflexivity | by right | exact Hin].
      * rewrite !bool_decide_eq_false_2; [reflexivity | | exact Hnin].
        intros [? | ?]%elem_of_cons; contradiction.
Qed.

Lemma sortLoop_registered supported values sortFields :
  Forall (fun v => registered supported (strings.Trim v "-")) values ->
  sortLoop supported values sortFields = Ok (sortFields ++ values)%list.
Proof.
  revert sortFields.
  induction values as [| v rest IH]; intros sortFields Hall; simpl.
  - rewrite app_nil_r. reflexivity.
  - inversion Hall as [| ? ? [k Hk] Hrest]; subst.
    rewrite Hk, (IH _ Hrest), <- app_assoc. reflexivity.
Qed.

Lemma sortLoop_unregistered supported (before after : list string) v
    sortFields :
  Forall (fun v => registered supported (strings.Trim v "-")) before ->
  supported !! strings.Trim v "-" = None ->
  sortLoop supported (before ++ v :: after)%list sortFields
  = badRequest (Err (errors_New (UnsupportedFieldValue v))).
Proof.
  revert sortFields.
  induction before as [| w rest IH]; intros sortFields Hall Hv; simpl.
  - rewrite Hv. reflexivity.
  - inversion Hall as [| ? ? [k Hk] Hrest]; subst.
    rewrite Hk. apply IH; assumption.
Qed.

(** The name checked is the one left by the single marker of the spec
    with the '-' still at its ends removed. *)
Lemma Trim_stripMarker v :
  strings.Trim v "-" = strings.Trim (stripMarker v) "-".
Proof.
  destruct v as [| c name]; [reflexivity |].
  destruct c as [[] [] [] [] [] [] [] []]; reflexivity.
Qed.

(** C5, as the code has it. [createSortFields] checks each value of [sort]
    with every leading and every trailing '-' removed ([strings.Trim])
    against the registry. When one of them is not registered the whole
    call fails with the UnsupportedField error of the first such value and
    returns no list; otherwise it returns the values as they were given,
    markers included, in the order of the request and with duplicates
    kept. The name checked is the remainder after one leading marker with
    the '-' left at its ends removed as well. *)
Theorem createSortFields_values mq query values :
  lookupValues query "sort" = Some values ->
  (Forall (fun v => registered (supportedParameters mq) (strings.Trim v "-"))
          values ->
   createSortFields mq query = Ok values)
  /\ (forall (before after : list string) v,
        values = (before ++ v :: after)%list ->
        Forall (fun v => registered (supportedParameters mq)
                                    (strings.Trim v "-")) before ->
        supportedParameters mq !! strings.Trim v "-" = None ->
        exists e, createSortFields mq query = Err e
                  /\ err_cause e = UnsupportedFieldValue v
                  /\ classify e = UnsupportedField)
  /\ (forall v, strings.Trim v "-" = strings.Trim (stripMarker v) "-").
Proof.
  intros Hsort. unfold createSortFields. rewrite Hsort. split; [| split].
  - intros Hall. rewrite (sortLoop_registered _ _ _ Hall). reflexivity.
  - intros before after v -> Hbefore Hv.
    rewrite (sortLoop_unregistered _ _ _ _ _ Hbefore Hv).
    eexists. split; [reflexivity |]. split; reflexivity.
  - apply Trim_stripMarker.
Qed.

(** *** Paging *)

Lemma digits_nonneg s : forall acc n,
  0 <= acc -> strconv.digits acc s = Some n -> 0 <= n.
Proof.
  induction s as [| c r IH]; intros acc n Hacc; simpl.
  - intros [= <-]. exact Hacc.
  - unfold strconv.digit.
    destruct (_ && _)%N eqn:Hc; [| discriminate].
    apply andb_true_iff in Hc as [Hlo _]. apply N.leb_le in Hlo.
    apply IH. lia.
Qed.

Lemma ParseUint_range v u :
  strconv.ParseUint v = Ok u -> 0 <= u <= maxUint.
Proof.
  unfold strconv.ParseUint. destruct v as [| c r]; [discriminate |].
  destruct (strconv.digits 0 _) as [n |] eqn:Hn; [| discriminate].
  destruct (Z.leb_spec n maxUint); [| discriminate].
  intros [= <-]. split; [| assumption].
  eapply digits_nonneg; [| exact Hn]. lia.
Qed.

Lemma getUintDefault_absent query param default :
  lookupValues query param = None ->
  getUintDefault query param default = Ok default.
Proof. unfold getUintDefault, getUint. intros ->. reflexivity. Qed.

Lemma getUintDefault_present query param default v rest :
  lookupValues query param = Some (v :: rest) ->
  getUintDefault query param default
  = match strconv.ParseUint v with
    | Ok u => Ok u
    | _ => Err (errors_New (InvalidValueFor v))
    end.
Proof.
  unfold getUintDefault, getUint. intros ->.
  destruct (strconv.ParseUint v); reflexivity.
Qed.

Lemma getUintDefault_Err query param default e :
  getUintDefault query param default = Err e -> classify e = InvalidValue.
Proof.
  unfold getUintDefault, getUint.
  destruct (lookupValues query param) as [[| v rest] |]; simpl;
    try discriminate.
  destruct (strconv.ParseUint v); simpl; intros [=]; subst; reflexivity.
Qed.

Lemma getUintDefault_range query param default u :
  0 <= default <= maxUint ->
  getUintDefault query param default = Ok u -> 0 <= u <= maxUint.
Proof.
  unfold getUintDefault, getUint. intros Hd.
  destruct (lookupValues query param) as [[| v rest] |]; simpl;
    try discriminate.
  - destruct (strconv.ParseUint v) as [n | |] eqn:Hv; simpl;
      intros [=]; subst. exact (ParseUint_range _ _ Hv).
  - intros [= <-]. exact Hd.
Qed.

Lemma intOfUint_small u : 0 <= u < 2 ^ 63 -> intOfUint u = u.
Proof.
  intros Hu. unfold intOfUint, uintSize.
  replace (64 - 1) with 63 by reflexivity.
  destruct (Z.ltb_spec u (2 ^ 63)); [reflexivity | lia].
Qed.

Lemma wrapUint_small z : 0 <= z < 2 ^ 64 -> wrapUint z = z.
Proof. intros Hz. unfold wrapUint, uintSize. apply Z.mod_small. exact Hz. Qed.

(** [CreateQuery] once the filter and the sort list are built. *)
Lemma CreateQuery_paged mq query filterMap sorted :
  createQueryFilter mq query = Ok filterMap ->
  createSortFields mq query = Ok sorted ->
  CreateQuery DefaultPageSize mq query
  = match getUintDefault query "limit" DefaultPageSize with
    | Ok size =>
        let mq1 := setPage mq (setSize (page mq) size) in
        match getUintDefault query "page" 1 with
        | Ok current =>
            let mq2 := setPage mq1 (setCurrent (page mq1) current) in
            if current =? 0 then
              (mq2, badRequest (Err (errors_New PageCannotBeZero)))
            else
              (mq2, Ok (mkQuery (structName (endPointStruct mq)) filterMap
                          (match createFieldsMap mq query with
                           | Ok fields => Some fields
                           | _ => None
                           end)
                          sorted (intOfUint size)
                          (intOfUint (wrapUint ((current - 1) * size)))))
        | Err e => (setPage mq1 (setCurrent (page mq1) 0), badRequest (Err e))
        | Panic msg => (mq1, Panic msg)
        end
    | Err e => (setPage mq (setSize (page mq) 0), badRequest (Err e))
    | Panic msg => (mq, Panic msg)
    end.
Proof.
  intros Hfilter Hsort. unfold CreateQuery. rewrite Hfilter, Hsort.
  reflexivity.
Qed.

(** C7, as the code has it. Once the filter and the sort list of a request
    are built: an absent [limit] gives the default page size and an absent
    [page] gives 1; a present one is read as a base-10 unsigned integer,
    and a value that is none makes [CreateQuery] fail with an InvalidValue
    error; a page of 0 makes it fail with an InvalidPage error; otherwise
    the query is built, and its skip is the product (current - 1) * size
    reduced modulo 2^64 and read as a signed integer, which is that
    product when it is below 2^63. *)
Theorem CreateQuery_paging mq query filterMap sorted :
  0 <= DefaultPageSize <= maxUint ->
  createQueryFilter mq query = Ok filterMap ->
  createSortFields mq query = Ok sorted ->
  (lookupValues query "limit" = None ->
   getUintDefault query "limit" DefaultPageSize = Ok DefaultPageSize)
  /\ (lookupValues query "page" = None ->
      getUintDefault query "page" 1 = Ok 1)
  /\ (forall param default v rest,
        lookupValues query param = Some (v :: rest) ->
        (forall u, strconv.ParseUint v = Ok u ->
                   getUintDefault query param default = Ok u)
        /\ (forall e, strconv.ParseUint v = Err e ->
              exists e', getUintDefault query param default = Err e'
                         /\ classify e' = InvalidValue))
  /\ (forall e, getUintDefault query "limit" DefaultPageSize = Err e ->
        exists e', snd (CreateQuery DefaultPageSize mq query) = Err e'
                   /\ classify e' = InvalidValue)
  /\ (forall size e,
        getUintDefault query "limit" DefaultPageSize = Ok size ->
        getUintDefault query "page" 1 = Err e ->
        exists e', snd (CreateQuery DefaultPageSize mq query) = Err e'
                   /\ classify e' = InvalidValue)
  /\ (forall size,
        getUintDefault query "limit" DefaultPageSize = Ok size ->
        getUintDefault query "page" 1 = Ok 0 ->
        exists e', snd (CreateQuery DefaultPageSize mq query) = Err e'
                   /\ classify e' = InvalidPage)
  /\ (forall size current,
        getUintDefault query "limit" DefaultPageSize = Ok size ->
        getUintDefault query "page" 1 = Ok current ->
        current <> 0 ->
        exists mq' q,
          CreateQuery DefaultPageSize mq query = (mq', Ok q)
          /\ Size (page mq') = size /\ Current (page mq') = current
          /\ limit q = intOfUint size
          /\ skip q = intOfUint (wrapUint ((current - 1) * size))
          /\ ((current - 1) * size < 2 ^ 63 ->
              skip q = (current - 1) * size)).
Proof.
  intros HD Hfilter Hsort.
  pose proof (CreateQuery_paged mq query filterMap sorted Hfilter Hsort)
    as Hcq.
  split; [apply getUintDefault_absent |].
  split; [apply getUintDefault_absent |].
  split.
  { intros param default v rest Hpresent. split.
    - intros u Hu. rewrite (getUintDefault_present _ _ _ _ _ Hpresent), Hu.
      reflexivity.
    - intros e He. rewrite (getUintDefault_present _ _ _ _ _ Hpresent), He.
      eexists. split; reflexivity. }
  split.
  { intros e He. rewrite Hcq, He. simpl.
    eexists. split; [reflexivity |].
    exact (getUintDefault_Err _ _ _ _ He). }
  split.
  { intros size e Hsize He. rewrite Hcq, Hsize, He. simpl.
    eexists. split; [reflexivity |].
    exact (getUintDefault_Err _ _ _ _ He). }
  split.
  { intros size Hsize Hzero. rewrite Hcq, Hsize, Hzero. simpl.
    eexists. split; reflexivity. }
  intros size current Hsize Hcurrent Hnz.
  rewrite Hcq, Hsize, Hcurrent. simpl.
  destruct (Z.eqb_spec current 0) as [-> | _]; [contradiction |].
  eexists _, _. split; [reflexivity |]. simpl.
  do 4 (split; [reflexivity |]).
  intros Hsmall.
  apply (getUintDefault_range _ _ _ _ HD) in Hsize.
  assert (0 <= 1 <= maxUint) as H1 by (unfold maxUint, uintSize; lia).
  apply (getUintDefault_range _ _ _ _ H1) in Hcurrent.
  assert (0 <= (current - 1) * size) by nia.
  rewrite wrapUint_small by lia. apply intOfUint_small. lia.
Qed.

(** C6, as the code has it. A request with [limit=0] is not refused: when
    its filter and its sort list are built and its page is absent or a
    base-10 unsigned integer other than 0, [CreateQuery] returns a query
    with limit 0 and skip 0 and leaves the page size 0 in the builder; the
    only paging value it refuses is [page=0]. *)
Theorem CreateQuery_limit_zero mq query filterMap sorted rest current :
  createQueryFilter mq query = Ok filterMap ->
  createSortFields mq query = Ok sorted ->
  lookupValues query "limit" = Some ("0" :: rest) ->
  getUintDefault query "page" 1 = Ok current ->
  current <> 0 ->
  exists mq' q,
    CreateQuery DefaultPageSize mq query = (mq', Ok q)
    /\ Size (page mq') = 0 /\ limit q = 0 /\ skip q = 0.
Proof.
  intros Hfilter Hsort Hlimit Hcurrent Hnz.
  rewrite (CreateQuery_paged mq query filterMap sorted Hfilter Hsort).
  rewrite (getUintDefault_present _ _ _ _ _ Hlimit).
  change (strconv.ParseUint "0") with (@Ok Z 0).
  cbv beta iota zeta. rewrite Hcurrent.
  destruct (Z.eqb_spec current 0) as [-> | _]; [contradiction |].
  eexists _, _. split; [reflexivity |].
  unfold limit, skip, page, setPage, setCurrent, setSize, Size.
  rewrite Z.mul_0_r. repeat split; reflexivity.
Qed.

(** *** The registry *)

Lemma copyInto_union (src dst : gmap string Kind) :
  copyInto src dst = src ∪ dst.
Proof.
  unfold copyInto.
  apply (map_fold_weak_ind (fun r m => r = m ∪ dst)).
  - symmetry. apply (left_id_L ∅ (∪)).
  - intros i x m r _ ->. apply insert_union_l.
Qed.

Lemma contains_elem_of list value :
  contains list value = true <-> value ∈ list.
Proof.
  induction list as [| v rest IH]; simpl.
  - split; [discriminate | intros Hin; inversion Hin].
  - destruct (String.eqb_spec v value) as [-> | Hne].
    + split; [intros _; left | reflexivity].
    + rewrite IH. split; [by right |].
      intros [? | ?]%elem_of_cons; [congruence | assumption].
Qed.

Lemma contains_false list value :
  contains list value = false <-> value ∉ list.
Proof.
  rewrite <- contains_elem_of. destruct (contains list value); split;
    congruence.
Qed.

(** The loop over the meta-parameters adds no disabled name. *)
Lemma addMetaParameters_disabled disabled m name :
  name ∈ disabled ->
  addMetaParameters disabled m !! name = m !! name.
Proof.
  intros Hin. unfold addMetaParameters.
  apply (map_fold_weak_ind (fun r _ => r !! name = m !! name)).
  - reflexivity.
  - intros i x _ r _ Hr.
    destruct (contains disabled i) eqn:Hc; simpl; [exact Hr |].
    rewrite lookup_insert_ne; [exact Hr |].
    intros ->. apply contains_false in Hc. contradiction.
Qed.

Lemma structFieldsLoop_disabled disabled nested name fields :
  name ∈ disabled ->
  Forall (fun field => forall m, m ∈ nested (Type_ field) -> m !! name = None)
         fields ->
  forall acc m,
    acc !! name = None ->
    m ∈ structFieldsLoop disabled nested fields acc ->
    m !! name = None.
Proof.
  intros Hin. induction 1 as [| field rest Hfield _ IH]; intros acc m Hacc.
  - simpl. intros ->%list_elem_of_singleton. exact Hacc.
  - simpl. intros (tagName & Hm & _)%list_elem_of_bind.
    set (fieldName := if len tagName =? 0 then strings.ToLower (Name field)
                      else tagName) in Hm.
    assert (Hins : forall kind,
               contains disabled fieldName = false ->
               (<[fieldName := kind]> acc) !! name = None).
    { intros kind Hc. rewrite lookup_insert_ne; [exact Hacc |].
      intros Heq. apply contains_false in Hc. congruence. }
    destruct (Type_ field) as [k | elem | elem | sname sfields] eqn:Hty.
    1-3: destruct (contains disabled fieldName) eqn:Hc; simpl in Hm;
      [ exact (IH _ _ Hacc Hm) | exact (IH _ _ (Hins _ eq_refl) Hm) ].
    apply list_elem_of_bind in Hm as (nestedMap & Hm & Hnested).
    refine (IH _ _ _ Hm).
    rewrite copyInto_union. apply lookup_union_None. split; [| exact Hacc].
    apply Hfield. exact Hnested.
Qed.

(** No map the introspection returns has a disabled name. *)
Lemma createValidParametersMap_disabled disabled name :
  name ∈ disabled ->
  forall t m, m ∈ createValidParametersMap t disabled -> m !! name = None.
Proof.
  intros Hin.
  assert (Hstruct : forall sname fields,
             Forall (fun field => forall m,
                         m ∈ createValidParametersMap (Type_ field) disabled ->
                         m !! name = None) fields ->
             forall m, m ∈ createValidParametersMap (StructOf sname fields)
                                                    disabled ->
                       m !! name = None).
  { intros sname fields Hfields m. simpl.
    intros (valid & ->%list_elem_of_singleton & Hvalid)%list_elem_of_bind.
    rewrite (addMetaParameters_disabled _ _ _ Hin).
    eapply (structFieldsLoop_disabled disabled _ name fields Hin);
      [| | exact Hvalid].
    - exact Hfields.
    - apply lookup_empty. }
  induction t as [k | elem IH | elem IH | sname fields IH]
    using GoType_fields_ind; intros m.
  - simpl. intros Hm. inversion Hm.
  - destruct elem as [k | e | e | sname fields]; simpl;
      try (intros Hm; inversion Hm; fail).
    apply IH.
  - simpl. intros Hm. inversion Hm.
  - apply Hstruct, IH.
Qed.

Lemma appendNew_elem_of paramters : forall disabled x,
  x ∈ appendNew disabled paramters <-> x ∈ disabled \/ x ∈ paramters.
Proof.
  induction paramters as [| p rest IH]; intros disabled x; simpl.
  - split; [by left | intros [? | Hx]; [assumption | inversion Hx]].
  - destruct (contains disabled p) eqn:Hc; simpl; rewrite IH.
    + apply contains_elem_of in Hc. rewrite elem_of_cons.
      split; [tauto |]. intros [? | [-> | ?]]; tauto.
    + rewrite elem_of_app, list_elem_of_singleton, elem_of_cons. tauto.
Qed.

Lemma appendNew_known paramters : forall disabled,
  (forall p, p ∈ paramters -> p ∈ disabled) ->
  appendNew disabled paramters = disabled.
Proof.
  induction paramters as [| p rest IH]; intros disabled Hall; simpl.
  - reflexivity.
  - assert (Hp : contains disabled p = true).
    { apply contains_elem_of, Hall. left. }
    rewrite Hp. simpl. apply IH. intros q Hq. apply Hall. by right.
Qed.

Lemma appendNew_twice disabled paramters :
  appendNew (appendNew disabled paramters) paramters
  = appendNew disabled paramters.
Proof.
  apply appendNew_known. intros p Hp. apply appendNew_elem_of. by right.
Qed.

(** What [DisableParameters] can leave. *)
Lemma DisableParameters_elem_of paramters mq mq' :
  mq' ∈ DisableParameters paramters mq <->
  exists introspected,
    introspected ∈ createValidParametersMap
                     (endPointStruct mq)
                     (appendNew (disabledParameters mq) paramters)
    /\ mq' = mkMongoQuery (endPointStruct mq)
               (additionalSupportedParamters mq ∪ introspected)
               (additionalSupportedParamters mq)
               (appendNew (disabledParameters mq) paramters) (page mq).
Proof.
  unfold DisableParameters. rewrite list_elem_of_bind.
  split; intros (m & Hm1 & Hm2).
  - apply list_elem_of_singleton in Hm1. rewrite copyInto_union in Hm1.
    eauto.
  - exists m. split; [| exact Hm1].
    apply list_elem_of_singleton. rewrite copyInto_union. exact Hm2.
Qed.

Lemma DisableParameters_again paramters mq mq' :
  mq' ∈ DisableParameters paramters mq ->
  DisableParameters paramters mq' = DisableParameters paramters mq.
Proof.
  intros (m & _ & ->)%DisableParameters_elem_of.
  unfold DisableParameters. simpl. rewrite appendNew_twice. reflexivity.
Qed.

Lemma AddOrOverwriteValidParameter_again name value mq :
  AddOrOverwriteValidParameter name value
    (AddOrOverwriteValidParameter name value mq)
  = AddOrOverwriteValidParameter name value mq.
Proof.
  unfold AddOrOverwriteValidParameter. simpl.
  rewrite insert_insert_eq, !copyInto_union.
  f_equal. rewrite (assoc_L (∪)). f_equal. apply (idemp_L (∪)).
Qed.

Lemma registryInv_new endPoint mq :
  mq ∈ NewMongoQuery endPoint -> registryInv mq.
Proof.
  unfold NewMongoQuery.
  intros (m & ->%list_elem_of_singleton & Hm)%list_elem_of_bind.
  exists m. simpl. split; [exact Hm |]. symmetry. apply (left_id_L ∅ (∪)).
Qed.

Lemma registryInv_call call mq mq' :
  registryInv mq -> mq' ∈ callOn call mq -> registryInv mq'.
Proof.
  intros (m & Hm & Hsupported). destruct call as [paramters | name value];
    simpl.
  - intros (m' & Hm' & ->)%DisableParameters_elem_of.
    exists m'. simpl. split; [exact Hm' | reflexivity].
  - intros ->%list_elem_of_singleton.
    exists m. simpl. split; [exact Hm |].
    rewrite copyInto_union, Hsupported, (assoc_L (∪)). f_equal.
    apply map_eq. intros i. rewrite lookup_union.
    destruct (decide (name = i)) as [-> | Hne].
    + rewrite lookup_insert_eq.
      destruct (additionalSupportedParamters mq !! i); reflexivity.
    + rewrite lookup_insert_ne by exact Hne.
      destruct (additionalSupportedParamters mq !! i); reflexivity.
Qed.

(** What a sequence of calls keeps and what it accumulates. *)
Lemma callsOn_state calls : forall mq mq',
  registryInv mq ->
  mq' ∈ callsOn calls mq ->
  registryInv mq'
  /\ endPointStruct mq' = endPointStruct mq
  /\ additionalSupportedParamters mq'
     = recorded calls (additionalSupportedParamters mq)
  /\ (forall x, x ∈ disabledParameters mq -> x ∈ disabledParameters mq')
  /\ (forall paramters x,
        Disable paramters ∈ calls -> x ∈ paramters ->
        x ∈ disabledParameters mq').
Proof.
  induction calls as [| call rest IH]; intros mq mq' Hinv; simpl.
  - intros ->%list_elem_of_singleton.
    repeat split; auto. intros ? ? Hin. inversion Hin.
  - intros (mq1 & Hrest & Hcall)%list_elem_of_bind.
    pose proof (registryInv_call _ _ _ Hinv Hcall) as Hinv1.
    destruct (IH _ _ Hinv1 Hrest) as (Hinv' & Hend & Hadd & Hkeep & Hdis).
    destruct call as [paramters | name value]; simpl in Hcall.
    + apply DisableParameters_elem_of in Hcall as (m & _ & ->).
      simpl in *. repeat split; auto.
      * intros x Hx. apply Hkeep, appendNew_elem_of. by left.
      * intros ps x [[= <-] | Hin]%elem_of_cons Hx.
        -- apply Hkeep, appendNew_elem_of. by right.
        -- eapply Hdis; eassumption.
    + apply list_elem_of_singleton in Hcall as ->.
      simpl in *. repeat split; auto.
      intros ps x [[=] | Hin]%elem_of_cons Hx. eapply Hdis; eassumption.
Qed.

Lemma recorded_app (before after : list registryCall) table :
  recorded (before ++ after)%list table
  = recorded after (recorded before table).
Proof.
  revert table. induction before as [| [ps | n k] rest IH]; intros table;
    simpl; auto.
Qed.

Lemma recorded_untouched calls name : forall table,
  (forall value, AddOrOverwrite name value ∉ calls) ->
  recorded calls table !! name = table !! name.
Proof.
  induction calls as [| [ps | n k] rest IH]; intros table Hnone; simpl.
  - reflexivity.
  - apply IH. intros value Hin. apply (Hnone value). by right.
  - rewrite IH.
    + apply lookup_insert_ne. intros ->. apply (Hnone k). left.
    + intros value Hin. apply (Hnone value). by right.
Qed.

(** C8, as the code has it. After any sequence of [DisableParameters] and
    [AddOrOverwriteValidParameter] calls on a new builder: a pair recorded
    by [AddOrOverwriteValidParameter] is in the override table and in the
    registry, whatever was disabled before or after it, until the same name
    is recorded again (the later kind then replaces it); every entry of
    the override table is in the registry; every name ever given to
    [DisableParameters] is disabled, and a disabled name that the override
    table does not hold is not in the registry. Both calls are idempotent:
    a second [AddOrOverwriteValidParameter] with the same arguments
    changes nothing, and a second [DisableParameters] with the same names
    can leave exactly the builders the first one can, hence the very same
    builder when the introspection has one result. *)
Theorem registry_after_calls endPoint calls mq0 mq :
  mq0 ∈ NewMongoQuery endPoint ->
  mq ∈ callsOn calls mq0 ->
  (forall (before after : list registryCall) name kind,
      calls = (before ++ AddOrOverwrite name kind :: after)%list ->
      (forall kind', AddOrOverwrite name kind' ∉ after) ->
      additionalSupportedParamters mq !! name = Some kind
      /\ supportedParameters mq !! name = Some kind)
  /\ (forall name,
        (forall kind, AddOrOverwrite name kind ∉ calls) ->
        additionalSupportedParamters mq !! name = None)
  /\ (forall name kind,
        additionalSupportedParamters mq !! name = Some kind ->
        supportedParameters mq !! name = Some kind)
  /\ (forall paramters name,
        Disable paramters ∈ calls -> name ∈ paramters ->
        name ∈ disabledParameters mq)
  /\ (forall name,
        name ∈ disabledParameters mq ->
        additionalSupportedParamters mq !! name = None ->
        supportedParameters mq !! name = None)
  /\ (forall name kind,
        AddOrOverwriteValidParameter name kind
          (AddOrOverwriteValidParameter name kind mq)
        = AddOrOverwriteValidParameter name kind mq)
  /\ (forall paramters mq',
        mq' ∈ DisableParameters paramters mq ->
        DisableParameters paramters mq' = DisableParameters paramters mq)
  /\ (forall paramters mq',
        DisableParameters paramters mq = [mq'] ->
        DisableParameters paramters mq' = [mq']).
Proof.
  intros Hnew Hcalls.
  pose proof (registryInv_new _ _ Hnew) as Hinv0.
  assert (Hempty : additionalSupportedParamters mq0 = ∅).
  { unfold NewMongoQuery in Hnew.
    apply list_elem_of_bind in Hnew as (m & ->%list_elem_of_singleton & _).
    reflexivity. }
  destruct (callsOn_state _ _ _ Hinv0 Hcalls)
    as ((m & Hm & Hsupported) & _ & Hadd & _ & Hdis).
  rewrite Hempty in Hadd.
  assert (Hover : forall name kind,
             additionalSupportedParamters mq !! name = Some kind ->
             supportedParameters mq !! name = Some kind).
  { intros name kind Hk. rewrite Hsupported.
    apply lookup_union_Some_l. exact Hk. }
  split.
  { intros before after name kind -> Hlast.
    assert (Hk : additionalSupportedParamters mq !! name = Some kind).
    { rewrite Hadd, recorded_app. simpl.
      rewrite (recorded_untouched _ _ _ Hlast). apply lookup_insert_eq. }
    split; [exact Hk | exact (Hover _ _ Hk)]. }
  split.
  { intros name Hnever. rewrite Hadd.
    rewrite (recorded_untouched _ _ _ Hnever). apply lookup_empty. }
  split; [exact Hover |].
  split; [exact Hdis |].
  split.
  { intros name Hdisabled Hnone. rewrite Hsupported.
    apply lookup_union_None. split; [exact Hnone |].
    exact (createValidParametersMap_disabled _ _ Hdisabled _ _ Hm). }
  split; [intros; apply AddOrOverwriteValidParameter_again |].
  split; [intros ? ?; apply DisableParameters_again |].
  intros paramters mq' Hone.
  rewrite <- Hone. apply DisableParameters_again.
  rewrite Hone. apply list_elem_of_singleton. reflexivity.
Qed.

(** *** Names from tags *)

Lemma Get_bsonTag_x :
  StructTag.Get (bsonTag "x") "bson"
  = match Unquote (quoted "x") with Some v => v | None => EmptyString end.
Proof. vm_compute. reflexivity. Qed.

Lemma Get_bsonTag_first_second :
  StructTag.Get (bsonTag "first,second") "bson"
  = match Unquote (quoted "first,second") with
    | Some v => v
    | None => EmptyString
    end.
Proof. vm_compute. reflexivity. Qed.

(** When one token remains, it is the name: the order of the set plays no
    part. *)
Lemma firstOfDiff_single text token otherwise :
  mapset.Difference (newSetFromSlice (strings.SplitByte text ","))
                    (newSetFromSlice mongoTags) = {[ token ]} ->
  firstOfDiff text otherwise = [token].
Proof.
  intros Hdiff. unfold firstOfDiff, mapset.ToSlice. rewrite Hdiff.
  rewrite elements_singleton. reflexivity.
Qed.

Lemma getFieldNameFromTag_single tag token :
  1 < len (StructTag.Get tag "bson") ->
  mapset.Difference
    (newSetFromSlice (strings.SplitByte (StructTag.Get tag "bson") ","))
    (newSetFromSlice mongoTags) = {[ token ]} ->
  getFieldNameFromTag tag = [token].
Proof.
  intros Hlen Hdiff. unfold getFieldNameFromTag.
  rewrite (proj2 (Z.ltb_lt _ _) Hlen). apply firstOfDiff_single, Hdiff.
Qed.


(** C9 (the code departs from it). With [strconv.Unquote] doing its work
    on the two tag values: for the tag [bson:"x"] the first token that
    remains is [x], and [getFieldNameFromTag] returns the empty string,
    so that the field is registered under its lower-cased name; for the
    tag [bson:"first,second"] it can return [first] and it can return
    [second], and [createValidParametersMap] has two different results
    on the same struct and the same disabled names. *)
Theorem createValidParametersMap_not_first_token :
  Unquote (quoted "x") = Some "x" ->
  Unquote (quoted "first,second") = Some "first,second" ->
  getFieldNameFromTag (bsonTag "x") = [EmptyString]
  /\ (forall m, m ∈ createValidParametersMap Point [] ->
                m !! "x" = None /\ m !! "xcoord" = Some Int)
  /\ "first" ∈ getFieldNameFromTag (bsonTag "first,second")
  /\ "second" ∈ getFieldNameFromTag (bsonTag "first,second")
  /\ (exists m1 m2,
        m1 ∈ createValidParametersMap Tagged []
        /\ m2 ∈ createValidParametersMap Tagged []
        /\ m1 !! "first" = Some String /\ m1 !! "second" = None
        /\ m2 !! "first" = None /\ m2 !! "second" = Some String).
Proof.
  intros Hx Hfs.
  assert (Hname_x : getFieldNameFromTag (bsonTag "x") = [EmptyString]).
  { unfold getFieldNameFromTag. rewrite Get_bsonTag_x, Hx.
    vm_compute. reflexivity. }
  assert (Hname_fs : getFieldNameFromTag (bsonTag "first,second")
                     = ["second"; "first"; "second"; "first"]).
  { unfold getFieldNameFromTag. rewrite Get_bsonTag_first_second, Hfs.
    vm_compute. reflexivity. }
  split; [exact Hname_x |]. split; [| split; [| split]].
  - intros m. unfold Point. simpl. rewrite Hname_x. simpl.
    intros Hm. apply list_elem_of_singleton in Hm as ->.
    split; vm_compute; reflexivity.
  - rewrite Hname_fs. apply list_elem_of_further, list_elem_of_here.
  - rewrite Hname_fs. apply list_elem_of_here.
  - unfold Tagged. simpl. rewrite Hname_fs. simpl.
    eexists _, _. split; [apply list_elem_of_further, list_elem_of_here |].
    split; [apply list_elem_of_here |].
    repeat split; vm_compute; reflexivity.
Qed.

(** *** The last page: binary64 arithmetic *)

Lemma digits2_bounds p :
  2 ^ (Zpos (digits2_pos p) - 1) <= Zpos p < 2 ^ Zpos (digits2_pos p).
Proof.
  induction p as [p IH | p IH |]; simpl digits2_pos.
  - rewrite Pos2Z.inj_succ.
    replace (Z.succ (Zpos (digits2_pos p)) - 1) with (Zpos (digits2_pos p)) by lia.
    rewrite Z.pow_succ_r by lia.
    assert (Hp : 2 ^ Zpos (digits2_pos p) = 2 * 2 ^ (Zpos (digits2_pos p) - 1)).
    { rewrite <- Z.pow_succ_r by lia. f_equal. lia. }
    lia.
  - rewrite Pos2Z.inj_succ.
    replace (Z.succ (Zpos (digits2_pos p)) - 1) with (Zpos (digits2_pos p)) by lia.
    rewrite Z.pow_succ_r by lia.
    assert (Hp : 2 ^ Zpos (digits2_pos p) = 2 * 2 ^ (Zpos (digits2_pos p) - 1)).
    { rewrite <- Z.pow_succ_r by lia. f_equal. lia. }
    lia.
  - simpl. lia.
Qed.

Lemma digits2_unique p d :
  2 ^ (d - 1) <= Zpos p < 2 ^ d -> Zpos (digits2_pos p) = d.
Proof.
  intros [Hlo Hhi]. pose proof (digits2_bounds p) as [Hlo' Hhi'].
  set (D := Zpos (digits2_pos p)) in *.
  assert (0 < d).
  { destruct (Z.ltb_spec 0 d); [assumption |].
    exfalso. destruct (Z.eq_dec d 0) as [-> | ?].
    - simpl in Hhi. lia.
    - rewrite (Z.pow_neg_r 2 d) in Hhi by lia. lia. }
  destruct (Z.lt_trichotomy D d) as [Hlt | [Heq | Hgt]]; [| exact Heq |].
  - exfalso. assert (2 ^ D <= 2 ^ (d - 1)) by (apply Z.pow_le_mono_r; lia). lia.
  - exfalso. assert (2 ^ d <= 2 ^ (D - 1)) by (apply Z.pow_le_mono_r; lia). lia.
Qed.

Lemma iter_xO p k : Zpos (Pos.iter xO p k) = Zpos p * 2 ^ Zpos k.
Proof.
  revert p. induction k as [| k IH] using Pos.peano_ind; intros p.
  - simpl. lia.
  - rewrite Pos.iter_succ, Pos2Z.inj_succ, Z.pow_succ_r by lia.
    rewrite Pos2Z.inj_xO, IH. lia.
Qed.

Lemma loc_of_record m l : loc_of_shr_record (shr_record_of_loc m l) = l.
Proof. destruct l as [| []]; reflexivity. Qed.

Lemma shr_m_record m l : shr_m (shr_record_of_loc m l) = m.
Proof. destruct l as [| []]; reflexivity. Qed.

Lemma fexp64 e : -1021 <= e -> fexp prec64 emax64 e = e - 53.
Proof. intros. unfold fexp, emin, prec64, emax64. lia. Qed.

(* no shift for 53 digits *)
Lemma shr_fexp_53 p e l :
  Zpos (digits2_pos p) = 53 -> -1074 <= e ->
  shr_fexp prec64 emax64 (Zpos p) e l = (shr_record_of_loc (Zpos p) l, e).
Proof.
  intros Hd He. unfold shr_fexp. simpl Zdigits2. rewrite Hd.
  rewrite fexp64 by lia. replace (53 + e - 53 - e) with 0 by lia. reflexivity.
Qed.

Lemma shr_fexp_54 p e l :
  Zpos (digits2_pos p) = 54 -> -1075 <= e ->
  shr_fexp prec64 emax64 (Zpos p) e l = (shr_1 (shr_record_of_loc (Zpos p) l), e + 1).
Proof.
  intros Hd He. unfold shr_fexp. simpl Zdigits2. rewrite Hd.
  rewrite fexp64 by lia. replace (54 + e - 53 - e) with 1 by lia. reflexivity.
Qed.

Lemma binary_round_aux_unfold m e l :
  binary_round_aux prec64 emax64 false m e l
  = let '(mrs, e') := shr_fexp prec64 emax64 m e l in
    finishing (round_nearest_even (shr_m mrs) (loc_of_shr_record mrs)) e'.
Proof.
  unfold binary_round_aux, finishing.
  destruct (shr_fexp prec64 emax64 m e l). reflexivity.
Qed.

Lemma binary_round_aux_53 p e l :
  Zpos (digits2_pos p) = 53 -> -1074 <= e ->
  binary_round_aux prec64 emax64 false (Zpos p) e l
  = finishing (round_nearest_even (Zpos p) l) e.
Proof.
  intros Hd He. unfold binary_round_aux, finishing.
  rewrite (shr_fexp_53 p e l Hd He), shr_m_record, loc_of_record.
  reflexivity.
Qed.

Lemma binary_round_aux_54 p e l :
  Zpos (digits2_pos p) = 54 -> -1075 <= e ->
  binary_round_aux prec64 emax64 false (Zpos p) e l
  = finishing (round_nearest_even
                 (shr_m (shr_1 (shr_record_of_loc (Zpos p) l)))
                 (loc_of_shr_record (shr_1 (shr_record_of_loc (Zpos p) l))))
              (e + 1).
Proof.
  intros Hd He. unfold binary_round_aux, finishing.
  rewrite (shr_fexp_54 p e l Hd He). reflexivity.
Qed.

Lemma ceilValue_shift E :
  ceilValue (2 ^ 52) (E + 1) = ceilValue (2 ^ 53) E.
Proof.
  unfold ceilValue.
  destruct (Z.leb_spec 0 E) as [HE | HE].
  - rewrite (proj2 (Z.leb_le 0 (E + 1))) by lia.
    rewrite Z.pow_add_r by lia. change (2 ^ 53) with (2 ^ 52 * 2 ^ 1). lia.
  - destruct (Z.leb_spec 0 (E + 1)) as [HE1 | HE1].
    + assert (E = -1) as -> by lia. reflexivity.
    + f_equal.
      replace (- E) with (- (E + 1) + 1) by lia.
      rewrite Z.pow_add_r by lia.
      change (- 2 ^ 53) with ((- 2 ^ 52) * 2 ^ 1).
      rewrite Z.div_mul_cancel_r; [reflexivity | | discriminate].
      apply Z.pow_nonzero; lia.
Qed.

Lemma finishing_spec M1 E1 :
  2 ^ 52 <= M1 <= 2 ^ 53 -> -1074 <= E1 <= 970 ->
  exists M2 E2,
    finishing M1 E1 = S754_finite false M2 E2
    /\ ceilValue (Zpos M2) E2 = ceilValue M1 E1
    /\ Zpos (digits2_pos M2) = 53
    /\ E1 <= E2 <= E1 + 1.
Proof.
  intros HM HE.
  destruct M1 as [| p |]; try (exfalso; lia).
  destruct (Z.eq_dec (Zpos p) (2 ^ 53)) as [Heq | Hne].
  - injection Heq as ->. unfold finishing.
    rewrite shr_fexp_54 by (try reflexivity; lia).
    simpl shr_m.
    destruct (Z.leb_spec (E1 + 1) (emax64 - prec64)) as [_ | Hbad];
      [| unfold emax64, prec64 in Hbad; lia].
    eexists _, _. split; [reflexivity |].
    split; [apply ceilValue_shift |]. split; [reflexivity | lia].
  - assert (Hd : Zpos (digits2_pos p) = 53).
    { apply digits2_unique. change (53 - 1) with 52. lia. }
    unfold finishing. rewrite shr_fexp_53 by (try assumption; lia).
    simpl shr_m.
    destruct (Z.leb_spec E1 (emax64 - prec64)) as [_ | Hbad];
      [| unfold emax64, prec64 in Hbad; lia].
    eexists _, _. split; [reflexivity |].
    split; [reflexivity |]. split; [assumption | lia].
Qed.

Lemma round_keep q l :
  q <= round_nearest_even q l <= q + 1
  /\ (l = loc_Exact -> round_nearest_even q l = q).
Proof.
  destruct l as [| []]; simpl; try destruct (Z.even q); split; try lia;
    try discriminate; reflexivity.
Qed.

Lemma round_halved p l :
  let mrs := shr_1 (shr_record_of_loc (Zpos p) l) in
  let M1 := round_nearest_even (shr_m mrs) (loc_of_shr_record mrs) in
  Zpos p / 2 <= M1 <= Zpos p / 2 + 1
  /\ (Z.even (Zpos p) = true -> M1 = Zpos p / 2)
  /\ (Z.even (Zpos p) = false -> l <> loc_Exact -> M1 = Zpos p / 2 + 1).
Proof.
  destruct p as [p | p |].
  - assert (Hh : Zpos p~1 / 2 = Zpos p).
    { symmetry. apply (Z.div_unique_pos _ 2 _ 1); lia. }
    rewrite Hh.
    destruct l as [| []];
      cbv [shr_record_of_loc shr_1 shr_m loc_of_shr_record
           round_nearest_even orb];
      try destruct (Z.even (Zpos p));
      repeat split; intros; try discriminate; try congruence; try lia.
  - assert (Hh : Zpos p~0 / 2 = Zpos p).
    { symmetry. apply (Z.div_unique_pos _ 2 _ 0); lia. }
    rewrite Hh.
    destruct l as [| []];
      cbv [shr_record_of_loc shr_1 shr_m loc_of_shr_record
           round_nearest_even orb];
      repeat split; intros; try discriminate; try congruence; try lia.
  - destruct l as [| []]; simpl;
      repeat split; intros; try discriminate; try congruence; try lia.
Qed.

Lemma new_location_zero m r :
  (r = 0 -> new_location m r = loc_Exact)
  /\ (r <> 0 -> new_location m r <> loc_Exact).
Proof.
  unfold new_location, new_location_even, new_location_odd.
  destruct (Z.even m); destruct (Z.eqb_spec r 0) as [Hr | Hr]; split;
    intros Hcase; try reflexivity; try contradiction; discriminate.
Qed.

Lemma finishing_53 p e :
  Zpos (digits2_pos p) = 53 -> -1074 <= e <= 971 ->
  finishing (Zpos p) e = S754_finite false p e.
Proof.
  intros Hd He. unfold finishing. rewrite shr_fexp_53 by (try assumption; lia).
  simpl shr_m.
  destruct (Z.leb_spec e (emax64 - prec64)) as [_ | Hbad];
    [reflexivity | unfold emax64, prec64 in Hbad; lia].
Qed.

(** A positive integer below 2^53 is a binary64 number: its conversion is exact. *)
Lemma float64OfUint_exact p :
  Zpos p < 2 ^ 53 ->
  exists m e,
    float64OfUint (Zpos p) = S754_finite false m e
    /\ Zpos (digits2_pos m) = 53
    /\ e = Zpos (digits2_pos p) - 53
    /\ -52 <= e <= 0
    /\ Zpos m = Zpos p * 2 ^ (- e).
Proof.
  intros Hp. pose proof (digits2_bounds p) as [Hlo Hhi].
  set (d := Zpos (digits2_pos p)) in *.
  assert (Hd : 1 <= d <= 53).
  { split; [unfold d; lia |].
    destruct (Z.leb_spec d 53); [assumption |]. exfalso.
    assert (2 ^ 53 <= 2 ^ (d - 1)) by (apply Z.pow_le_mono_r; lia). lia. }
  unfold float64OfUint, binary_normalize, binary_round, shl_align.
  fold d. rewrite Z.add_0_r, fexp64 by lia. rewrite Z.sub_0_r.
  destruct (d - 53) as [| k | k] eqn:Hk; try lia.
  - rewrite binary_round_aux_53 by (try lia; fold d; lia).
    simpl round_nearest_even.
    rewrite finishing_53 by (try lia; fold d; lia).
    exists p, 0. repeat split; lia.
  - assert (Hm : Zpos (Pos.iter xO p k) = Zpos p * 2 ^ Zpos k) by apply iter_xO.
    assert (Hpow : 2 ^ 52 = 2 ^ (d - 1) * 2 ^ Zpos k).
    { rewrite <- Z.pow_add_r by lia. f_equal. lia. }
    assert (Hpow' : 2 ^ 53 = 2 ^ d * 2 ^ Zpos k).
    { rewrite <- Z.pow_add_r by lia. f_equal. lia. }
    assert (Hk0 : 0 < 2 ^ Zpos k) by (apply Z.pow_pos_nonneg; lia).
    assert (Hdm : Zpos (digits2_pos (Pos.iter xO p k)) = 53).
    { apply digits2_unique. change (53 - 1) with 52. rewrite Hm. nia. }
    rewrite binary_round_aux_53 by (try assumption; lia).
    simpl round_nearest_even.
    rewrite finishing_53 by (try assumption; lia).
    exists (Pos.iter xO p k), (Zneg k). repeat split; try lia.
    rewrite Hm. reflexivity.
Qed.

Lemma truncate_float64OfUint u :
  0 <= u < 2 ^ 53 -> truncate (float64OfUint u) = Some u.
Proof.
  intros Hu. destruct u as [| p |]; try lia; [reflexivity |].
  destruct (float64OfUint_exact p) as (m & e & -> & _ & _ & He & Hm); [lia |].
  simpl. f_equal.
  rewrite <- (Z.opp_involutive e), Z.shiftl_opp_r, Z.shiftr_div_pow2 by lia.
  rewrite Hm. apply Z.div_mul. apply Z.pow_nonzero; lia.
Qed.

Lemma ceilValue_unique M E n :
  E <= 0 -> (n - 1) * 2 ^ (- E) < M <= n * 2 ^ (- E) -> ceilValue M E = n.
Proof.
  intros HE HM. unfold ceilValue.
  destruct (Z.leb_spec 0 E) as [H0 | H0].
  - assert (E = 0) as -> by lia. simpl in *. lia.
  - set (U := 2 ^ (- E)) in *.
    assert (HU : 0 < U) by (apply Z.pow_pos_nonneg; lia).
    assert (Hq : - M / U = - n).
    { symmetry. apply (Z.div_unique_pos _ _ _ (n * U - M)); lia. }
    rewrite Hq. lia.
Qed.

(** The quotient of the mantissas, in units of W, against the ceiling n of
    a / b. *)
Lemma quotient_bracket a b n C W mb q r :
  0 < a -> 0 < b -> (n - 1) * b < a <= n * b ->
  0 < mb -> mb < C -> W * mb = b * C ->
  a * C = mb * q + r -> 0 <= r < mb ->
  (n - 1) * W + 1 <= q <= n * W
  /\ (q = n * W -> r = 0)
  /\ (q = (n - 1) * W + 1 -> 0 < r).
Proof.
  intros Ha Hb [Hlo Hhi] Hmb HC HW Hdiv Hr.
  assert (HC0 : 0 < C) by lia.
  assert (HaC : a * C <= n * W * mb).
  { replace (n * W * mb) with (n * b * C) by (rewrite <- !Z.mul_assoc, HW; ring).
    apply Z.mul_le_mono_nonneg_r; lia. }
  assert (HaC' : (n - 1) * W * mb + C <= a * C).
  { replace ((n - 1) * W * mb) with ((n - 1) * b * C)
      by (rewrite <- !Z.mul_assoc, HW; ring).
    replace ((n - 1) * b * C + C) with (((n - 1) * b + 1) * C) by ring.
    apply Z.mul_le_mono_nonneg_r; lia. }
  assert (Hq1 : q <= n * W).
  { apply (Z.mul_le_mono_pos_l _ _ mb Hmb). lia. }
  assert (Hq2 : (n - 1) * W + 1 <= q).
  { apply Z.lt_succ_r. unfold Z.succ.
    apply (Z.mul_lt_mono_pos_l mb _ _ Hmb). lia. }
  repeat split; try assumption.
  - intros ->. lia.
  - intros ->. lia.
Qed.

Lemma SFdiv_core_binary_53 ma ea mb eb :
  Zpos (digits2_pos ma) = 53 -> Zpos (digits2_pos mb) = 53 ->
  -52 <= ea <= 12 -> -52 <= eb <= 12 ->
  SFdiv_core_binary prec64 emax64 (Zpos ma) ea (Zpos mb) eb
  = ((Zpos ma * 2 ^ 53) / Zpos mb, ea - eb - 53,
     new_location (Zpos mb) ((Zpos ma * 2 ^ 53) mod Zpos mb)).
Proof.
  intros Hda Hdb Hea Heb. unfold SFdiv_core_binary. simpl Zdigits2.
  rewrite Hda, Hdb. rewrite fexp64 by lia. rewrite Z.min_l by lia.
  replace (ea - eb - (53 + ea - (53 + eb) - 53)) with 53 by lia.
  rewrite Z.shiftl_mul_pow2 by lia.
  unfold Z.div, Z.modulo.
  destruct (Z.div_eucl (Zpos ma * 2 ^ 53) (Zpos mb)) as [q r].
  f_equal. f_equal. lia.
Qed.

Lemma SFdiv_ceiling pa pb n :
  Zpos pa < 2 ^ 53 -> Zpos pb < 2 ^ 53 ->
  (n - 1) * Zpos pb < Zpos pa <= n * Zpos pb ->
  exists M E,
    SFdiv prec64 emax64 (float64OfUint (Zpos pa)) (float64OfUint (Zpos pb))
    = S754_finite false M E
    /\ ceilValue (Zpos M) E = n.
Proof.
  intros Hpa Hpb Hn.
  destruct (float64OfUint_exact pa Hpa) as (ma & ea & -> & Hda & Heda & Hea & Hma).
  destruct (float64OfUint_exact pb Hpb) as (mb & eb & -> & Hdb & Hedb & Heb & Hmb).
  unfold SFdiv. simpl xorb.
  rewrite (SFdiv_core_binary_53 ma ea mb eb Hda Hdb) by lia.
  set (q := Zpos ma * 2 ^ 53 / Zpos mb).
  set (r := (Zpos ma * 2 ^ 53) mod Zpos mb).
  set (e' := ea - eb - 53).
  assert (Hdiv : Zpos ma * 2 ^ 53 = Zpos mb * q + r)
    by (apply Z.div_mod; lia).
  assert (Hr : 0 <= r < Zpos mb) by (apply Z.mod_pos_bound; lia).
  pose proof (digits2_bounds ma) as Hbma. rewrite Hda in Hbma.
  pose proof (digits2_bounds mb) as Hbmb. rewrite Hdb in Hbmb.
  change (53 - 1) with 52 in Hbma, Hbmb.
  (* the scale shared by numerator and denominator *)
  set (A := 2 ^ (- ea)) in *. set (B := 2 ^ (- eb)) in *.
  assert (HA : 0 < A) by (apply Z.pow_pos_nonneg; lia).
  assert (HB : 0 < B) by (apply Z.pow_pos_nonneg; lia).
  set (W := 2 ^ (- e')).
  assert (HWB : W * B = A * 2 ^ 53).
  { unfold W, A, B, e'. rewrite <- !Z.pow_add_r by lia. f_equal. lia. }
  assert (HW : W * Zpos mb = Zpos pb * (A * 2 ^ 53)).
  { rewrite Hmb, <- HWB. ring. }
  assert (HadC : Zpos pa * (A * 2 ^ 53) = Zpos mb * q + r).
  { rewrite <- Hdiv, Hma. ring. }
  assert (HC : Zpos mb < A * 2 ^ 53) by nia.
  destruct (quotient_bracket (Zpos pa) (Zpos pb) n (A * 2 ^ 53) W (Zpos mb) q r)
    as (Hq & Hqhi & Hqlo); try lia.
  assert (Hqb : 2 ^ 52 <= q < 2 ^ 54).
  { split.
    - apply Z.div_le_lower_bound; [lia |]. nia.
    - apply Z.div_lt_upper_bound; [lia |]. nia. }
  destruct q as [| pq |] eqn:Hqeq; try lia.
  pose proof (new_location_zero (Zpos mb) r) as [Hexact Hinexact].
  assert (He' : -105 <= e' <= 52) by (unfold e'; lia).
  destruct (Z.ltb_spec (Zpos pq) (2 ^ 53)) as [Hsmall | Hlarge].
  - (* the quotient has 53 digits *)
    assert (Hdq : Zpos (digits2_pos pq) = 53).
    { apply digits2_unique. change (53 - 1) with 52. lia. }
    rewrite binary_round_aux_53 by (try assumption; lia).
    destruct (round_keep (Zpos pq) (new_location (Zpos mb) r)) as [HM1 HM1e].
    set (M1 := round_nearest_even (Zpos pq) (new_location (Zpos mb) r)) in *.
    destruct (finishing_spec M1 e') as (M2 & E2 & -> & Hceil & _); try lia.
    exists M2, E2. split; [reflexivity |]. rewrite Hceil.
    apply ceilValue_unique; [lia |]. fold W.
    destruct (Z.eq_dec r 0) as [Hr0 | Hr0].
    + rewrite (HM1e (Hexact Hr0)). lia.
    + assert (Zpos pq <> n * W) by (intros Heq; apply Hr0, Hqhi, Heq). lia.
  - (* the quotient has 54 digits *)
    assert (Hdq : Zpos (digits2_pos pq) = 54).
    { apply digits2_unique. change (54 - 1) with 53. lia. }
    rewrite binary_round_aux_54 by (try assumption; lia).
    destruct (round_halved pq (new_location (Zpos mb) r)) as (HM1 & Heven & Hodd).
    set (M1 := round_nearest_even _ _) in *.
    assert (Hh : 2 ^ 52 <= Zpos pq / 2 <= 2 ^ 53 - 1).
    { split.
      - apply Z.div_le_lower_bound; lia.
      - apply Z.lt_succ_r. apply Z.div_lt_upper_bound; lia. }
    destruct (finishing_spec M1 (e' + 1)) as (M2 & E2 & -> & Hceil & _);
      try lia.
    exists M2, E2. split; [reflexivity |]. rewrite Hceil.
    assert (HWU : W = 2 * 2 ^ (- (e' + 1))).
    { unfold W. rewrite <- Z.pow_succ_r by (unfold e'; lia). f_equal. lia. }
    set (U := 2 ^ (- (e' + 1))) in *.
    apply ceilValue_unique; [unfold e'; lia |]. fold U.
    pose proof (Z.div_mod (Zpos pq) 2 ltac:(lia)) as Hq2.
    pose proof (Z.mod_pos_bound (Zpos pq) 2 ltac:(lia)) as Hbit.
    destruct (Z.even (Zpos pq)) eqn:Hev.
    + rewrite (Heven eq_refl).
      apply Zeven_bool_iff, Zeven_ex_iff in Hev as [h Hh2]. lia.
    + assert (Hod : Z.odd (Zpos pq) = true) by (rewrite <- Z.negb_even, Hev; reflexivity).
      apply Zodd_bool_iff, Zodd_ex_iff in Hod as [h Hh2].
      destruct (Z.eq_dec r 0) as [Hr0 | Hr0].
      * assert (Zpos pq <> (n - 1) * W + 1) by (intros Heq; pose proof (Hqlo Heq); lia).
        lia.
      * rewrite (Hodd eq_refl (Hinexact Hr0)). lia.
Qed.

Lemma shr_1_m mrs : 0 <= shr_m mrs -> shr_m (shr_1 mrs) = shr_m mrs / 2.
Proof.
  destruct mrs as [m r s]. simpl shr_m. intros Hm.
  destruct m as [| [p | p |] |]; try lia; simpl shr_m.
  - reflexivity.
  - apply (Z.div_unique_pos _ 2 _ 1); lia.
  - apply (Z.div_unique_pos _ 2 _ 0); lia.
  - reflexivity.
Qed.

Lemma iter_shr_m k : forall mrs,
  0 <= shr_m mrs ->
  shr_m (SpecFloat.iter_pos shr_1 k mrs) = shr_m mrs / 2 ^ Zpos k.
Proof.
  assert (Hhalf : forall mrs, 0 <= shr_m mrs -> 0 <= shr_m (shr_1 mrs)).
  { intros mrs Hm. rewrite shr_1_m by assumption. apply Z.div_pos; lia. }
  induction k as [k IH | k IH |]; intros mrs Hm; simpl SpecFloat.iter_pos.
  - assert (Hk : 0 < 2 ^ Zpos k) by (apply Z.pow_pos_nonneg; lia).
    assert (H1 : 0 <= shr_m (SpecFloat.iter_pos shr_1 k (shr_1 mrs))).
    { rewrite IH by auto. apply Z.div_pos; auto. }
    rewrite IH, IH, shr_1_m by auto.
    rewrite !Z.div_div by lia.
    f_equal.
    assert (Hx : Zpos k~1 = 1 + Zpos k + Zpos k) by lia.
    rewrite Hx, !Z.pow_add_r by lia. change (2 ^ 1) with 2. ring.
  - assert (Hk : 0 < 2 ^ Zpos k) by (apply Z.pow_pos_nonneg; lia).
    assert (H1 : 0 <= shr_m (SpecFloat.iter_pos shr_1 k mrs)).
    { rewrite IH by auto. apply Z.div_pos; auto. }
    rewrite IH, IH by auto.
    rewrite !Z.div_div by lia.
    f_equal.
    assert (Hx : Zpos k~0 = Zpos k + Zpos k) by lia.
    rewrite Hx, Z.pow_add_r by lia. reflexivity.
  - rewrite shr_1_m by assumption. reflexivity.
Qed.

(** A larger [uint] is rounded to a binary64 number that is at least 2^53. *)
Lemma float64OfUint_large p :
  2 ^ 53 <= Zpos p < 2 ^ 64 ->
  exists m e,
    float64OfUint (Zpos p) = S754_finite false m e
    /\ Zpos (digits2_pos m) = 53
    /\ 1 <= e <= 12.
Proof.
  intros Hp. pose proof (digits2_bounds p) as [Hlo Hhi].
  set (d := Zpos (digits2_pos p)) in *.
  assert (Hd : 54 <= d <= 64).
  { split.
    - destruct (Z.leb_spec 54 d); [assumption |]. exfalso.
      assert (2 ^ d <= 2 ^ 53) by (apply Z.pow_le_mono_r; lia). lia.
    - destruct (Z.leb_spec d 64); [assumption |]. exfalso.
      assert (2 ^ 64 <= 2 ^ (d - 1)) by (apply Z.pow_le_mono_r; lia). lia. }
  unfold float64OfUint, binary_normalize, binary_round, shl_align.
  fold d. rewrite Z.add_0_r, fexp64 by lia. rewrite Z.sub_0_r.
  destruct (d - 53) as [| k | k] eqn:Hk; try lia.
  assert (Hs : shr_fexp prec64 emax64 (Zpos p) 0 loc_Exact
               = (SpecFloat.iter_pos shr_1 k (shr_record_of_loc (Zpos p) loc_Exact),
                  Zpos k)).
  { unfold shr_fexp. simpl Zdigits2. fold d.
    rewrite Z.add_0_r, fexp64 by lia. rewrite Z.sub_0_r, Hk. reflexivity. }
  rewrite binary_round_aux_unfold, Hs.
  set (mrs := SpecFloat.iter_pos shr_1 k (shr_record_of_loc (Zpos p) loc_Exact)).
  assert (Hm : shr_m mrs = Zpos p / 2 ^ Zpos k).
  { unfold mrs. rewrite iter_shr_m; simpl shr_m; [reflexivity | lia]. }
  assert (Hpk : 0 < 2 ^ Zpos k) by (apply Z.pow_pos_nonneg; lia).
  assert (Hpow : 2 ^ (d - 1) = 2 ^ 52 * 2 ^ Zpos k).
  { rewrite <- Z.pow_add_r by lia. f_equal. lia. }
  assert (Hpow' : 2 ^ d = 2 ^ 53 * 2 ^ Zpos k).
  { rewrite <- Z.pow_add_r by lia. f_equal. lia. }
  assert (Hmb : 2 ^ 52 <= shr_m mrs < 2 ^ 53).
  { rewrite Hm. split.
    - apply Z.div_le_lower_bound; lia.
    - apply Z.div_lt_upper_bound; lia. }
  destruct (round_keep (shr_m mrs) (loc_of_shr_record mrs)) as [HM1 _].
  set (M1 := round_nearest_even (shr_m mrs) (loc_of_shr_record mrs)) in *.
  destruct (finishing_spec M1 (Zpos k)) as (M2 & E2 & Hfin & _ & Hd2 & HE2);
    try lia.
  rewrite Hfin.
  exists M2, E2. split; [reflexivity |]. split; [exact Hd2 | lia].
Qed.

(** Below 2^53 over at least 2^53: the quotient rounds into (0, 1]. *)
Lemma SFdiv_small_quotient ma ea mb eb :
  Zpos (digits2_pos ma) = 53 -> Zpos (digits2_pos mb) = 53 ->
  -52 <= ea <= 0 -> 1 <= eb <= 12 ->
  exists M E,
    SFdiv prec64 emax64 (S754_finite false ma ea) (S754_finite false mb eb)
    = S754_finite false M E
    /\ ceilValue (Zpos M) E = 1.
Proof.
  intros Hda Hdb Hea Heb. unfold SFdiv. simpl xorb.
  rewrite (SFdiv_core_binary_53 ma ea mb eb Hda Hdb) by lia.
  set (q := Zpos ma * 2 ^ 53 / Zpos mb).
  set (r := (Zpos ma * 2 ^ 53) mod Zpos mb).
  set (e' := ea - eb - 53).
  pose proof (digits2_bounds ma) as Hbma. rewrite Hda in Hbma.
  pose proof (digits2_bounds mb) as Hbmb. rewrite Hdb in Hbmb.
  change (53 - 1) with 52 in Hbma, Hbmb.
  assert (Hqb : 2 ^ 52 <= q < 2 ^ 54).
  { split.
    - apply Z.div_le_lower_bound; [lia |]. nia.
    - apply Z.div_lt_upper_bound; [lia |]. nia. }
  assert (He' : -117 <= e' <= -54) by (unfold e'; lia).
  assert (Hone : forall M1 E1,
             0 < M1 <= 2 ^ 53 -> e' <= E1 <= e' + 1 -> ceilValue M1 E1 = 1).
  { intros M1 E1 HM1 HE1. apply ceilValue_unique; [lia |].
    assert (2 ^ 53 <= 2 ^ (- E1)) by (apply Z.pow_le_mono_r; lia). lia. }
  destruct q as [| pq |] eqn:Hqeq; try lia.
  destruct (Z.ltb_spec (Zpos pq) (2 ^ 53)) as [Hsmall | Hlarge].
  - assert (Hdq : Zpos (digits2_pos pq) = 53).
    { apply digits2_unique. change (53 - 1) with 52. lia. }
    rewrite binary_round_aux_53 by (try assumption; lia).
    destruct (round_keep (Zpos pq) (new_location (Zpos mb) r)) as [HM1 _].
    set (M1 := round_nearest_even (Zpos pq) (new_location (Zpos mb) r)) in *.
    destruct (finishing_spec M1 e') as (M2 & E2 & -> & Hceil & _); try lia.
    exists M2, E2. split; [reflexivity |]. rewrite Hceil. apply Hone; lia.
  - assert (Hdq : Zpos (digits2_pos pq) = 54).
    { apply digits2_unique. change (54 - 1) with 53. lia. }
    rewrite binary_round_aux_54 by (try assumption; lia).
    destruct (round_halved pq (new_location (Zpos mb) r)) as (HM1 & _ & _).
    set (M1 := round_nearest_even _ _) in *.
    assert (Hh : 2 ^ 52 <= Zpos pq / 2 <= 2 ^ 53 - 1).
    { split.
      - apply Z.div_le_lower_bound; lia.
      - apply Z.lt_succ_r. apply Z.div_lt_upper_bound; lia. }
    destruct (finishing_spec M1 (e' + 1)) as (M2 & E2 & -> & Hceil & _);
      try lia.
    exists M2, E2. split; [reflexivity |]. rewrite Hceil. apply Hone; lia.
Qed.

Lemma uintOfFloat64_Ceil M E n :
  ceilValue (Zpos M) E = n -> 0 <= n < 2 ^ 53 ->
  uintOfFloat64 (math.Ceil (S754_finite false M E)) = n.
Proof.
  intros Hceil Hn. unfold ceilValue in Hceil. unfold math.Ceil.
  assert (Hrange : (0 <=? n) && (n <=? maxUint) = true).
  { apply andb_true_iff. split; apply Z.leb_le; [lia |].
    unfold maxUint, uintSize. lia. }
  destruct (Z.leb_spec 0 E) as [HE | HE].
  - unfold uintOfFloat64. simpl truncate.
    rewrite Z.shiftl_mul_pow2 by lia. rewrite Hceil, Hrange. reflexivity.
  - simpl cond_Zopp. rewrite Hceil.
    unfold uintOfFloat64.
    change (binary_normalize prec64 emax64 n 0 false) with (float64OfUint n).
    rewrite (truncate_float64OfUint n Hn), Hrange. reflexivity.
Qed.

Lemma ceiling_bracket a b :
  0 < b -> let n := (a + b - 1) / b in (n - 1) * b < a <= n * b.
Proof.
  intros Hb n.
  pose proof (Z.div_mod (a + b - 1) b ltac:(lia)) as Hdm.
  pose proof (Z.mod_pos_bound (a + b - 1) b Hb) as Hm.
  fold n in Hdm. lia.
Qed.

Lemma lastPage_ceiling a b :
  0 <= a < 2 ^ 53 -> 0 < b <= maxUint ->
  uintOfFloat64 (math.Ceil (SFdiv prec64 emax64 (float64OfUint a) (float64OfUint b)))
  = (a + b - 1) / b.
Proof.
  intros Ha Hb. unfold maxUint, uintSize in Hb.
  pose proof (ceiling_bracket a b ltac:(lia)) as Hn.
  set (n := (a + b - 1) / b) in *. cbv zeta in Hn.
  destruct b as [| pb |]; try lia.
  assert (Hfb : exists mb eb,
             float64OfUint (Zpos pb) = S754_finite false mb eb).
  { destruct (Z.ltb_spec (Zpos pb) (2 ^ 53)).
    - destruct (float64OfUint_exact pb ltac:(lia)) as (mb & eb & -> & _). eauto.
    - destruct (float64OfUint_large pb ltac:(lia)) as (mb & eb & -> & _). eauto. }
  destruct a as [| pa |]; try lia.
  - assert (n = 0) as -> by nia.
    destruct Hfb as (mb & eb & ->). reflexivity.
  - assert (Hn53 : 0 <= n < 2 ^ 53) by nia.
    destruct (Z.ltb_spec (Zpos pb) (2 ^ 53)) as [Hsmall | Hlarge].
    + destruct (SFdiv_ceiling pa pb n) as (M & E & -> & Hceil); try lia.
      apply uintOfFloat64_Ceil; assumption.
    + assert (n = 1) as -> by nia.
      destruct (float64OfUint_exact pa ltac:(lia))
        as (ma & ea & -> & Hda & _ & Hea & _).
      destruct (float64OfUint_large pb ltac:(lia))
        as (mb & eb & -> & Hdb & Heb).
      destruct (SFdiv_small_quotient ma ea mb eb Hda Hdb Hea Heb)
        as (M & E & -> & Hceil).
      apply uintOfFloat64_Ceil; [assumption | lia].
Qed.

(** What [Run] returns when the query is built and the store answers: the
    page of the builder, finalized with the count. *)
Lemma Run_page {Content} (dataBase : Store Content) mq query mq' q items
    content :
  CreateQuery DefaultPageSize mq query = (mq', Ok q) ->
  Count dataBase (mkQuery (collection q) (filter q) (selector q)
                          (sortFields q) 0 0) = Ok items ->
  All dataBase q = Ok content ->
  Run DefaultPageSize dataBase mq query
  = (mq', Ok (mkResponse content
                (calculateLastPage (setItems (page mq') (uintOfInt items))))).
Proof.
  intros Hq Hcount Hall. unfold Run. rewrite Hq, Hcount. simpl.
  rewrite Hall. reflexivity.
Qed.


(** C10, as the code has it. For a page of size above 0 and a total count
    of items below 2^53, finalizing the page sets items to the count and
    last to the integer ceiling of items / size (25 items on pages of 10
    give 3): the count and the quotient go through [float64], which holds
    every integer below 2^53. *)
Theorem calculateLastPage_ceiling p items :
  0 <= items < 2 ^ 53 -> 0 < Size p <= maxUint ->
  let finalized := calculateLastPage (setItems p (uintOfInt items)) in
  Items finalized = items
  /\ Size finalized = Size p
  /\ Current finalized = Current p
  /\ (Last finalized - 1) * Size p < items <= Last finalized * Size p
  /\ Last finalized = (items + Size p - 1) / Size p.
Proof.
  intros Hitems Hsize finalized.
  assert (Hu : uintOfInt items = items).
  { unfold uintOfInt. apply wrapUint_small. lia. }
  assert (Hlast : Last finalized = (items + Size p - 1) / Size p).
  { unfold finalized, calculateLastPage. simpl. rewrite Hu.
    apply lastPage_ceiling; assumption. }
  split; [unfold finalized, calculateLastPage; simpl; exact Hu |].
  split; [reflexivity |]. split; [reflexivity |].
  rewrite Hlast. split; [| reflexivity].
  apply (ceiling_bracket items (Size p)). lia.
Qed.

End properties.

(** ** The properties on the structs of the package *)

Lemma NewMongoQuery_Person : NewMongoQuery Person = [personBuilder].
Proof. vm_compute. reflexivity. Qed.

Lemma createQueryFilter_scalar_terms_witness :
  NoDup [("age", ["1"; "2"; "3"])].*1
  /\ createQueryFilter personBuilder [("age", ["1"; "2"; "3"])]
     = Ok {[ "age" := In_ [VInt 1; VInt 2; VInt 3] ]}
  /\ ("age", ["1"; "2"; "3"]) ∈ [("age", ["1"; "2"; "3"])]
  /\ supportedParameters personBuilder !! "age" = Some Int
  /\ exists parsed,
      Forall2 (fun v p => convertValue Int v = Ok p) ["1"; "2"; "3"] parsed
      /\ (forall v, ["1"; "2"; "3"] = [v] ->
            exists p, parsed = [p]
                      /\ ({[ "age" := In_ [VInt 1; VInt 2; VInt 3] ]}
                            : gmap string term) !! "age" = Some (Single p))
      /\ ((1 < length ["1"; "2"; "3"])%nat ->
          ({[ "age" := In_ [VInt 1; VInt 2; VInt 3] ]} : gmap string term)
            !! "age" = Some (In_ parsed)).
Proof.
  assert (Hnodup : NoDup [("age", ["1"; "2"; "3"])].*1)
    by (apply NoDup_singleton).
  assert (Hfilter : createQueryFilter personBuilder [("age", ["1"; "2"; "3"])]
                    = Ok {[ "age" := In_ [VInt 1; VInt 2; VInt 3] ]})
    by (vm_compute; reflexivity).
  assert (Hin : ("age", ["1"; "2"; "3"]) ∈ [("age", ["1"; "2"; "3"])])
    by (apply list_elem_of_singleton; reflexivity).
  assert (Hkind : supportedParameters personBuilder !! "age" = Some Int)
    by (vm_compute; reflexivity).
  repeat split; try assumption.
  apply (createQueryFilter_scalar_terms personBuilder
           [("age", ["1"; "2"; "3"])] _ "age" ["1"; "2"; "3"] Int);
    try assumption; reflexivity.
Defined.

Lemma createQueryFilter_string_terms_witness :
  NoDup [("name", ["54e1b216a8f830ee6dead911"])].*1
  /\ createQueryFilter personBuilder
       [("name", ["54e1b216a8f830ee6dead911"])]
     = Ok {[ "name" :=
               Single (VObjectId (objectIdBytes "54e1b216a8f830ee6dead911")) ]}
  /\ ("name", ["54e1b216a8f830ee6dead911"])
       ∈ [("name", ["54e1b216a8f830ee6dead911"])]
  /\ supportedParameters personBuilder !! "name" = Some String
  /\ forall v, ["54e1b216a8f830ee6dead911"] = [v] ->
       ({[ "name" :=
             Single (VObjectId (objectIdBytes "54e1b216a8f830ee6dead911")) ]}
          : gmap string term) !! "name"
       = Some (Single (if bson.IsObjectIdHex v
                       then VObjectId (objectIdBytes v)
                       else VRegEx v EmptyString)).
Proof.
  assert (Hnodup : NoDup [("name", ["54e1b216a8f830ee6dead911"])].*1)
    by (apply NoDup_singleton).
  assert (Hfilter :
            createQueryFilter personBuilder
              [("name", ["54e1b216a8f830ee6dead911"])]
            = Ok {[ "name" :=
                      Single (VObjectId
                                (objectIdBytes "54e1b216a8f830ee6dead911")) ]})
    by (vm_compute; reflexivity).
  assert (Hin : ("name", ["54e1b216a8f830ee6dead911"])
                  ∈ [("name", ["54e1b216a8f830ee6dead911"])])
    by (apply list_elem_of_singleton; reflexivity).
  assert (Hkind : supportedParameters personBuilder !! "name" = Some String)
    by (vm_compute; reflexivity).
  repeat split; try assumption.
  apply (createQueryFilter_string_terms personBuilder
           [("name", ["54e1b216a8f830ee6dead911"])] _ "name"
           ["54e1b216a8f830ee6dead911"]);
    try assumption; reflexivity.
Defined.

(** The request [?age=ten&colour=red], visited in this order. The name
    [colour] is not registered, and the error is the one of [age]: an
    InvalidValue error, not UnsupportedParameter. *)
Lemma createQueryFilter_unsupported_other_error :
  "colour" ∈ [("age", ["ten"]); ("colour", ["red"])].*1
  /\ supportedParameters personBuilder !! "colour" = None
  /\ ~ (exists e,
         createQueryFilter personBuilder
           [("age", ["ten"]); ("colour", ["red"])] = Err e
         /\ classify e = UnsupportedParameter).
Proof.
  split; [| split].
  - simpl. apply list_elem_of_further, list_elem_of_here.
  - vm_compute. reflexivity.
  - intros (e & He & Hclass).
    vm_compute in He. injection He as <-. discriminate Hclass.
Qed.

Lemma createQueryFilter_unsupported_witness :
  supportedParameters personBuilder !! "colour" = None
  /\ (exists e, createQueryFilter personBuilder
                  ([("age", ["10"])] ++ ("colour", ["red"]) :: [])%list = Err e
                /\ filterError e)
  /\ createQueryFilter personBuilder
       ([("age", ["10"])] ++ ("colour", ["red"]) :: [])%list
     = Err (notSupported "colour").
Proof.
  assert (Hnone : supportedParameters personBuilder !! "colour" = None)
    by (vm_compute; reflexivity).
  pose proof (createQueryFilter_unsupported personBuilder
                [("age", ["10"])] [] "colour" ["red"] Hnone)
    as (Hfails & Hreached & _ & _).
  split; [exact Hnone |]. split; [exact Hfails |].
  apply (Hreached {[ "age" := Single (VInt 10) ]}).
  vm_compute. reflexivity.
Defined.

(** The sort values [--age] and [age-]: after one leading marker is taken
    off, the remainders [-age] and [age-] are not registered, and the call
    does not fail. *)
Lemma createSortFields_extra_markers :
  lookupValues [("sort", ["--age"; "age-"])] "sort" = Some ["--age"; "age-"]
  /\ supportedParameters personBuilder !! stripMarker "--age" = None
  /\ supportedParameters personBuilder !! stripMarker "age-" = None
  /\ createSortFields personBuilder [("sort", ["--age"; "age-"])]
     = Ok ["--age"; "age-"].
Proof. repeat split; vm_compute; reflexivity. Qed.

Lemma createSortFields_values_witness :
  lookupValues [("sort", ["name"; "-age"; "name"])] "sort"
  = Some ["name"; "-age"; "name"]
  /\ Forall (fun v => registered (supportedParameters personBuilder)
                                 (strings.Trim v "-"))
            ["name"; "-age"; "name"]
  /\ createSortFields personBuilder [("sort", ["name"; "-age"; "name"])]
     = Ok ["name"; "-age"; "name"].
Proof.
  assert (Hsort : lookupValues [("sort", ["name"; "-age"; "name"])] "sort"
                  = Some ["name"; "-age"; "name"]) by reflexivity.
  assert (Hall : Forall (fun v => registered (supportedParameters personBuilder)
                                             (strings.Trim v "-"))
                        ["name"; "-age"; "name"]).
  { repeat constructor; vm_compute; eexists; reflexivity. }
  split; [exact Hsort |]. split; [exact Hall |].
  exact (proj1 (createSortFields_values personBuilder _ _ Hsort) Hall).
Defined.

(** C4 (the code departs from it). [createFieldsMap] does what the claim
    says: a field value that is no key of the registry gives an
    UnsupportedField error, and a field named twice is one entry of the
    projection. [CreateQuery] overwrites that error with the result of
    [createSortFields] before looking at it: for the request
    [?field=notAMember] it returns a query, with no projection, instead of
    the error. *)
Theorem CreateQuery_drops_field_error :
  supportedParameters personBuilder !! "notAMember" = None
  /\ createFieldsMap personBuilder [("field", ["notAMember"])]
     = Err (errors_New (UnsupportedFieldValue "notAMember"))
  /\ createFieldsMap personBuilder [("field", ["name"; "age"; "name"])]
     = Ok (<["age" := 1]> {[ "name" := 1 ]})
  /\ snd (CreateQuery 20 personBuilder [("field", ["notAMember"])])
     = Ok (mkQuery "person" ∅ None [] 20 0).
Proof. repeat split; vm_compute; reflexivity. Qed.

(** The request [?limit=0]: [CreateQuery] returns a query and no error, the
    page size is 0, and [Run] then divides the five items by that size. *)
Lemma CreateQuery_accepts_limit_zero :
  lookupValues [("limit", ["0"])] "limit" = Some ["0"]
  /\ CreateQuery 20 personBuilder [("limit", ["0"])]
     = (setPage personBuilder (mkPage 0 0 0 1),
        Ok (mkQuery "person" ∅ (Some ∅) [] 0 0))
  /\ ~ (exists e, snd (CreateQuery 20 personBuilder [("limit", ["0"])]) = Err e
                  /\ classify e = InvalidValue)
  /\ snd (Run 20 fiveDocuments personBuilder [("limit", ["0"])])
     = Ok (mkResponse tt (calculateLastPage (mkPage 0 5 0 1)))
  /\ SFdiv prec64 emax64 (float64OfUint 5)
           (float64OfUint (Size (mkPage 0 5 0 1)))
     = S754_infinity false.
Proof.
  split; [reflexivity |].
  split; [vm_compute; reflexivity |].
  split; [intros (e & He & _); vm_compute in He; discriminate He |].
  split; vm_compute; reflexivity.
Qed.

Lemma CreateQuery_limit_zero_witness :
  createQueryFilter personBuilder [("limit", ["0"]); ("page", ["2"])] = Ok ∅
  /\ createSortFields personBuilder [("limit", ["0"]); ("page", ["2"])] = Ok []
  /\ lookupValues [("limit", ["0"]); ("page", ["2"])] "limit" = Some ["0"]
  /\ getUintDefault [("limit", ["0"]); ("page", ["2"])] "page" 1 = Ok 2
  /\ exists mq' q,
      CreateQuery 20 personBuilder [("limit", ["0"]); ("page", ["2"])]
      = (mq', Ok q)
      /\ Size (page mq') = 0 /\ limit q = 0 /\ skip q = 0.
Proof.
  assert (Hfilter : createQueryFilter personBuilder
                      [("limit", ["0"]); ("page", ["2"])] = Ok ∅)
    by (vm_compute; reflexivity).
  assert (Hsort : createSortFields personBuilder
                    [("limit", ["0"]); ("page", ["2"])] = Ok [])
    by (vm_compute; reflexivity).
  assert (Hlimit : lookupValues [("limit", ["0"]); ("page", ["2"])] "limit"
                   = Some ["0"]) by reflexivity.
  assert (Hpage : getUintDefault [("limit", ["0"]); ("page", ["2"])] "page" 1
                  = Ok 2) by (vm_compute; reflexivity).
  repeat split; try assumption.
  apply (CreateQuery_limit_zero 20 personBuilder _ ∅ [] [] 2);
    try assumption. discriminate.
Defined.

(** The request [?limit=4294967296&page=4294967297]: the product
    (current - 1) * size is 2^64 and the skip of the query is 0. *)
Lemma CreateQuery_skip_wraps :
  exists mq' q,
    CreateQuery 20 personBuilder
      [("limit", ["4294967296"]); ("page", ["4294967297"])] = (mq', Ok q)
    /\ Size (page mq') = 4294967296
    /\ Current (page mq') = 4294967297
    /\ skip q = 0
    /\ skip q <> (Current (page mq') - 1) * Size (page mq').
Proof.
  eexists _, _. split; [vm_compute; reflexivity |].
  repeat split. discriminate.
Qed.

Lemma CreateQuery_paging_witness :
  0 <= 20 <= maxUint
  /\ createQueryFilter personBuilder [("limit", ["10"]); ("page", ["3"])]
     = Ok ∅
  /\ createSortFields personBuilder [("limit", ["10"]); ("page", ["3"])]
     = Ok []
  /\ exists mq' q,
      CreateQuery 20 personBuilder [("limit", ["10"]); ("page", ["3"])]
      = (mq', Ok q)
      /\ Size (page mq') = 10 /\ Current (page mq') = 3
      /\ limit q = intOfUint 10
      /\ skip q = intOfUint (wrapUint ((3 - 1) * 10))
      /\ ((3 - 1) * 10 < 2 ^ 63 -> skip q = (3 - 1) * 10).
Proof.
  assert (HD : 0 <= 20 <= maxUint) by (vm_compute; split; discriminate).
  assert (Hfilter : createQueryFilter personBuilder
                      [("limit", ["10"]); ("page", ["3"])] = Ok ∅)
    by (vm_compute; reflexivity).
  assert (Hsort : createSortFields personBuilder
                    [("limit", ["10"]); ("page", ["3"])] = Ok [])
    by (vm_compute; reflexivity).
  split; [exact HD |]. split; [exact Hfilter |]. split; [exact Hsort |].
  pose proof (CreateQuery_paging 20 personBuilder _ ∅ [] HD Hfilter Hsort)
    as (_ & _ & _ & _ & _ & _ & Hbuilt).
  apply (Hbuilt 10 3); [vm_compute; reflexivity .. | discriminate].
Defined.

(** [limit] recorded as a boolean and then as a float: the first pair is a
    pair that was recorded, and the registry holds the second. *)
Lemma registry_pair_overwritten :
  personBuilder ∈ NewMongoQuery Person
  /\ personAfterLimitCalls ∈ callsOn limitCalls personBuilder
  /\ AddOrOverwrite "limit" Bool ∈ limitCalls
  /\ supportedParameters personAfterLimitCalls !! "limit" = Some Float64
  /\ supportedParameters personAfterLimitCalls !! "limit" <> Some Bool.
Proof.
  split; [rewrite NewMongoQuery_Person; apply list_elem_of_here |].
  split; [vm_compute; apply list_elem_of_here |].
  split; [apply list_elem_of_here |].
  split; [vm_compute; reflexivity |].
  vm_compute. discriminate.
Qed.

Lemma registry_after_calls_witness :
  personBuilder ∈ NewMongoQuery Person
  /\ personAfterCalls ∈ callsOn personCalls personBuilder
  /\ supportedParameters personAfterCalls !! "name" = Some Uint
  /\ supportedParameters personAfterCalls !! "sort" = None
  /\ disabledParameters personAfterCalls = ["name"; "sort"].
Proof.
  assert (Hnew : personBuilder ∈ NewMongoQuery Person).
  { rewrite NewMongoQuery_Person. apply list_elem_of_here. }
  assert (Hcalls : personAfterCalls ∈ callsOn personCalls personBuilder).
  { vm_compute. apply list_elem_of_here. }
  pose proof (registry_after_calls Person personCalls personBuilder
                personAfterCalls Hnew Hcalls)
    as (Hrecorded & _ & _ & Hdisabled & Habsent & _).
  split; [exact Hnew |]. split; [exact Hcalls |]. split; [| split].
  - apply (Hrecorded [Disable ["name"; "sort"]; AddOrOverwrite "limit" Bool]
                     [Disable ["name"]] "name" Uint); [reflexivity |].
    intros kind' Hin. apply list_elem_of_singleton in Hin. discriminate Hin.
  - apply Habsent.
    + apply (Hdisabled ["name"; "sort"]); [apply list_elem_of_here |].
      apply list_elem_of_further, list_elem_of_here.
    + vm_compute. reflexivity.
  - vm_compute. reflexivity.
Defined.

Lemma createValidParametersMap_not_first_token_witness :
  Unquote (quoted "x") = Some "x"
  /\ Unquote (quoted "first,second") = Some "first,second"
  /\ getFieldNameFromTag (bsonTag "x") = [EmptyString]
  /\ "second" ∈ getFieldNameFromTag (bsonTag "first,second").
Proof.
  assert (Hx : Unquote (quoted "x") = Some "x") by reflexivity.
  assert (Hfs : Unquote (quoted "first,second") = Some "first,second")
    by reflexivity.
  pose proof (createValidParametersMap_not_first_token Hx Hfs)
    as (Hname & _ & _ & Hsecond & _).
  split; [exact Hx |]. split; [exact Hfs |]. split; assumption.
Defined.

(** A count of 2^53 + 1 items on pages of one item: the count is rounded to
    2^53 on its way through [float64], and so is the last page. *)
Lemma calculateLastPage_rounds :
  Last (calculateLastPage
          (setItems (mkPage 1 0 0 1) (uintOfInt 9007199254740993)))
  = 9007199254740992
  /\ ~ (9007199254740993
        <= Last (calculateLastPage
                   (setItems (mkPage 1 0 0 1) (uintOfInt 9007199254740993)))
           * Size (mkPage 1 0 0 1)).
Proof.
  assert (Hlast : Last (calculateLastPage
                          (setItems (mkPage 1 0 0 1)
                                    (uintOfInt 9007199254740993)))
                  = 9007199254740992) by (vm_compute; reflexivity).
  split; [exact Hlast |]. rewrite Hlast. simpl. lia.
Qed.

Lemma calculateLastPage_ceiling_witness :
  0 <= 25 < 2 ^ 53
  /\ 0 < Size (mkPage 10 0 0 1) <= maxUint
  /\ Items (calculateLastPage (setItems (mkPage 10 0 0 1) (uintOfInt 25))) = 25
  /\ Last (calculateLastPage (setItems (mkPage 10 0 0 1) (uintOfInt 25)))
     = (25 + 10 - 1) / 10
  /\ (25 + 10 - 1) / 10 = 3.
Proof.
  assert (Hitems : 0 <= 25 < 2 ^ 53) by lia.
  assert (Hsize : 0 < Size (mkPage 10 0 0 1) <= maxUint)
    by (vm_compute; split; [reflexivity | discriminate]).
  pose proof (calculateLastPage_ceiling (mkPage 10 0 0 1) 25 Hitems Hsize)
    as (Hi & _ & _ & _ & Hlast).
  split; [exact Hitems |]. split; [exact Hsize |].
  split; [exact Hi |]. split; [exact Hlast | reflexivity].
Defined.


(** * Further properties of the package *)

Section further.
Context `{GoLib}.

(** [DefaultPageSize], the variable of the package. *)
Variable DefaultPageSize : Z.

(** *** The filter of a request *)

Lemma filterLoop_succeeds supported entries : forall f0,
  (exists f, filterLoop supported entries f0 = Ok f)
  <-> Forall (convertible supported) entries.
Proof.
  induction entries as [| [name values] rest IH]; intros f0; simpl.
  - split; [constructor | eauto].
  - split.
    + intros [f Hf]. unfold convertible at 1.
      destruct (supported !! name) as [kind |] eqn:Hkind; [| discriminate].
      destruct (isMetaParameter name) eqn:Hmeta.
      * constructor; [| apply (IH f0); eauto].
        unfold convertible. simpl. rewrite Hkind. by left.
      * destruct (convertValues kind values) as [s | e | m] eqn:Hs;
          simpl in Hf; try discriminate.
        constructor; [| apply (IH (<[name := termOf s]> f0)); eauto].
        unfold convertible. simpl. rewrite Hkind. right. eauto.
    + intros Hall. inversion Hall as [| ? ? Hentry Hrest]; subst.
      unfold convertible in Hentry. simpl in Hentry.
      destruct (supported !! name) as [kind |]; [| contradiction].
      destruct (isMetaParameter name) eqn:Hmeta.
      * apply IH, Hrest.
      * destruct Hentry as [[=] | [s ->]]. simpl. apply IH, Hrest.
Qed.

(** [createQueryFilter] builds a filter exactly when every name of the
    request is registered and the values of every name that is no
    meta-parameter convert under its kind. *)
Theorem createQueryFilter_succeeds_iff mq query :
  (exists filter, createQueryFilter mq query = Ok filter)
  <-> Forall (convertible (supportedParameters mq)) query.
Proof. apply filterLoop_succeeds. Qed.

Lemma filterLoop_keys supported entries : forall f0 f,
  filterLoop supported entries f0 = Ok f ->
  forall name,
    is_Some (f !! name)
    <-> is_Some (f0 !! name)
        \/ (name ∈ entries.*1 /\ isMetaParameter name = false).
Proof.
  induction entries as [| [n values] rest IH]; intros f0 f; simpl.
  - intros [= <-] name. split; [by left |].
    intros [? | [Hin _]]; [assumption | inversion Hin].
  - destruct (supported !! n) as [kind |]; [| discriminate].
    destruct (isMetaParameter n) eqn:Hmeta.
    + intros Hf name. rewrite (IH _ _ Hf name), elem_of_cons.
      split; [tauto |]. intros [? | [[-> | ?] Hm]]; [tauto | congruence | tauto].
    + destruct (convertValues kind values) as [s | e | m]; simpl;
        try discriminate.
      intros Hf name. rewrite (IH _ _ Hf name), elem_of_cons.
      rewrite lookup_insert_is_Some.
      destruct (decide (n = name)) as [-> | Hne];
        intuition (auto; congruence).
Qed.

(** The keys of the filter [createQueryFilter] returns are the names of the
    request that are no meta-parameter, and every name of such a request is
    registered. *)
Theorem createQueryFilter_keys mq query filter :
  createQueryFilter mq query = Ok filter ->
  (forall name,
      is_Some (filter !! name)
      <-> name ∈ query.*1 /\ isMetaParameter name = false)
  /\ (forall name, name ∈ query.*1 ->
                   is_Some (supportedParameters mq !! name)).
Proof.
  intros Hfilter. split.
  - intros name. rewrite (filterLoop_keys _ _ _ _ Hfilter name).
    rewrite lookup_empty. split; [| tauto].
    intros [[? [=]] | ?]; assumption.
  - assert (Hall : Forall (convertible (supportedParameters mq)) query).
    { apply (filterLoop_succeeds _ _ ∅). eauto. }
    intros name (entry & -> & Hin)%list_elem_of_fmap.
    rewrite Forall_forall in Hall. specialize (Hall _ Hin).
    unfold convertible in Hall.
    destruct (supportedParameters mq !! entry.1); [eauto | contradiction].
Qed.

Lemma filterLoop_Permutation supported (entries entries' : Values) :
  entries ≡ₚ entries' ->
  NoDup entries.*1 ->
  forall f0 f,
    filterLoop supported entries f0 = Ok f ->
    filterLoop supported entries' f0 = Ok f.
Proof.
  induction 1 as [| [n vs] l l' Hperm IH
                  | [n1 vs1] [n2 vs2] l
                  | l l' l'' Hperm1 IH1 Hperm2 IH2]; intros Hnodup f0 f.
  - trivial.
  - simpl. apply NoDup_cons in Hnodup as [_ Hnodup].
    destruct (supported !! n) as [kind |]; [| trivial].
    destruct (isMetaParameter n); [apply IH, Hnodup |].
    destruct (convertValues kind vs) as [s | e | m]; simpl; trivial.
    apply IH, Hnodup.
  - simpl in Hnodup. apply NoDup_cons in Hnodup as [Hne _].
    apply not_elem_of_cons in Hne as [Hne _]. simpl.
    destruct (supported !! n1) as [k1 |], (supported !! n2) as [k2 |],
      (isMetaParameter n1), (isMetaParameter n2); try discriminate;
      trivial;
      try (destruct (convertValues k1 vs1) as [s1 | e1 | m1]; simpl;
           try discriminate; trivial);
      try (destruct (convertValues k2 vs2) as [s2 | e2 | m2]; simpl;
           try discriminate; trivial).
    rewrite (insert_insert_ne f0 n1 n2); [trivial | congruence].
  - intros Hloop. apply IH2; [| apply IH1; assumption].
    rewrite <- (fmap_Permutation fst _ _ Hperm1). exact Hnodup.
Qed.

(** The filter does not depend on the order in which the entries of the
    request are visited: two orders of the same entries, each name once,
    give the same filter, and one fails when the other does. *)
Theorem createQueryFilter_order mq (query query' : Values) :
  query ≡ₚ query' ->
  NoDup query.*1 ->
  forall filter,
    createQueryFilter mq query = Ok filter
    <-> createQueryFilter mq query' = Ok filter.
Proof.
  intros Hperm Hnodup filter. unfold createQueryFilter. split.
  - apply filterLoop_Permutation; assumption.
  - apply filterLoop_Permutation; [symmetry; assumption |].
    rewrite <- (fmap_Permutation fst _ _ Hperm). exact Hnodup.
Qed.

(** A registered meta-parameter ([page], [limit], [field], [sort]) leaves
    no trace in the filter: whatever its values are, the result is that of
    the request without it. *)
Theorem createQueryFilter_meta_ignored mq (before after : Values) name values
    kind :
  isMetaParameter name = true ->
  supportedParameters mq !! name = Some kind ->
  createQueryFilter mq (before ++ (name, values) :: after)%list
  = createQueryFilter mq (before ++ after)%list.
Proof.
  intros Hmeta Hkind. unfold createQueryFilter.
  rewrite !filterLoop_app.
  destruct (filterLoop (supportedParameters mq) before ∅) as [f | e | m];
    simpl; trivial.
  rewrite Hkind, Hmeta. reflexivity.
Qed.

(** *** The projection *)

Lemma fieldsLoop_Err supported values fields e :
  fieldsLoop supported values fields = Err e ->
  err_http e = None /\ classify e = UnsupportedField.
Proof.
  revert fields. induction values as [| v rest IH]; intros fields; simpl.
  - discriminate.
  - destruct (supported !! v); [apply IH |].
    intros [= <-]. split; reflexivity.
Qed.

(** [createFieldsMap] on a request that names fields: when every value of
    [field] is registered the projection holds 1 for the values named and
    nothing else; otherwise the call fails with the UnsupportedField error
    of the first value that is not registered.  That error carries no HTTP
    status, unlike those of the filter and of the sort list. *)
Theorem createFieldsMap_projection mq query values :
  lookupValues query "field" = Some values ->
  (Forall (registered (supportedParameters mq)) values ->
   exists fields,
     createFieldsMap mq query = Ok fields
     /\ forall name,
         fields !! name = if bool_decide (name ∈ values) then Some 1 else None)
  /\ (forall (before after : list string) v,
        values = (before ++ v :: after)%list ->
        Forall (registered (supportedParameters mq)) before ->
        supportedParameters mq !! v = None ->
        createFieldsMap mq query = Err (errors_New (UnsupportedFieldValue v)))
  /\ (forall e, createFieldsMap mq query = Err e ->
                err_http e = None /\ classify e = UnsupportedField).
Proof.
  intros Hfield. unfold createFieldsMap. rewrite Hfield. split; [| split].
  - intros Hall. rewrite (fieldsLoop_registered _ _ _ Hall).
    eexists. split; [reflexivity |]. intros name.
    rewrite projection_lookup, lookup_empty. reflexivity.
  - intros before after v -> Hbefore Hv.
    apply fieldsLoop_unregistered; assumption.
  - intros e. apply fieldsLoop_Err.
Qed.

(** *** What the three builders of a query never do *)

Lemma fieldsLoop_returns supported values fields :
  returns (fieldsLoop supported values fields).
Proof.
  revert fields. induction values as [| v rest IH]; intros fields; simpl.
  - exact I.
  - destruct (supported !! v); [apply IH | exact I].
Qed.

Lemma sortLoop_returns supported values sortFields :
  returns (sortLoop supported values sortFields).
Proof.
  revert sortFields.
  induction values as [| v rest IH]; intros sortFields; simpl.
  - exact I.
  - destruct (supported !! _); [apply IH | exact I].
Qed.

(** Whatever the registry and the request are, [createQueryFilter],
    [createFieldsMap] and [createSortFields] return a result or an error:
    [bson.ObjectIdHex], which panics on a string that is no identifier, is
    only called on strings [bson.IsObjectIdHex] accepts. *)
Theorem builders_return mq query :
  returns (createQueryFilter mq query)
  /\ returns (createFieldsMap mq query)
  /\ returns (createSortFields mq query).
Proof.
  split; [apply filterLoop_returns |]. split.
  - unfold createFieldsMap.
    destruct (lookupValues query "field"); [apply fieldsLoop_returns | exact I].
  - unfold createSortFields.
    destruct (lookupValues query "sort"); [apply sortLoop_returns | exact I].
Qed.

(** *** The status of the errors *)

Lemma convertValue_Err_http kind v e :
  convertValue kind v = Err e -> err_http e = Some StatusBadRequest.
Proof.
  destruct kind; simpl;
    try (intros [= <-]; reflexivity);
    try (intros He; apply bind_Err in He as [He | (a & _ & [=])];
         apply wrapErr_Err in He as (e0 & _ & ->); reflexivity);
    destruct (ParseFloat v); intros [= <-]; reflexivity.
Qed.

Lemma convertValues_Err_http kind values e :
  convertValues kind values = Err e -> err_http e = Some StatusBadRequest.
Proof.
  destruct kind; simpl;
    try (intros [= <-]; reflexivity);
    try (intros He; apply forEach_Err in He as (v & _ & He);
         exact (convertValue_Err_http _ _ _ He)).
  destruct values as [| v [| w r]].
  - discriminate.
  - rewrite convertString_total. discriminate.
  - rewrite (forEach_total _ _ _ (convertString_total VString)).
    discriminate.
Qed.

Lemma filterLoop_Err_http supported entries f0 e :
  filterLoop supported entries f0 = Err e ->
  err_http e = Some StatusBadRequest.
Proof.
  revert f0. induction entries as [| [name values] rest IH]; intros f0; simpl.
  - discriminate.
  - destruct (supported !! name) as [kind |].
    + destruct (isMetaParameter name); [apply IH |].
      intros He. apply bind_Err in He as [He | (s & _ & He)].
      * exact (convertValues_Err_http _ _ _ He).
      * exact (IH _ He).
    + intros [= <-]. reflexivity.
Qed.

Lemma sortLoop_Err_http supported values sortFields e :
  sortLoop supported values sortFields = Err e ->
  err_http e = Some StatusBadRequest.
Proof.
  revert sortFields.
  induction values as [| v rest IH]; intros sortFields; simpl.
  - discriminate.
  - destruct (supported !! _); [apply IH |]. intros [= <-]. reflexivity.
Qed.

Lemma CreateQuery_Err_http mq query e :
  snd (CreateQuery DefaultPageSize mq query) = Err e ->
  err_http e = Some StatusBadRequest.
Proof.
  unfold CreateQuery.
  destruct (createQueryFilter mq query) as [filterMap | e0 | m] eqn:Hfilter;
    simpl; [| intros [= <-]; exact (filterLoop_Err_http _ _ _ _ Hfilter)
            | discriminate].
  destruct (createSortFields mq query) as [sorted | e0 | m] eqn:Hsort;
    simpl; [| intros [= <-] | discriminate].
  - destruct (getUintDefault query "limit" DefaultPageSize)
      as [size | e0 | m]; simpl; [| intros [= <-]; reflexivity | discriminate].
    destruct (getUintDefault query "page" 1) as [current | e0 | m]; simpl;
      [| intros [= <-]; reflexivity | discriminate].
    destruct (current =? 0); simpl; [intros [= <-]; reflexivity | discriminate].
  - unfold createSortFields in Hsort.
    destruct (lookupValues query "sort"); [| discriminate].
    exact (sortLoop_Err_http _ _ _ _ Hsort).
Qed.

(** Every error [CreateQuery] returns carries the HTTP status 400, whichever
    step it comes from. *)
Theorem CreateQuery_error_status mq query e :
  snd (CreateQuery DefaultPageSize mq query) = Err e ->
  err_http e = Some StatusBadRequest.
Proof. apply CreateQuery_Err_http. Qed.

(** An error of [Run] carries the status 400 or the status 500, and 500
    only when the query was built, the count succeeded and fetching the
    documents failed. *)
Theorem Run_error_status {Content} (dataBase : Store Content) mq query e :
  snd (Run DefaultPageSize dataBase mq query) = Err e ->
  err_http e = Some StatusBadRequest
  \/ (err_http e = Some StatusInternalServerError
      /\ exists q items e0,
          snd (CreateQuery DefaultPageSize mq query) = Ok q
          /\ Count dataBase (mkQuery (collection q) (filter q) (selector q)
                                     (sortFields q) 0 0) = Ok items
          /\ All dataBase q = Err e0
          /\ err_cause e = err_cause e0).
Proof.
  unfold Run.
  pose proof (CreateQuery_Err_http mq query) as Hcreate.
  destruct (CreateQuery DefaultPageSize mq query) as [mq' [q | e0 | m]];
    simpl in *; [| intros [= <-]; left; apply Hcreate; reflexivity
                 | discriminate].
  destruct (Count dataBase _) as [items | e0 | m] eqn:Hcount; simpl;
    [| intros [= <-]; left; reflexivity | discriminate].
  destruct (All dataBase q) as [content | e0 | m] eqn:Hall; simpl;
    [discriminate | | discriminate].
  intros [= <-]. right. split; [reflexivity |].
  exists q, items, e0. repeat split; assumption.
Qed.

(** *** What a request changes in the builder *)

(** A request changes nothing in the builder but the size and the current
    number of its page: the struct, the registry, the override table and
    the disabled names are those before the call, and so are the items and
    the last page, which [Run] sets in the page of the response only.
    [Run] leaves the builder [CreateQuery] leaves. *)
Theorem request_keeps_registry {Content} (dataBase : Store Content) mq query :
  let mq' := fst (CreateQuery DefaultPageSize mq query) in
  fst (Run DefaultPageSize dataBase mq query) = mq'
  /\ endPointStruct mq' = endPointStruct mq
  /\ supportedParameters mq' = supportedParameters mq
  /\ additionalSupportedParamters mq' = additionalSupportedParamters mq
  /\ disabledParameters mq' = disabledParameters mq
  /\ Items (page mq') = Items (page mq)
  /\ Last (page mq') = Last (page mq).
Proof.
  split.
  - unfold Run.
    destruct (CreateQuery DefaultPageSize mq query) as [mq1 [q | e | m]];
      simpl; trivial.
    destruct (badRequest (Count dataBase _)); simpl; trivial.
    destruct (wrapErr _ (All dataBase q)); reflexivity.
  - unfold CreateQuery.
    destruct (createQueryFilter mq query); simpl; [| tauto | tauto].
    destruct (createSortFields mq query); simpl; [| tauto | tauto].
    destruct (getUintDefault query "limit" DefaultPageSize); simpl;
      [| tauto | tauto].
    destruct (getUintDefault query "page" 1) as [current | |]; simpl;
      [| tauto | tauto].
    destruct (current =? 0); simpl; tauto.
Qed.

Lemma CreateQuery_Ok mq query mq' q :
  CreateQuery DefaultPageSize mq query = (mq', Ok q) ->
  createQueryFilter mq query = Ok (filter q)
  /\ createSortFields mq query = Ok (sortFields q)
  /\ collection q = structName (endPointStruct mq)
  /\ Current (page mq') <> 0
  /\ limit q = intOfUint (Size (page mq'))
  /\ skip q = intOfUint (wrapUint ((Current (page mq') - 1)
                                   * Size (page mq'))).
Proof.
  unfold CreateQuery.
  destruct (createQueryFilter mq query) as [filterMap | |];
    [| intros [=] | intros [=]].
  destruct (createSortFields mq query) as [sorted | |];
    [| intros [=] | intros [=]].
  destruct (getUintDefault query "limit" DefaultPageSize) as [size | |];
    [| intros [=] | intros [=]].
  destruct (getUintDefault query "page" 1) as [current | |];
    [| intros [=] | intros [=]].
  destruct (Z.eqb_spec current 0) as [-> | Hnz]; intros [= <- <-]; simpl.
  repeat split; trivial.
Qed.

(** The query [CreateQuery] returns and the page it leaves in the builder
    agree: the query is on the collection named after the struct, with the
    filter of [createQueryFilter] and the sort list of [createSortFields];
    its limit is the page size and its skip the product (current - 1) *
    size, both as [uint] values read as [int]; the current page is not 0. *)
Theorem CreateQuery_query_of_page mq query mq' q :
  CreateQuery DefaultPageSize mq query = (mq', Ok q) ->
  createQueryFilter mq query = Ok (filter q)
  /\ createSortFields mq query = Ok (sortFields q)
  /\ collection q = structName (endPointStruct mq)
  /\ Current (page mq') <> 0
  /\ limit q = intOfUint (Size (page mq'))
  /\ skip q = intOfUint (wrapUint ((Current (page mq') - 1)
                                   * Size (page mq'))).
Proof. apply CreateQuery_Ok. Qed.

(** The response of [Run]: the documents are those of the query
    [CreateQuery] built, the count is asked of the same query with limit
    and skip 0, and the page has the size and the current number of the
    builder's page and the count as its items; for a count below 2^53 and
    a size above 0 its last page is the ceiling of items / size. *)
Theorem Run_response {Content} (dataBase : Store Content) mq query mq'
    response :
  Run DefaultPageSize dataBase mq query = (mq', Ok response) ->
  exists q items,
    CreateQuery DefaultPageSize mq query = (mq', Ok q)
    /\ Count dataBase (mkQuery (collection q) (filter q) (selector q)
                               (sortFields q) 0 0) = Ok items
    /\ All dataBase q = Ok (Content_ _ response)
    /\ Size (Page_ _ response) = Size (page mq')
    /\ Current (Page_ _ response) = Current (page mq')
    /\ Items (Page_ _ response) = uintOfInt items
    /\ (0 <= items < 2 ^ 53 -> 0 < Size (page mq') <= maxUint ->
        Last (Page_ _ response)
        = (items + Size (page mq') - 1) / Size (page mq')).
Proof.
  unfold Run.
  destruct (CreateQuery DefaultPageSize mq query) as [mq1 [q | e | m]];
    [| intros [=] | intros [=]].
  destruct (Count dataBase _) as [items | |] eqn:Hcount; simpl;
    [| intros [=] | intros [=]].
  destruct (All dataBase q) as [content | |] eqn:Hall; simpl;
    [| intros [=] | intros [=]].
  intros [= <- <-]. exists q, items. simpl.
  repeat split; trivial.
  intros Hitems Hsize. unfold uintOfInt.
  rewrite wrapUint_small by lia. apply lastPage_ceiling; assumption.
Qed.

(** Once the page is finalized with a count below 2^53, its current number
    is at most its last one exactly when the documents the query skips are
    fewer than the count: a page past the last one is a page that skips
    every document. *)
Theorem page_within_last p items :
  0 <= items < 2 ^ 53 -> 0 < Size p <= maxUint -> 1 <= Current p ->
  let finalized := calculateLastPage (setItems p (uintOfInt items)) in
  Current finalized <= Last finalized
  <-> (Current p - 1) * Size p < items.
Proof.
  intros Hitems Hsize Hcurrent finalized.
  assert (Hlast : Last finalized = (items + Size p - 1) / Size p).
  { unfold finalized, calculateLastPage, uintOfInt. simpl.
    rewrite wrapUint_small by lia. apply lastPage_ceiling; assumption. }
  change (Current finalized) with (Current p). rewrite Hlast.
  pose proof (ceiling_bracket items (Size p) ltac:(lia)) as Hn.
  cbv zeta in Hn. nia.
Qed.

(** *** The unsigned parameters *)

(** [getUint] of utils.go: a parameter that is absent gives 0 and [false];
    one that is present is read from its first value alone, whatever
    follows it: a base-10 unsigned integer of at most 64 bits gives that
    number (within the range of [uint]) and [true], anything else the
    InvalidValue error of that value, which carries no HTTP status. *)
Theorem getUint_first_value query param :
  (lookupValues query param = None -> getUint query param = Ok (0, false))
  /\ (forall v rest,
        lookupValues query param = Some (v :: rest) ->
        (forall u, strconv.ParseUint v = Ok u ->
                   getUint query param = Ok (u, true) /\ 0 <= u <= maxUint)
        /\ (forall e, strconv.ParseUint v = Err e ->
                      getUint query param
                      = Err (errors_New (InvalidValueFor v)))
        /\ (forall r, getUint query param = Ok r ->
                      snd r = true /\ strconv.ParseUint v = Ok (fst r))).
Proof.
  unfold getUint. split; [intros ->; reflexivity |].
  intros v rest ->. split; [| split].
  - intros u Hu. rewrite Hu. split; [reflexivity |].
    exact (ParseUint_range _ _ Hu).
  - intros e ->. reflexivity.
  - intros r. destruct (strconv.ParseUint v); intros [= <-].
    split; reflexivity.
Qed.

(** *** Disabled names and requests *)

Lemma filterLoop_unregistered supported entries name :
  name ∈ entries.*1 ->
  supported !! name = None ->
  forall f0, exists e, filterLoop supported entries f0 = Err e.
Proof.
  intros Hin Hnone.
  induction entries as [| [n values] rest IH]; intros f0; simpl in *.
  - inversion Hin.
  - destruct (supported !! n) as [kind |] eqn:Hkind; [| eauto].
    assert (Hrest : name ∈ rest.*1).
    { apply elem_of_cons in Hin as [-> | Hin]; [congruence | exact Hin]. }
    destruct (isMetaParameter n); [apply IH, Hrest |].
    pose proof (convertValues_returns kind values) as Hret.
    destruct (convertValues kind values) as [s | e | m]; simpl.
    + apply IH, Hrest.
    + eauto.
    + contradiction.
Qed.

(** What the comment of [DisableParameters] promises: after the call, a
    request that holds one of the names disabled gets an error, of status
    400, from [CreateQuery], which leaves the builder as it is.  This is so
    for the names the override table does not hold. *)
Theorem disabled_parameter_refused paramters mq mq' name query :
  mq' ∈ DisableParameters paramters mq ->
  name ∈ paramters ->
  additionalSupportedParamters mq !! name = None ->
  name ∈ query.*1 ->
  exists e, CreateQuery DefaultPageSize mq' query = (mq', Err e)
            /\ err_http e = Some StatusBadRequest.
Proof.
  intros Hmq Hname Hnone Hin.
  apply DisableParameters_elem_of in Hmq as (introspected & Hintro & ->).
  assert (Hdisabled : name ∈ appendNew (disabledParameters mq) paramters).
  { apply appendNew_elem_of. by right. }
  pose proof (createValidParametersMap_disabled _ _ Hdisabled _ _ Hintro)
    as Habsent.
  set (mq' := mkMongoQuery _ _ _ _ _).
  assert (Hsupported : supportedParameters mq' !! name = None).
  { apply lookup_union_None. split; assumption. }
  destruct (filterLoop_unregistered _ _ _ Hin Hsupported ∅) as [e He].
  exists e. split.
  - unfold CreateQuery, createQueryFilter. rewrite He. reflexivity.
  - exact (filterLoop_Err_http _ _ _ _ He).
Qed.

(** *** The calls on the registry *)

Lemma union_absorb (m1 m2 m3 : gmap string Kind) :
  (forall x, is_Some (m2 !! x) -> is_Some (m1 !! x)) ->
  m1 ∪ (m2 ∪ m3) = m1 ∪ m3.
Proof.
  intros Hsub. apply map_eq. intros x. rewrite !lookup_union.
  specialize (Hsub x).
  destruct (m1 !! x), (m2 !! x), (m3 !! x); simpl; try reflexivity;
    destruct Hsub as [? [=]]; eauto.
Qed.

Lemma appendNew_app paramters : forall disabled more,
  appendNew disabled (paramters ++ more)%list
  = appendNew (appendNew disabled paramters) more.
Proof.
  induction paramters as [| p rest IH]; intros disabled more; simpl.
  - reflexivity.
  - destruct (contains disabled p); simpl; apply IH.
Qed.

Lemma appendNew_NoDup paramters : forall disabled,
  NoDup disabled -> NoDup (appendNew disabled paramters).
Proof.
  induction paramters as [| p rest IH]; intros disabled Hnodup; simpl.
  - exact Hnodup.
  - destruct (contains disabled p) eqn:Hp; simpl; [apply IH, Hnodup |].
    apply IH. apply NoDup_app. split; [exact Hnodup |]. split.
    + intros x Hx ->%list_elem_of_singleton.
      apply contains_false in Hp. contradiction.
    + apply NoDup_singleton.
Qed.

(** Two calls of [DisableParameters] in a row leave what one call with the
    names of both leaves. *)
Theorem DisableParameters_split (first second : list string) mq mq1 :
  mq1 ∈ DisableParameters first mq ->
  DisableParameters second mq1
  = DisableParameters (first ++ second)%list mq.
Proof.
  intros Hmq1.
  apply DisableParameters_elem_of in Hmq1 as (introspected & _ & ->).
  unfold DisableParameters. simpl. rewrite appendNew_app. reflexivity.
Qed.

(** [AddOrOverwriteValidParameter] and [DisableParameters] can be called in
    either order, and so can two calls of [AddOrOverwriteValidParameter]
    on different names: the builders left are the same. *)
Theorem registry_calls_commute mq paramters name value :
  DisableParameters paramters (AddOrOverwriteValidParameter name value mq)
  = (mq1 ← DisableParameters paramters mq;
     [AddOrOverwriteValidParameter name value mq1])
  /\ (forall name' value', name <> name' ->
        AddOrOverwriteValidParameter name value
          (AddOrOverwriteValidParameter name' value' mq)
        = AddOrOverwriteValidParameter name' value'
            (AddOrOverwriteValidParameter name value mq)).
Proof.
  split.
  - unfold DisableParameters. simpl.
    induction (createValidParametersMap (endPointStruct mq)
                 (appendNew (disabledParameters mq) paramters))
      as [| introspected rest IH]; [reflexivity |].
    rewrite !bind_cons, IH. simpl. f_equal.
    unfold AddOrOverwriteValidParameter. simpl. f_equal.
    rewrite !copyInto_union. symmetry. apply union_absorb.
    intros x Hx. apply lookup_insert_is_Some.
    destruct (decide (name = x)); [by left | by right].
  - intros name' value' Hne. unfold AddOrOverwriteValidParameter. simpl.
    rewrite !copyInto_union.
    rewrite (insert_insert_ne (additionalSupportedParamters mq) name name')
      by exact Hne.
    f_equal.
    rewrite !union_absorb; [reflexivity | |];
      intros x; rewrite !lookup_insert_is_Some'; tauto.
Qed.

Lemma callsOn_disabled calls : forall mq mq',
  NoDup (disabledParameters mq) ->
  mq' ∈ callsOn calls mq ->
  NoDup (disabledParameters mq')
  /\ forall x,
      x ∈ disabledParameters mq'
      <-> x ∈ disabledParameters mq
          \/ exists paramters, Disable paramters ∈ calls /\ x ∈ paramters.
Proof.
  induction calls as [| call rest IH]; intros mq mq' Hnodup; simpl.
  - intros ->%list_elem_of_singleton. split; [exact Hnodup |].
    intros x. split; [by left |].
    intros [? | (ps & Hin & _)]; [assumption | inversion Hin].
  - intros (mq1 & Hmq' & Hmq1)%list_elem_of_bind.
    destruct call as [paramters | name value]; simpl in Hmq1.
    + apply DisableParameters_elem_of in Hmq1 as (introspected & _ & ->).
      apply IH in Hmq' as [Hnodup' Hiff];
        [| exact (appendNew_NoDup paramters _ Hnodup)].
      split; [exact Hnodup' |]. intros x. rewrite (Hiff x). simpl.
      rewrite appendNew_elem_of. split.
      * intros [[? | Hx] | (ps & Hin & Hx)]; [by left | right | right].
        -- exists paramters. split; [left | exact Hx].
        -- exists ps. split; [by right | exact Hx].
      * intros [? | (ps & Hin & Hx)]; [by left; left |].
        apply elem_of_cons in Hin as [[= ->] | Hin]; [by left; right |].
        right. exists ps. split; assumption.
    + apply list_elem_of_singleton in Hmq1 as ->.
      apply IH in Hmq' as [Hnodup' Hiff]; [| exact Hnodup].
      split; [exact Hnodup' |]. intros x. rewrite (Hiff x). simpl.
      split.
      * intros [? | (ps & Hin & Hx)]; [by left | right].
        exists ps. split; [by right | exact Hx].
      * intros [? | (ps & Hin & Hx)]; [by left |].
        apply elem_of_cons in Hin as [[=] | Hin].
        right. exists ps. split; assumption.
Qed.

(** The disabled names of a builder are the names given to
    [DisableParameters] since it was made, and no other; none is held
    twice, however often it was given. *)
Theorem disabled_names_exact endPoint calls mq0 mq :
  mq0 ∈ NewMongoQuery endPoint ->
  mq ∈ callsOn calls mq0 ->
  NoDup (disabledParameters mq)
  /\ forall x,
      x ∈ disabledParameters mq
      <-> exists paramters, Disable paramters ∈ calls /\ x ∈ paramters.
Proof.
  intros Hnew Hcalls.
  assert (Hempty : disabledParameters mq0 = []).
  { unfold NewMongoQuery in Hnew.
    apply list_elem_of_bind in Hnew as (m & ->%list_elem_of_singleton & _).
    reflexivity. }
  assert (Hnodup : NoDup (disabledParameters mq0)).
  { rewrite Hempty. apply NoDup_nil_2. }
  destruct (callsOn_disabled _ _ _ Hnodup Hcalls) as [Hnodup' Hiff].
  split; [exact Hnodup' |]. intros x. rewrite (Hiff x), Hempty.
  split; [| by right]. intros [Hin | ?]; [inversion Hin | assumption].
Qed.

(** On a builder made by [NewMongoQuery] and the calls that followed,
    [AddOrOverwriteValidParameter] changes the entry of its name in the
    registry and no other entry. *)
Theorem AddOrOverwriteValidParameter_registry endPoint calls mq0 mq name
    value :
  mq0 ∈ NewMongoQuery endPoint ->
  mq ∈ callsOn calls mq0 ->
  supportedParameters (AddOrOverwriteValidParameter name value mq)
  = <[name := value]> (supportedParameters mq).
Proof.
  intros Hnew Hcalls.
  destruct (callsOn_state _ _ _ (registryInv_new _ _ Hnew) Hcalls)
    as ((introspected & _ & Hsupported) & _).
  unfold AddOrOverwriteValidParameter. simpl.
  rewrite copyInto_union, Hsupported.
  rewrite union_absorb.
  - symmetry. apply insert_union_l.
  - intros x. rewrite lookup_insert_is_Some'. tauto.
Qed.

(** *** The helpers of utils.go *)

Lemma newSetFromSlice_elem_of slice x :
  x ∈ newSetFromSlice slice <-> x ∈ slice.
Proof.
  unfold newSetFromSlice.
  assert (Hfold : forall (s : gset string),
             x ∈ foldl (fun s e => {[ e ]} ∪ s) s slice
             <-> x ∈ s \/ x ∈ slice).
  { induction slice as [| e rest IH]; intros s; simpl.
    - rewrite elem_of_nil. tauto.
    - rewrite IH, elem_of_union, elem_of_singleton, elem_of_cons. tauto. }
  rewrite Hfold, elem_of_empty. tauto.
Qed.

(** [contains] and [newSetFromSlice] agree on what a slice holds: a value
    is found by [contains] exactly when it is an element of the set, and
    that is when it occurs in the slice. *)
Theorem contains_newSetFromSlice list value :
  (contains list value = true <-> value ∈ newSetFromSlice list)
  /\ (value ∈ newSetFromSlice list <-> value ∈ list).
Proof.
  split; [| apply newSetFromSlice_elem_of].
  rewrite newSetFromSlice_elem_of. apply contains_elem_of.
Qed.

(** *** Names from tags, in general *)

Lemma nameTokens_elem_of text x :
  x ∈ nameTokens text
  <-> x ∈ strings.SplitByte text "," /\ x ∉ mongoTags.
Proof.
  unfold nameTokens, mapset.Difference.
  rewrite elem_of_difference, !newSetFromSlice_elem_of. reflexivity.
Qed.

Lemma firstOfDiff_elem_of text otherwise x :
  x ∈ firstOfDiff text otherwise
  <-> x ∈ nameTokens text \/ (nameTokens text = ∅ /\ x ∈ otherwise).
Proof.
  unfold firstOfDiff, mapset.ToSlice. fold (nameTokens text).
  set (tokens := nameTokens text). split.
  - intros (counted & Hx & Hcounted)%list_elem_of_bind.
    apply permutations_Permutation in Hcounted.
    destruct counted as [| c0 cs]; simpl in Hx.
    + right. split; [| exact Hx].
      apply Permutation_nil_r in Hcounted.
      apply leibniz_equiv, elements_empty_iff, Hcounted.
    + left. change (0 <? Z.of_nat (S (length cs))) with true in Hx.
      apply list_elem_of_bind in Hx as (slice & Hx & Hslice).
      apply permutations_Permutation in Hslice.
      destruct slice as [| first rest]; [inversion Hx |].
      apply list_elem_of_singleton in Hx as ->.
      apply elem_of_elements. rewrite Hslice. left.
  - intros [Hx | [Hempty Hx]].
    + apply elem_of_elements, elem_of_Permutation in Hx as [k Hk].
      apply list_elem_of_bind. exists (x :: k).
      split; [| apply permutations_Permutation, Hk].
      change (0 <? Z.of_nat (length (x :: k))) with true. cbv iota.
      apply list_elem_of_bind. exists (x :: k).
      split; [apply list_elem_of_here |].
      apply permutations_Permutation, Hk.
    + rewrite Hempty, elements_empty. simpl.
      rewrite app_nil_r. exact Hx.
Qed.

(** The names [getFieldNameFromTag] can return.  With a bson value of more
    than one byte that has a token that is no directive of mgo
    ([omitempty], [minsize], [inline]), it is any one of those tokens;
    otherwise it is the empty string for a tag with a colon, and for a tag
    without one any of its tokens that is no directive, or the empty string
    when there is none.  A directive is never returned. *)
Theorem getFieldNameFromTag_outcomes tag name :
  let bson := StructTag.Get tag "bson" in
  (name ∈ getFieldNameFromTag tag
   <-> (1 < len bson /\ name ∈ nameTokens bson)
       \/ ((len bson <= 1 \/ nameTokens bson = ∅) /\ plainName tag name))
  /\ (forall text x,
        x ∈ nameTokens text
        <-> x ∈ strings.SplitByte text "," /\ x ∉ mongoTags)
  /\ (name ∈ getFieldNameFromTag tag -> name ∉ mongoTags).
Proof.
  intros bson.
  assert (Hplain : forall x,
             x ∈ (if strings.ContainsByte tag ":" then [EmptyString]
                  else firstOfDiff tag [EmptyString])
             <-> plainName tag x).
  { intros x. unfold plainName.
    destruct (strings.ContainsByte tag ":").
    - apply list_elem_of_singleton.
    - rewrite firstOfDiff_elem_of, list_elem_of_singleton. reflexivity. }
  assert (Hiff : name ∈ getFieldNameFromTag tag
                 <-> (1 < len bson /\ name ∈ nameTokens bson)
                     \/ ((len bson <= 1 \/ nameTokens bson = ∅)
                         /\ plainName tag name)).
  { unfold getFieldNameFromTag. fold bson.
    destruct (Z.ltb_spec 1 (len bson)) as [Hlen | Hlen].
    - rewrite firstOfDiff_elem_of, Hplain. split.
      + intros [? | [? ?]]; [left | right]; tauto.
      + intros [[_ ?] | [[? | ?] ?]]; [tauto | lia | tauto].
    - rewrite Hplain. split; [tauto |].
      intros [[? _] | [_ ?]]; [lia | assumption]. }
  split; [exact Hiff |]. split; [apply nameTokens_elem_of |].
  intros Hname. apply Hiff in Hname as [[_ Hname] | [_ Hname]].
  - apply nameTokens_elem_of in Hname. tauto.
  - unfold plainName in Hname.
    destruct (strings.ContainsByte tag ":").
    + subst. intros Hin. vm_compute in Hin.
      repeat (apply elem_of_cons in Hin as [[=] | Hin]). inversion Hin.
    + destruct Hname as [Hname | [_ ->]].
      * apply nameTokens_elem_of in Hname. tauto.
      * intros Hin.
        repeat (apply elem_of_cons in Hin as [[=] | Hin]). inversion Hin.
Qed.

(** *** The registry the introspection builds *)

Lemma addMetaParameters_lookup disabled m key :
  addMetaParameters disabled m !! key
  = match validMetaParameters !! key with
    | Some kind => if contains disabled key then m !! key else Some kind
    | None => m !! key
    end.
Proof.
  unfold addMetaParameters.
  apply (map_fold_weak_ind
           (fun r (meta : gmap string Kind) =>
              r !! key = match meta !! key with
                         | Some kind =>
                             if contains disabled key then m !! key
                             else Some kind
                         | None => m !! key
                         end)).
  - rewrite lookup_empty. reflexivity.
  - intros i x meta r Hfresh Hr.
    destruct (decide (i = key)) as [-> | Hne].
    + rewrite lookup_insert_eq. rewrite Hfresh in Hr.
      destruct (contains disabled key); simpl; [exact Hr |].
      apply lookup_insert_eq.
    + rewrite (lookup_insert_ne meta) by exact Hne.
      destruct (contains disabled i); simpl; [exact Hr |].
      rewrite lookup_insert_ne by exact Hne. exact Hr.
Qed.

Lemma introspectedEntry_mono disabled (fields fields' : list (StructField GoType))
    key kind :
  (forall field, field ∈ fields -> field ∈ fields') ->
  introspectedEntry disabled fields key kind ->
  introspectedEntry disabled fields' key kind.
Proof.
  intros Hsub [Hkey [Hmeta | (field & Hin & Hname & Hkind)]].
  - split; [exact Hkey | by left].
  - split; [exact Hkey |]. right. exists field. auto.
Qed.

Lemma structFieldsLoop_sound disabled nested leaves fields :
  Forall (fun field =>
            match Type_ field with
            | StructOf _ _ =>
                forall m key kind,
                  m ∈ nested (Type_ field) -> m !! key = Some kind ->
                  introspectedEntry disabled (leaves (Type_ field)) key kind
            | _ => True
            end)
         fields ->
  forall acc m key kind,
    m ∈ structFieldsLoop disabled nested fields acc ->
    m !! key = Some kind ->
    acc !! key = Some kind
    \/ introspectedEntry disabled (leafFieldsLoop leaves fields) key kind.
Proof.
  induction 1 as [| field rest Hfield _ IH]; intros acc m key kind.
  - simpl. intros ->%list_elem_of_singleton. by left.
  - simpl. intros (tagName & Hm & HtagName)%list_elem_of_bind Hkey.
    set (fieldName := if len tagName =? 0 then strings.ToLower (Name field)
                      else tagName) in Hm.
    assert (Hnames : fieldName ∈ fieldNames field).
    { unfold fieldNames. apply list_elem_of_bind. exists tagName.
      split; [apply list_elem_of_here | exact HtagName]. }
    assert (Hlater :
              introspectedEntry disabled (leafFieldsLoop leaves rest) key kind ->
              introspectedEntry disabled
                (match Type_ field with
                 | StructOf _ _ => leaves (Type_ field)
                 | _ => [field]
                 end ++ leafFieldsLoop leaves rest)%list key kind).
    { apply introspectedEntry_mono. intros f Hf. apply elem_of_app. by right. }
    assert (Hleaf : forall valueKind,
               match Type_ field with
               | StructOf _ _ => False
               | _ => True
               end ->
               valueKind = fieldKind field ->
               m ∈ (if negb (contains disabled fieldName)
                    then structFieldsLoop disabled nested rest
                           (<[fieldName := valueKind]> acc)
                    else structFieldsLoop disabled nested rest acc) ->
               acc !! key = Some kind
               \/ introspectedEntry disabled
                    (match Type_ field with
                     | StructOf _ _ => leaves (Type_ field)
                     | _ => [field]
                     end ++ leafFieldsLoop leaves rest)%list key kind).
    { intros valueKind Hty HvalueKind Hloop.
      destruct (contains disabled fieldName) eqn:Hc; simpl in Hloop.
      - destruct (IH _ _ _ _ Hloop Hkey) as [? | ?]; [by left | right; auto].
      - destruct (IH _ _ _ _ Hloop Hkey) as [Hacc | ?]; [| right; auto].
        destruct (decide (fieldName = key)) as [<- | Hne].
        + rewrite lookup_insert_eq in Hacc. injection Hacc as <-.
          right. split; [apply contains_false, Hc |]. right.
          exists field. split; [| split; assumption].
          apply elem_of_app. left.
          destruct (Type_ field); [left | left | left | contradiction].
        + rewrite lookup_insert_ne in Hacc by exact Hne. by left. }
    destruct (Type_ field) as [k | elem | elem | sname sfields] eqn:Hty.
    1-3: refine (Hleaf _ I _ Hm); unfold fieldKind; rewrite Hty;
      reflexivity.
    apply list_elem_of_bind in Hm as (nestedMap & Hm & Hnested).
    destruct (IH _ _ _ _ Hm Hkey) as [Hacc | ?]; [| right; auto].
    rewrite copyInto_union in Hacc.
    apply lookup_union_Some_raw in Hacc as [Hacc | [_ Hacc]]; [| by left].
    right. eapply introspectedEntry_mono;
      [| exact (Hfield _ _ _ Hnested Hacc)].
    intros f Hf. apply elem_of_app. by left.
Qed.

Lemma createValidParametersMap_struct sname fields disabled :
  createValidParametersMap (StructOf sname fields) disabled
  = (validParametersMap ←
       structFieldsLoop disabled
         (fun value => createValidParametersMap value disabled) fields ∅;
     [addMetaParameters disabled validParametersMap]).
Proof. reflexivity. Qed.

(** A case analysis on the argument of [createValidParametersMap]: what
    holds for the structs, given it for the types of their fields, holds
    for every map the function returns. *)
Lemma createValidParametersMap_cases disabled
    (P : GoType -> gmap string Kind -> Prop) :
  (forall sname fields,
      Forall (fun field =>
                match Type_ field with
                | StructOf _ _ =>
                    forall m,
                      m ∈ createValidParametersMap (Type_ field) disabled ->
                      P (Type_ field) m
                | _ => True
                end) fields ->
      forall m, m ∈ createValidParametersMap (StructOf sname fields) disabled ->
                P (StructOf sname fields) m) ->
  forall t m, m ∈ createValidParametersMap t disabled -> P (derefType t) m.
Proof.
  intros Hstruct.
  assert (Hall : forall t,
             match t with
             | StructOf _ _ =>
                 forall m, m ∈ createValidParametersMap t disabled -> P t m
             | _ => True
             end).
  { induction t as [k | elem _ | elem _ | sname fields IH]
      using GoType_fields_ind; trivial.
    apply Hstruct. exact IH. }
  intros [k | [k | e | e | sname fields] | elem | sname fields] m Hm;
    try (inversion Hm; fail).
  - exact (Hall (StructOf sname fields) m Hm).
  - exact (Hall (StructOf sname fields) m Hm).
Qed.

(** Where the entries of the registry come from.  In every map
    [createValidParametersMap] returns, a key is no disabled name, and it
    is a meta-parameter with its kind, or a name of a field of the struct
    or of one of the structs in it, with the kind of that field: the
    element kind for a slice, the kind of the type otherwise. *)
Theorem createValidParametersMap_sound disabled t m key kind :
  m ∈ createValidParametersMap t disabled ->
  m !! key = Some kind ->
  (key ∉ disabled)
  /\ (validMetaParameters !! key = Some kind
      \/ exists field,
          field ∈ leafFields (derefType t)
          /\ key ∈ fieldNames field
          /\ kind = fieldKind field).
Proof.
  intros Hm. revert key kind.
  change (forall key kind, m !! key = Some kind ->
            introspectedEntry disabled (leafFields (derefType t)) key kind).
  revert t m Hm.
  apply (createValidParametersMap_cases disabled
           (fun t m => forall key kind, m !! key = Some kind ->
                         introspectedEntry disabled (leafFields t) key kind)).
  intros sname fields Hfields m Hm key kind Hkey.
  rewrite createValidParametersMap_struct in Hm.
  apply list_elem_of_bind in Hm
      as (valid & ->%list_elem_of_singleton & Hvalid).
  rewrite addMetaParameters_lookup in Hkey.
  assert (Hfrom : valid !! key = Some kind ->
                  introspectedEntry disabled
                    (leafFields (StructOf sname fields)) key kind).
  { intros Hv.
    assert (Hnested :
              Forall (fun field =>
                        match Type_ field with
                        | StructOf _ _ =>
                            forall m key kind,
                              m ∈ createValidParametersMap (Type_ field)
                                    disabled ->
                              m !! key = Some kind ->
                              introspectedEntry disabled
                                (leafFields (Type_ field)) key kind
                        | _ => True
                        end) fields).
    { eapply Forall_impl; [exact Hfields |].
      intros field. cbv beta. destruct (Type_ field); trivial.
      intros Hf m' key' kind' Hm'. exact (Hf m' Hm' key' kind'). }
    destruct (structFieldsLoop_sound disabled _ leafFields fields Hnested
                ∅ valid key kind Hvalid Hv) as [Hacc | ?];
      [rewrite lookup_empty in Hacc; discriminate | assumption]. }
  destruct (validMetaParameters !! key) as [metaKind |] eqn:Hmeta;
    [| exact (Hfrom Hkey)].
  destruct (contains disabled key) eqn:Hc; [exact (Hfrom Hkey) |].
  injection Hkey as <-. split; [apply contains_false, Hc | by left].
Qed.

Lemma structFieldsLoop_grows disabled nested fields key :
  forall acc m,
    m ∈ structFieldsLoop disabled nested fields acc ->
    is_Some (acc !! key) -> is_Some (m !! key).
Proof.
  induction fields as [| field rest IH]; intros acc m; simpl.
  - intros ->%list_elem_of_singleton. trivial.
  - intros (tagName & Hm & _)%list_elem_of_bind Hacc.
    set (fieldName := if len tagName =? 0 then strings.ToLower (Name field)
                      else tagName) in Hm.
    assert (Hins : forall valueKind,
               is_Some (<[fieldName := valueKind]> acc !! key)).
    { intros valueKind. apply lookup_insert_is_Some'. by right. }
    destruct (Type_ field) as [k | elem | elem | sname sfields].
    1-3: destruct (contains disabled fieldName); simpl in Hm; eauto.
    apply list_elem_of_bind in Hm as (nestedMap & Hm & _).
    apply (IH _ _ Hm). rewrite copyInto_union.
    apply lookup_union_is_Some. by right.
Qed.

Lemma addMetaParameters_grows disabled m key :
  is_Some (m !! key) -> is_Some (addMetaParameters disabled m !! key).
Proof.
  intros Hm. rewrite addMetaParameters_lookup.
  destruct (validMetaParameters !! key); [| exact Hm].
  destruct (contains disabled key); [exact Hm | eauto].
Qed.

Lemma structFieldsLoop_complete disabled nested leaves fields :
  Forall (fun field =>
            match Type_ field with
            | StructOf _ _ =>
                forall m leaf,
                  m ∈ nested (Type_ field) -> leaf ∈ leaves (Type_ field) ->
                  exists name, name ∈ fieldNames leaf
                               /\ (name ∈ disabled \/ is_Some (m !! name))
            | _ => True
            end)
         fields ->
  forall acc m leaf,
    m ∈ structFieldsLoop disabled nested fields acc ->
    leaf ∈ leafFieldsLoop leaves fields ->
    exists name, name ∈ fieldNames leaf
                 /\ (name ∈ disabled \/ is_Some (m !! name)).
Proof.
  induction 1 as [| field rest Hfield _ IH]; intros acc m leaf.
  - simpl. intros _ Hleaf. inversion Hleaf.
  - simpl. intros (tagName & Hm & HtagName)%list_elem_of_bind Hleaf.
    set (fieldName := if len tagName =? 0 then strings.ToLower (Name field)
                      else tagName) in Hm.
    assert (Hnames : fieldName ∈ fieldNames field).
    { unfold fieldNames. apply list_elem_of_bind. exists tagName.
      split; [apply list_elem_of_here | exact HtagName]. }
    apply elem_of_app in Hleaf.
    assert (Hhere : forall valueKind,
               m ∈ (if negb (contains disabled fieldName)
                    then structFieldsLoop disabled nested rest
                           (<[fieldName := valueKind]> acc)
                    else structFieldsLoop disabled nested rest acc) ->
               leaf ∈ [field] \/ leaf ∈ leafFieldsLoop leaves rest ->
               exists name, name ∈ fieldNames leaf
                            /\ (name ∈ disabled \/ is_Some (m !! name))).
    { intros valueKind Hloop [->%list_elem_of_singleton | Hrest].
      - exists fieldName. split; [exact Hnames |].
        destruct (contains disabled fieldName) eqn:Hc; simpl in Hloop.
        + left. apply contains_elem_of, Hc.
        + right. apply (structFieldsLoop_grows _ _ _ _ _ _ Hloop).
          apply lookup_insert_is_Some'. by left.
      - destruct (contains disabled fieldName); simpl in Hloop; eauto. }
    destruct (Type_ field) as [k | elem | elem | sname sfields]; eauto.
    apply list_elem_of_bind in Hm as (nestedMap & Hm & Hnested).
    destruct Hleaf as [Hleaf | Hleaf]; [| eauto].
    destruct (Hfield _ _ Hnested Hleaf) as (name & Hname & [Hd | Hsome]).
    + exists name. split; [exact Hname | by left].
    + exists name. split; [exact Hname | right].
      apply (structFieldsLoop_grows _ _ _ _ _ _ Hm).
      rewrite copyInto_union. apply lookup_union_is_Some. by left.
Qed.

(** What the registry holds.  In every map [createValidParametersMap]
    returns, each meta-parameter that is not disabled has its own kind,
    whatever the fields are called, and each field that is no struct, of
    the struct or of a struct in it, is there under one of its names unless
    that name is disabled. *)
Theorem createValidParametersMap_complete disabled t m :
  m ∈ createValidParametersMap t disabled ->
  (forall key kind,
      validMetaParameters !! key = Some kind -> key ∉ disabled ->
      m !! key = Some kind)
  /\ (forall field,
        field ∈ leafFields (derefType t) ->
        exists name, name ∈ fieldNames field
                     /\ (name ∈ disabled \/ is_Some (m !! name))).
Proof.
  revert t m.
  apply (createValidParametersMap_cases disabled
           (fun t m =>
              (forall key kind,
                  validMetaParameters !! key = Some kind -> key ∉ disabled ->
                  m !! key = Some kind)
              /\ (forall field,
                    field ∈ leafFields t ->
                    exists name, name ∈ fieldNames field
                                 /\ (name ∈ disabled \/ is_Some (m !! name))))).
  intros sname fields Hfields m Hm.
  rewrite createValidParametersMap_struct in Hm.
  apply list_elem_of_bind in Hm
      as (valid & ->%list_elem_of_singleton & Hvalid).
  split.
  - intros key kind Hmeta Hkey. rewrite addMetaParameters_lookup, Hmeta.
    apply contains_false in Hkey. rewrite Hkey. reflexivity.
  - intros field Hfield.
    assert (Hnested :
              Forall (fun field =>
                        match Type_ field with
                        | StructOf _ _ =>
                            forall m leaf,
                              m ∈ createValidParametersMap (Type_ field)
                                    disabled ->
                              leaf ∈ leafFields (Type_ field) ->
                              exists name,
                                name ∈ fieldNames leaf
                                /\ (name ∈ disabled \/ is_Some (m !! name))
                        | _ => True
                        end) fields).
    { eapply Forall_impl; [exact Hfields |].
      intros f. cbv beta. destruct (Type_ f); trivial.
      intros Hf m' leaf Hm' Hleaf. exact (proj2 (Hf m' Hm') leaf Hleaf). }
    destruct (structFieldsLoop_complete disabled _ leafFields fields Hnested
                ∅ valid field Hvalid Hfield)
      as (name & Hname & [Hd | Hsome]).
    + exists name. split; [exact Hname | by left].
    + exists name. split; [exact Hname | right].
      apply addMetaParameters_grows, Hsome.
Qed.

Lemma structFieldsLoop_ext disabled disabled' nested nested' fields :
  (forall x, contains disabled x = contains disabled' x) ->
  Forall (fun field =>
            match Type_ field with
            | StructOf _ _ => nested (Type_ field) = nested' (Type_ field)
            | _ => True
            end) fields ->
  forall acc,
    structFieldsLoop disabled nested fields acc
    = structFieldsLoop disabled' nested' fields acc.
Proof.
  intros Hsame. induction 1 as [| field rest Hfield _ IH]; intros acc; simpl.
  - reflexivity.
  - apply list_bind_ext; [| reflexivity]. intros tagName.
    rewrite Hsame.
    destruct (Type_ field) as [k | elem | elem | sname sfields];
      rewrite ?IH; try reflexivity.
    rewrite Hfield. apply list_bind_ext; [| reflexivity].
    intros nestedMap. apply IH.
Qed.

(** The maps [createValidParametersMap] can return depend on which names
    are disabled, not on their order or on how often one is listed. *)
Theorem createValidParametersMap_disabled_set disabled disabled' t :
  (forall x, x ∈ disabled <-> x ∈ disabled') ->
  createValidParametersMap t disabled = createValidParametersMap t disabled'.
Proof.
  intros Hset.
  assert (Hsame : forall x, contains disabled x = contains disabled' x).
  { intros x. destruct (contains disabled' x) eqn:Hc.
    - apply contains_elem_of, Hset, contains_elem_of, Hc.
    - apply contains_false. rewrite Hset. apply contains_false, Hc. }
  assert (Hall : forall t,
             match t with
             | StructOf _ _ =>
                 createValidParametersMap t disabled
                 = createValidParametersMap t disabled'
             | _ => True
             end).
  { induction t0 as [k | elem _ | elem _ | sname fields IH]
      using GoType_fields_ind; trivial.
    rewrite !createValidParametersMap_struct.
    rewrite (structFieldsLoop_ext disabled disabled' _
               (fun value => createValidParametersMap value disabled')
               fields Hsame IH).
    apply list_bind_ext; [| reflexivity]. intros valid. f_equal.
    apply map_eq. intros key. rewrite !addMetaParameters_lookup, Hsame.
    reflexivity. }
  destruct t as [k | [k | e | e | sname fields] | elem | sname fields];
    try reflexivity.
  - exact (Hall (StructOf sname fields)).
  - exact (Hall (StructOf sname fields)).
Qed.

Lemma structFieldsLoop_single disabled nested allNested fields :
  Forall (fun field =>
            match Type_ field with
            | StructOf _ _ =>
                Forall (fun f => exists name,
                            getFieldNameFromTag (Tag f) = [name])
                       (allNested (Type_ field)) ->
                exists m, nested (Type_ field) = [m]
            | _ => True
            end) fields ->
  Forall (fun f => exists name, getFieldNameFromTag (Tag f) = [name])
         (allFieldsLoop allNested fields) ->
  forall acc, exists m, structFieldsLoop disabled nested fields acc = [m].
Proof.
  induction 1 as [| field rest Hfield _ IH]; intros Hsingle acc; simpl.
  - eauto.
  - simpl in Hsingle.
    apply Forall_cons in Hsingle as [[name Hname] Hsingle].
    apply Forall_app in Hsingle as [Hinner Hrest].
    rewrite Hname, bind_singleton.
    destruct (Type_ field) as [k | elem | elem | sname sfields].
    1-3: destruct (contains disabled _); simpl; apply IH, Hrest.
    destruct (Hfield Hinner) as [nestedMap ->].
    rewrite bind_singleton. apply IH, Hrest.
Qed.

(** When every tag of the struct, and of the structs in it, leaves one
    name to choose, the registry is determined: [createValidParametersMap]
    has one result for each list of disabled names, and [NewMongoQuery]
    makes one builder. *)
Theorem createValidParametersMap_deterministic t :
  unambiguous t ->
  (exists sname fields, derefType t = StructOf sname fields) ->
  (forall disabled, exists m, createValidParametersMap t disabled = [m])
  /\ exists mq, NewMongoQuery t = [mq].
Proof.
  intros Hunambiguous (sname & fields & Hstruct).
  assert (Hall : forall disabled t,
             match t with
             | StructOf _ _ =>
                 Forall (fun f => exists name,
                             getFieldNameFromTag (Tag f) = [name])
                        (allFields t) ->
                 exists m, createValidParametersMap t disabled = [m]
             | _ => True
             end).
  { intros disabled.
    induction t0 as [k | elem _ | elem _ | sname' fields' IH]
      using GoType_fields_ind; trivial.
    intros Hsingle. rewrite createValidParametersMap_struct.
    destruct (structFieldsLoop_single disabled
                (fun value => createValidParametersMap value disabled)
                allFields fields' IH Hsingle ∅) as [valid ->].
    rewrite bind_singleton. eauto. }
  assert (Hmaps : forall disabled,
             exists m, createValidParametersMap t disabled = [m]).
  { intros disabled. unfold unambiguous in Hunambiguous.
    rewrite Hstruct in Hunambiguous.
    pose proof (Hall disabled (StructOf sname fields) Hunambiguous) as Hm.
    destruct t as [k | elem | elem | sname' fields']; simpl in Hstruct;
      try discriminate; try (injection Hstruct as -> ->); subst;
      exact Hm. }
  split; [exact Hmaps |].
  destruct (Hmaps []) as [m Hm].
  unfold NewMongoQuery. rewrite Hm, bind_singleton. eauto.
Qed.

Lemma firstOfDiff_inhabited text otherwise :
  (exists x, x ∈ otherwise) -> exists x, x ∈ firstOfDiff text otherwise.
Proof.
  intros [y Hy].
  destruct (set_choose_or_empty (nameTokens text)) as [[x Hx] | Hempty].
  - exists x. apply firstOfDiff_elem_of. by left.
  - exists y. apply firstOfDiff_elem_of. right.
    split; [apply leibniz_equiv, Hempty | exact Hy].
Qed.

Lemma getFieldNameFromTag_inhabited tag :
  exists name, name ∈ getFieldNameFromTag tag.
Proof.
  unfold getFieldNameFromTag.
  assert (Hplain : exists x,
             x ∈ (if strings.ContainsByte tag ":" then [EmptyString]
                  else firstOfDiff tag [EmptyString])).
  { destruct (strings.ContainsByte tag ":").
    - exists EmptyString. apply list_elem_of_here.
    - apply firstOfDiff_inhabited. exists EmptyString.
      apply list_elem_of_here. }
  destruct (1 <? len _); [apply firstOfDiff_inhabited |]; exact Hplain.
Qed.

Lemma structFieldsLoop_inhabited disabled nested fields :
  Forall (fun field =>
            match Type_ field with
            | StructOf _ _ => exists m, m ∈ nested (Type_ field)
            | _ => True
            end) fields ->
  forall acc, exists m, m ∈ structFieldsLoop disabled nested fields acc.
Proof.
  induction 1 as [| field rest Hfield _ IH]; intros acc; simpl.
  - exists acc. apply list_elem_of_here.
  - destruct (getFieldNameFromTag_inhabited (Tag field)) as [tagName Htag].
    set (fieldName := if len tagName =? 0 then strings.ToLower (Name field)
                      else tagName).
    assert (Hbind : forall (k : string -> list (gmap string Kind)),
               (exists m, m ∈ k tagName) ->
               exists m, m ∈ getFieldNameFromTag (Tag field) ≫= k).
    { intros k [m Hm]. exists m. apply list_elem_of_bind. eauto. }
    apply Hbind. fold fieldName.
    destruct (Type_ field) as [k | elem | elem | sname sfields].
    1-3: destruct (contains disabled fieldName); simpl; apply IH.
    destruct Hfield as [nestedMap Hnested].
    destruct (IH (copyInto nestedMap acc)) as [m Hm].
    exists m. apply list_elem_of_bind. eauto.
Qed.

(** [NewMongoQuery] makes a builder exactly for a struct and for a pointer
    to a struct; for anything else the reflection of
    [createValidParametersMap] panics, whatever names are disabled. *)
Theorem NewMongoQuery_of_struct t :
  ((exists mq, mq ∈ NewMongoQuery t)
   <-> exists sname fields, derefType t = StructOf sname fields)
  /\ forall disabled,
      (exists m, m ∈ createValidParametersMap t disabled)
      <-> exists sname fields, derefType t = StructOf sname fields.
Proof.
  assert (Hall : forall disabled t,
             match t with
             | StructOf _ _ =>
                 exists m, m ∈ createValidParametersMap t disabled
             | _ => True
             end).
  { intros disabled.
    induction t0 as [k | elem _ | elem _ | sname fields IH]
      using GoType_fields_ind; trivial.
    rewrite createValidParametersMap_struct.
    destruct (structFieldsLoop_inhabited disabled
                (fun value => createValidParametersMap value disabled)
                fields IH ∅) as [valid Hvalid].
    eexists. apply list_elem_of_bind. exists valid.
    split; [apply list_elem_of_here | exact Hvalid]. }
  assert (Hmaps : forall disabled,
             (exists m, m ∈ createValidParametersMap t disabled)
             <-> exists sname fields, derefType t = StructOf sname fields).
  { intros disabled. split.
    - intros [m Hm].
      destruct t as [k | [k | e | e | sname fields] | elem | sname fields];
        try (inversion Hm; fail); simpl; eauto.
    - intros (sname & fields & Hstruct).
      pose proof (Hall disabled (StructOf sname fields)) as Hm.
      destruct t as [k | elem | elem | sname' fields']; simpl in Hstruct;
        try discriminate; try (injection Hstruct as -> ->); subst;
        exact Hm. }
  split; [| exact Hmaps].
  rewrite <- (Hmaps []). unfold NewMongoQuery. split.
  - intros [mq (m & _ & Hm)%list_elem_of_bind]. eauto.
  - intros [m Hm]. eexists. apply list_elem_of_bind. exists m.
    split; [apply list_elem_of_here | exact Hm].
Qed.

End further.

(** ** The further properties on the structs of the package *)

Lemma createQueryFilter_keys_witness :
  createQueryFilter personBuilder [("age", ["7"]); ("page", ["2"])]
  = Ok {[ "age" := Single (VInt 7) ]}
  /\ (forall name,
        is_Some (({[ "age" := Single (VInt 7) ]} : gmap string term) !! name)
        <-> name ∈ [("age", ["7"]); ("page", ["2"])].*1
            /\ isMetaParameter name = false)
  /\ (forall name, name ∈ [("age", ["7"]); ("page", ["2"])].*1 ->
                   is_Some (supportedParameters personBuilder !! name)).
Proof.
  assert (Hfilter :
            createQueryFilter personBuilder [("age", ["7"]); ("page", ["2"])]
            = Ok {[ "age" := Single (VInt 7) ]})
    by (vm_compute; reflexivity).
  split; [exact Hfilter |].
  exact (createQueryFilter_keys personBuilder _ _ Hfilter).
Defined.

Lemma createQueryFilter_order_witness :
  [("age", ["7"]); ("name", ["bob"])] ≡ₚ [("name", ["bob"]); ("age", ["7"])]
  /\ NoDup [("age", ["7"]); ("name", ["bob"])].*1
  /\ forall filter,
      createQueryFilter personBuilder [("age", ["7"]); ("name", ["bob"])]
      = Ok filter
      <-> createQueryFilter personBuilder [("name", ["bob"]); ("age", ["7"])]
          = Ok filter.
Proof.
  assert (Hperm : [("age", ["7"]); ("name", ["bob"])]
                  ≡ₚ [("name", ["bob"]); ("age", ["7"])])
    by (apply perm_swap).
  assert (Hnodup : NoDup [("age", ["7"]); ("name", ["bob"])].*1)
    by (apply (bool_decide_unpack _); vm_compute; reflexivity).
  split; [exact Hperm |]. split; [exact Hnodup |].
  exact (createQueryFilter_order personBuilder _ _ Hperm Hnodup).
Defined.

Lemma createQueryFilter_meta_ignored_witness :
  isMetaParameter "page" = true
  /\ supportedParameters personBuilder !! "page" = Some Uint
  /\ createQueryFilter personBuilder
       ([("age", ["7"])] ++ ("page", ["x"]) :: [("name", ["bob"])])%list
     = createQueryFilter personBuilder
         ([("age", ["7"])] ++ [("name", ["bob"])])%list.
Proof.
  assert (Hmeta : isMetaParameter "page" = true) by reflexivity.
  assert (Hkind : supportedParameters personBuilder !! "page" = Some Uint)
    by (vm_compute; reflexivity).
  split; [exact Hmeta |]. split; [exact Hkind |].
  exact (createQueryFilter_meta_ignored personBuilder _ _ "page" ["x"] Uint
           Hmeta Hkind).
Defined.

Lemma createFieldsMap_projection_witness :
  lookupValues [("field", ["name"; "age"; "name"])] "field"
  = Some ["name"; "age"; "name"]
  /\ Forall (registered (supportedParameters personBuilder))
            ["name"; "age"; "name"]
  /\ exists fields,
      createFieldsMap personBuilder [("field", ["name"; "age"; "name"])]
      = Ok fields
      /\ forall name,
          fields !! name
          = if bool_decide (name ∈ ["name"; "age"; "name"]) then Some 1
            else None.
Proof.
  assert (Hfield : lookupValues [("field", ["name"; "age"; "name"])] "field"
                   = Some ["name"; "age"; "name"]) by reflexivity.
  assert (Hall : Forall (registered (supportedParameters personBuilder))
                        ["name"; "age"; "name"]).
  { repeat constructor; eexists; vm_compute; reflexivity. }
  split; [exact Hfield |]. split; [exact Hall |].
  exact (proj1 (createFieldsMap_projection personBuilder _ _ Hfield) Hall).
Defined.

Lemma CreateQuery_error_status_witness :
  snd (CreateQuery 20 personBuilder [("page", ["0"])])
  = Err (mkError PageCannotBeZero (Some 400))
  /\ err_http (mkError PageCannotBeZero (Some 400)) = Some StatusBadRequest.
Proof.
  assert (Herr : snd (CreateQuery 20 personBuilder [("page", ["0"])])
                 = Err (mkError PageCannotBeZero (Some 400)))
    by (vm_compute; reflexivity).
  split; [exact Herr |].
  exact (CreateQuery_error_status 20 personBuilder _ _ Herr).
Defined.

Lemma Run_error_status_witness :
  snd (Run 20 fiveDocuments personBuilder [("nickname", ["bob"])])
  = Err (notSupported "nickname")
  /\ (err_http (notSupported "nickname") = Some StatusBadRequest
      \/ (err_http (notSupported "nickname") = Some StatusInternalServerError
          /\ exists q items e0,
              snd (CreateQuery 20 personBuilder [("nickname", ["bob"])]) = Ok q
              /\ Count fiveDocuments
                   (mkQuery (collection q) (filter q) (selector q)
                            (sortFields q) 0 0) = Ok items
              /\ All fiveDocuments q = Err e0
              /\ err_cause (notSupported "nickname") = err_cause e0)).
Proof.
  assert (Herr : snd (Run 20 fiveDocuments personBuilder
                        [("nickname", ["bob"])])
                 = Err (notSupported "nickname"))
    by (vm_compute; reflexivity).
  split; [exact Herr |].
  exact (Run_error_status 20 fiveDocuments personBuilder _ _ Herr).
Defined.

Lemma CreateQuery_query_of_page_witness :
  CreateQuery 20 personBuilder [("limit", ["10"]); ("page", ["3"])]
  = (setPage personBuilder (mkPage 10 0 0 3),
     Ok (mkQuery "person" ∅ (Some ∅) [] 10 20))
  /\ Current (page (setPage personBuilder (mkPage 10 0 0 3))) <> 0
  /\ limit (mkQuery "person" ∅ (Some ∅) [] 10 20)
     = intOfUint (Size (page (setPage personBuilder (mkPage 10 0 0 3))))
  /\ skip (mkQuery "person" ∅ (Some ∅) [] 10 20)
     = intOfUint
         (wrapUint
            ((Current (page (setPage personBuilder (mkPage 10 0 0 3))) - 1)
             * Size (page (setPage personBuilder (mkPage 10 0 0 3))))).
Proof.
  assert (Hquery :
            CreateQuery 20 personBuilder [("limit", ["10"]); ("page", ["3"])]
            = (setPage personBuilder (mkPage 10 0 0 3),
               Ok (mkQuery "person" ∅ (Some ∅) [] 10 20)))
    by (vm_compute; reflexivity).
  split; [exact Hquery |].
  exact (proj2 (proj2 (proj2
           (CreateQuery_query_of_page 20 personBuilder _ _ _ Hquery)))).
Defined.

Lemma Run_response_witness :
  Run 20 fiveDocuments personBuilder [("limit", ["2"])]
  = (setPage personBuilder (mkPage 2 0 0 1),
     Ok (mkResponse tt (mkPage 2 5 3 1)))
  /\ exists q items,
      CreateQuery 20 personBuilder [("limit", ["2"])]
      = (setPage personBuilder (mkPage 2 0 0 1), Ok q)
      /\ Count fiveDocuments
           (mkQuery (collection q) (filter q) (selector q) (sortFields q) 0 0)
         = Ok items
      /\ All fiveDocuments q = Ok tt
      /\ Size (mkPage 2 5 3 1) = 2
      /\ Current (mkPage 2 5 3 1) = 1
      /\ Items (mkPage 2 5 3 1) = uintOfInt items
      /\ (0 <= items < 2 ^ 53 -> 0 < 2 <= maxUint ->
          Last (mkPage 2 5 3 1) = (items + 2 - 1) / 2).
Proof.
  assert (Hrun : Run 20 fiveDocuments personBuilder [("limit", ["2"])]
                 = (setPage personBuilder (mkPage 2 0 0 1),
                    Ok (mkResponse tt (mkPage 2 5 3 1))))
    by (vm_compute; reflexivity).
  split; [exact Hrun |].
  exact (Run_response 20 fiveDocuments personBuilder _ _ _ Hrun).
Defined.

Lemma page_within_last_witness :
  0 <= 25 < 2 ^ 53
  /\ 0 < Size (mkPage 10 0 0 3) <= maxUint
  /\ 1 <= Current (mkPage 10 0 0 3)
  /\ (Current (calculateLastPage (setItems (mkPage 10 0 0 3) (uintOfInt 25)))
      <= Last (calculateLastPage (setItems (mkPage 10 0 0 3) (uintOfInt 25)))
      <-> (Current (mkPage 10 0 0 3) - 1) * Size (mkPage 10 0 0 3) < 25).
Proof.
  assert (Hitems : 0 <= 25 < 2 ^ 53) by lia.
  assert (Hsize : 0 < Size (mkPage 10 0 0 3) <= maxUint)
    by (vm_compute; split; [reflexivity | discriminate]).
  assert (Hcurrent : 1 <= Current (mkPage 10 0 0 3))
    by (vm_compute; discriminate).
  split; [exact Hitems |]. split; [exact Hsize |]. split; [exact Hcurrent |].
  exact (page_within_last (mkPage 10 0 0 3) 25 Hitems Hsize Hcurrent).
Defined.

Lemma disabled_parameter_refused_witness :
  personWithoutName ∈ DisableParameters ["name"; "sort"] personBuilder
  /\ "name" ∈ ["name"; "sort"]
  /\ additionalSupportedParamters personBuilder !! "name" = None
  /\ "name" ∈ [("name", ["bob"])].*1
  /\ exists e,
      CreateQuery 20 personWithoutName [("name", ["bob"])]
      = (personWithoutName, Err e)
      /\ err_http e = Some StatusBadRequest.
Proof.
  assert (Hmq : personWithoutName
                ∈ DisableParameters ["name"; "sort"] personBuilder)
    by (vm_compute; apply list_elem_of_here).
  assert (Hname : "name" ∈ ["name"; "sort"]) by (apply list_elem_of_here).
  assert (Hnone : additionalSupportedParamters personBuilder !! "name" = None)
    by (vm_compute; reflexivity).
  assert (Hin : "name" ∈ [("name", ["bob"])].*1)
    by (apply list_elem_of_here).
  split; [exact Hmq |]. split; [exact Hname |]. split; [exact Hnone |].
  split; [exact Hin |].
  exact (disabled_parameter_refused 20 _ _ _ _ _ Hmq Hname Hnone Hin).
Defined.

Lemma DisableParameters_split_witness :
  personWithoutName ∈ DisableParameters ["name"; "sort"] personBuilder
  /\ DisableParameters ["age"] personWithoutName
     = DisableParameters (["name"; "sort"] ++ ["age"])%list personBuilder.
Proof.
  assert (Hmq : personWithoutName
                ∈ DisableParameters ["name"; "sort"] personBuilder)
    by (vm_compute; apply list_elem_of_here).
  split; [exact Hmq |].
  exact (DisableParameters_split ["name"; "sort"] ["age"] _ _ Hmq).
Defined.

Lemma disabled_names_exact_witness :
  personBuilder ∈ NewMongoQuery Person
  /\ personAfterCalls ∈ callsOn personCalls personBuilder
  /\ NoDup (disabledParameters personAfterCalls)
  /\ forall x,
      x ∈ disabledParameters personAfterCalls
      <-> exists paramters, Disable paramters ∈ personCalls /\ x ∈ paramters.
Proof.
  assert (Hnew : personBuilder ∈ NewMongoQuery Person).
  { rewrite NewMongoQuery_Person. apply list_elem_of_here. }
  assert (Hcalls : personAfterCalls ∈ callsOn personCalls personBuilder).
  { vm_compute. apply list_elem_of_here. }
  split; [exact Hnew |]. split; [exact Hcalls |].
  exact (disabled_names_exact Person personCalls _ _ Hnew Hcalls).
Defined.

Lemma AddOrOverwriteValidParameter_registry_witness :
  personBuilder ∈ NewMongoQuery Person
  /\ personAfterCalls ∈ callsOn personCalls personBuilder
  /\ supportedParameters
       (AddOrOverwriteValidParameter "nickname" String personAfterCalls)
     = <["nickname" := String]> (supportedParameters personAfterCalls).
Proof.
  assert (Hnew : personBuilder ∈ NewMongoQuery Person).
  { rewrite NewMongoQuery_Person. apply list_elem_of_here. }
  assert (Hcalls : personAfterCalls ∈ callsOn personCalls personBuilder).
  { vm_compute. apply list_elem_of_here. }
  split; [exact Hnew |]. split; [exact Hcalls |].
  exact (AddOrOverwriteValidParameter_registry Person personCalls _ _
           "nickname" String Hnew Hcalls).
Defined.

Lemma createValidParametersMap_sound_witness :
  testStructParameters ∈ createValidParametersMap TestStruct ["intMember"]
  /\ testStructParameters !! "embeddedbool" = Some Bool
  /\ ("embeddedbool" ∉ ["intMember"])
  /\ (validMetaParameters !! "embeddedbool" = Some Bool
      \/ exists field,
          field ∈ leafFields (derefType TestStruct)
          /\ "embeddedbool" ∈ fieldNames field
          /\ Bool = fieldKind field).
Proof.
  assert (Hm : testStructParameters
               ∈ createValidParametersMap TestStruct ["intMember"])
    by (vm_compute; apply list_elem_of_here).
  assert (Hkey : testStructParameters !! "embeddedbool" = Some Bool)
    by (vm_compute; reflexivity).
  split; [exact Hm |]. split; [exact Hkey |].
  exact (createValidParametersMap_sound ["intMember"] TestStruct _ _ _
           Hm Hkey).
Defined.

Lemma createValidParametersMap_complete_witness :
  testStructParameters ∈ createValidParametersMap TestStruct ["intMember"]
  /\ (forall key kind,
        validMetaParameters !! key = Some kind -> key ∉ ["intMember"] ->
        testStructParameters !! key = Some kind)
  /\ (forall field,
        field ∈ leafFields (derefType TestStruct) ->
        exists name,
          name ∈ fieldNames field
          /\ (name ∈ ["intMember"]
              \/ is_Some (testStructParameters !! name))).
Proof.
  assert (Hm : testStructParameters
               ∈ createValidParametersMap TestStruct ["intMember"])
    by (vm_compute; apply list_elem_of_here).
  split; [exact Hm |].
  exact (createValidParametersMap_complete ["intMember"] TestStruct _ Hm).
Defined.

Lemma createValidParametersMap_disabled_set_witness :
  (forall x, x ∈ ["name"; "sort"; "name"] <-> x ∈ ["sort"; "name"])
  /\ createValidParametersMap Person ["name"; "sort"; "name"]
     = createValidParametersMap Person ["sort"; "name"].
Proof.
  assert (Hset : forall x : string,
             x ∈ ["name"; "sort"; "name"] <-> x ∈ ["sort"; "name"]).
  { intros x. rewrite !elem_of_cons, !elem_of_nil. tauto. }
  split; [exact Hset |].
  exact (createValidParametersMap_disabled_set _ _ Person Hset).
Defined.

Lemma createValidParametersMap_deterministic_witness :
  unambiguous TestStruct
  /\ (exists sname fields, derefType TestStruct = StructOf sname fields)
  /\ (forall disabled,
        exists m, createValidParametersMap TestStruct disabled = [m])
  /\ exists mq, NewMongoQuery TestStruct = [mq].
Proof.
  assert (Hunambiguous : unambiguous TestStruct).
  { unfold unambiguous. simpl.
    repeat (apply Forall_cons; split; [eexists; vm_compute; reflexivity |]).
    apply Forall_nil_2. }
  assert (Hstruct : exists sname fields,
             derefType TestStruct = StructOf sname fields).
  { eexists _, _. reflexivity. }
  split; [exact Hunambiguous |]. split; [exact Hstruct |].
  exact (createValidParametersMap_deterministic TestStruct Hunambiguous
           Hstruct).
Defined.
